(** * wdd_bridge: the bridge between waggle-dance detection and the comb

    A shallow embedding of [wdd_bridge/bridge.py] (classes [HiveSide] and
    [Bridge]) and the properties of its event loop, shutdown sequence,
    direction labelling and log panel.

    Conventions of the embedding.
    - The arithmetic of Python floats is idealised as that of exact real
      numbers ([R]): the rounding of doubles is not modelled, and [np.pi]
      is [PI].  Statements about angles therefore keep a margin away from
      the points where rounding decides.  A float that reaches the bridge
      from a collaborator may also be an infinity or NaN ([Py.float]).
      The [float32] arithmetic of the markers is modelled with its
      rounding.
    - Python ints are [Z]; [len] and [range] counters are [nat].
    - The collaborators that live outside [bridge.py] (listener, dance
      detector, comb mapper, serial connector, statistics sink, screen) are
      represented by the record of the calls the bridge makes on them and by
      the answers they give, which a per-iteration script supplies.
    - Exceptions are those of the bridge's own lookups, unpackings and
      conversions ([KeyError], [IndexError], [StopIteration], [TypeError],
      [ValueError]) and those a script or the environment lets a
      collaborator raise: drawing on the screen, [get_message],
      [send_message], [map_to_comb] and every [close].  [statistics.log],
      the clock and [print] to standard output are taken not to raise.
    - A stop requested from outside is a call of [Bridge.stop] made while
      [get_message] waits. *)

From Stdlib Require Import String Ascii List ZArith Bool Lia Reals Lra.
Import ListNotations.

Local Open Scope Z_scope.

(** ** Python primitives used by the source *)

Module Py.

(** [math.floor] on an exact real. *)
Definition floor (x : R) : Z := Int_part x.

(** [int(x)] on a float: truncation towards zero. *)
Definition int (x : R) : Z :=
  if Rle_dec 0 x then floor x else - floor (- x).

(** [x % y] on floats: the remainder takes the sign of the divisor,
    [x - floor (x / y) * y]. *)
Definition fmod (x y : R) : R := (x - IZR (floor (x / y)) * y)%R.

(** [l[i]]: a negative index counts from the end, anything outside
    [-len l .. len l - 1] raises [IndexError] ([None]). *)
Definition index {A : Type} (l : list A) (i : Z) : option A :=
  let n := Z.of_nat (length l) in
  if 0 <=? i then nth_error l (Z.to_nat i)
  else if - n <=? i then nth_error l (Z.to_nat (n + i))
  else None.

(** [l[-k:]] for [k > 0]: the last [k] elements, the whole list when it
    is shorter. *)
Definition last_slice {A : Type} (k : nat) (l : list A) : list A :=
  skipn (length l - k) l.

(** A float as a collaborator may hand it over: a number, an infinity or
    NaN. *)
Inductive float :=
| Finite (x : R)
| Infinity (negative : bool)
| NaN.

(** [x / np.pi * 180.0]; an infinity keeps its sign, NaN stays NaN. *)
Definition degrees (x : float) : float :=
  match x with
  | Finite r => Finite (r / PI * 180)
  | Infinity negative => Infinity negative
  | NaN => NaN
  end.

End Py.

Local Open Scope string_scope.
Local Open Scope list_scope.
Local Open Scope Z_scope.

(** ** Direction labels ([HiveSide.process], lines 36-43) *)

Definition world_directions : list string :=
  [ "E"; "NEE"; "NE"; "NNE";
    "N"; "NNW"; "NW"; "NWW";
    "W"; "SWW"; "SW"; "SSW";
    "S"; "SSE"; "SE"; "SEE" ].

(** [angle = (2.0 * np.pi + world_angle) % (2.0 * np.pi)] *)
Definition normalized_angle (world_angle : R) : R :=
  Py.fmod (2 * PI + world_angle) (2 * PI).

(** [int((angle / np.pi * 180.0) / (360.0 / len(world_directions)))] *)
Definition direction_index (world_angle : R) : Z :=
  let angle := normalized_angle world_angle in
  Py.int ((angle / PI * 180) / (360 / IZR (Z.of_nat (length world_directions)))).

(** [world_directions[...]]; [None] stands for [IndexError]. *)
Definition world_direction (world_angle : R) : option string :=
  Py.index world_directions (direction_index world_angle).

(** The point of the compass a label names, in sixteenths of a full turn
    counted clockwise from north (N = 0, E = 4, S = 8, W = 12).  The
    source's three-letter labels double the cardinal letter: "NEE" lies
    between "NE" and "E". *)
Definition compass_bearing (label : string) : option Z :=
  let table :=
    [ ("N", 0); ("NNE", 1); ("NE", 2); ("NEE", 3);
      ("E", 4); ("SEE", 5); ("SE", 6); ("SSE", 7);
      ("S", 8); ("SSW", 9); ("SW", 10); ("SWW", 11);
      ("W", 12); ("NWW", 13); ("NW", 14); ("NNW", 15) ] in
  option_map snd (find (fun p => String.eqb (fst p) label) table).

(** Bucket [k] counted clockwise, respectively counter-clockwise, from due
    east. *)
Definition clockwise_from_east (k : Z) (label : string) : Prop :=
  compass_bearing label = Some ((4 + k) mod 16).

Definition counterclockwise_from_east (k : Z) (label : string) : Prop :=
  compass_bearing label = Some ((4 - k) mod 16).

(** How far from the ends of a sector an angle is kept, in radians: where
    two sectors meet, the rounding of the double arithmetic decides. *)
Definition sector_margin : R := (1 / 1000000000)%R.

(** [v] lies in sector [k] of 22.5 degrees counted from angle 0, the
    margin away from its ends. *)
Definition in_sector (k : Z) (v : R) : Prop :=
  (IZR k * (PI / 8) + sector_margin <= v
   <= (IZR k + 1) * (PI / 8) - sector_margin)%R.


(** ** Data model *)

(** [CombTriggerActuatorMessage(idx, signal_index=..., side=...)] *)
Record CombTriggerActuatorMessage := {
  actuator_index : Z;
  signal_index : Z;
  side : Z
}.

(** A detection event delivered by the listener; only [cam_id] is read by
    the bridge, the rest is handed to the dance detector. *)
Record WaggleInfo := {
  cam_id : string;
  payload : nat
}.

(** One [(x, y, waggle_angle)] triple yielded by the dance detector; the
    angle is [None] while the dance has no settled orientation. *)
Definition Observation : Type := Py.float * Py.float * option Py.float.

Inductive Resource := RWdd | RComb | RCam (cam : string) | RStatistics | RScreen.

Inductive Exn :=
| KeyError (key : string)
| IndexError
| StopIteration
| TypeError
| ValueError
| MapperError
| ScreenError
| ListenerError
| SendError
| CloseError (r : Resource).

(** What [map_to_comb(x, y, angle)] answers: the tuple
    [(xy, (waggle_angle, world_angle), (idx, distance))], in which the
    pair of angles is [None] when no angle was given and the pair of the
    sensor is [None] when none was looked up; or it raises. *)
Inductive Mapped :=
| MappedTo (xy : R * R) (angles : option (Py.float * Py.float))
    (sensor : option (Z * Py.float))
| MapRaises (e : Exn).

(** The part of [CombMapper] the bridge calls. *)
Record CombMapper := {
  map_to_comb : Py.float -> Py.float -> option Py.float -> Mapped;
  get_comb_rectangle : R * R * R * R
}.

Record HiveSide := {
  hs_cam_id : string;
  dance_detector : WaggleInfo -> list Observation;
  comb_mapper : CombMapper
}.

(** The texts handed to [print_fn]; the two [{:1.1f}] fields of the format
    string are kept as numbers. *)
Inductive Text :=
| Vibrating (direction : string) (world_deg : Py.float) (cam : string)
    (hive_deg : Py.float)
| InvalidCamera.

(** ["[{}] {}".format(time, x)] *)
Record LogLine := {
  stamp : string;
  line : Text
}.

(** [screen.print_at(text, x, y, ...)] *)
Record PrintAt := {
  pa_text : LogLine;
  pa_x : Z;
  pa_y : Z
}.

(** Calls the bridge makes on its collaborators, in program order. *)
Inductive Call :=
| StatLog (event : string) (text : option Text)
| Stdout (s : string)
| ScreenOpen
| GetKey
| Refresh (panel : list PrintAt)
| GetMessage
| SendMessage (m : CombTriggerActuatorMessage)
| Close (r : Resource).

Record Screen := {
  width : Z;
  height : Z
}.

Record Statistics := {
  filename : string
}.

Record Bridge := {
  running : bool;
  log : list LogLine;
  statistics : option Statistics;
  cameras : list (string * HiveSide);
  screen : option Screen;
  calls : list Call
}.

(** ** [HiveSide.process] *)

(** What one step of the generator does: print a line and yield a message,
    or raise. *)
Inductive Yield :=
| Emit (text : Text) (m : CombTriggerActuatorMessage)
| Throw (e : Exn).

(** Lines 42-43 on the float the mapper answered.  The remainder of an
    infinity is NaN, and [int] of NaN raises [ValueError]; an index outside
    the list raises [IndexError]. *)
Definition classify (world_angle : Py.float) : string + Exn :=
  match world_angle with
  | Py.Finite w =>
      match world_direction w with
      | Some direction => inl direction
      | None => inr IndexError
      end
  | _ => inr ValueError
  end.

(** Lines 34-48, one pass of the loop body.  Unpacking a [None] in the
    place of a pair raises [TypeError]. *)
Definition process_observation (self : HiveSide) (obs : Observation) : Yield :=
  let '(x, y, waggle_angle) := obs in
  match map_to_comb (comb_mapper self) x y waggle_angle with
  | MapRaises e => Throw e
  | MappedTo xy None _ => Throw TypeError
  | MappedTo xy (Some _) None => Throw TypeError
  | MappedTo xy (Some (waggle_angle, world_angle)) (Some (idx, distance)) =>
      match classify world_angle with
      | inr e => Throw e
      | inl direction =>
          Emit (Vibrating direction (Py.degrees world_angle) (hs_cam_id self)
                  (Py.degrees waggle_angle))
               {| actuator_index := idx; signal_index := 1; side := 1 |}
      end
  end.

(** The mapper answers the pair of the angles and the pair of the sensor,
    and the world angle is a number. *)
Definition mappable (self : HiveSide) (obs : Observation) : bool :=
  let '(x, y, waggle_angle) := obs in
  match map_to_comb (comb_mapper self) x y waggle_angle with
  | MappedTo _ (Some (_, Py.Finite _)) (Some _) => true
  | _ => false
  end.

(** The generator, as the list of its steps: one per observation of
    [self.dance_detector.process(waggle_info)].  A consumer sees the steps
    up to the first one that raises. *)
Definition process (self : HiveSide) (waggle_info : WaggleInfo) : list Yield :=
  map (process_observation self) (dance_detector self waggle_info).

(** Messages and lines of a fully consumed generator. *)
Definition messages_of (ys : list Yield) : list CombTriggerActuatorMessage :=
  flat_map (fun y => match y with Emit _ m => [m] | Throw _ => [] end) ys.

Definition texts_of (ys : list Yield) : list Text :=
  flat_map (fun y => match y with Emit t _ => [t] | Throw _ => [] end) ys.

Definition raises (ys : list Yield) : bool :=
  existsb (fun y => match y with Emit _ _ => false | Throw _ => true end) ys.

(** The steps before the first one that raises. *)
Fixpoint completed (ys : list Yield) : list Yield :=
  match ys with
  | Emit text m :: rest => Emit text m :: completed rest
  | _ => []
  end.

(** The exception the generator ends with, if a step raises. *)
Fixpoint first_raise (ys : list Yield) : option Exn :=
  match ys with
  | [] => None
  | Emit _ _ :: rest => first_raise rest
  | Throw e :: _ => Some e
  end.

(** ** The status view ([Bridge.run_ui]) *)

(** [ord("Q")] *)
Definition ord (c : ascii) : Z := Z.of_N (N_of_ascii c).

(** [ev in (ord("Q"), ord("q"))]; [get_key] answers [None] when no key is
    pending. *)
Definition is_quit (ev : option Z) : bool :=
  match ev with
  | Some c => Z.eqb c (ord "Q"%char) || Z.eqb c (ord "q"%char)
  | None => false
  end.

(** Lines 173-179: the outline [(cleft, cright, ctop, cbottom)], on exact
    numbers.  With a comb rectangle of zero width line 178 raises and
    there is no outline; like every failure of the drawing, a script
    announces that one by [draw_fails], and the passes with
    [draw_fails t = false] are those in which the drawing does not
    raise. *)
Definition comb_outline (screen_width : Z) (rect : R * R * R * R)
  : Z * Z * Z * Z :=
  let '(hx0, hy0, hx1, hy1) := rect in
  let hwidth := (hx1 - hx0)%R in
  let hheight := (hy1 - hy0)%R in
  let cleft := Py.int (IZR screen_width * (1 / 10)) in
  let cright := Py.int (IZR screen_width * (9 / 10)) in
  let cwidth := cright - cleft in
  let ctop := Z.min 5 cleft in
  let cbottom := Py.int (IZR cwidth * (hheight / hwidth)) in
  (cleft, cright, ctop, cbottom).

(** Lines 234-243: the [print_at] calls of the log panel. *)
Definition log_panel (screen_height cbottom : Z) (log : list LogLine)
  : list PrintAt :=
  let space := screen_height - cbottom in
  if (0 <? space)%Z then
    let log := Py.last_slice (Z.to_nat space) log in
    flat_map
      (fun i =>
         match nth_error log i with
         | Some l =>
             [ {| pa_text := l; pa_x := 0; pa_y := cbottom + 2 + Z.of_nat i |} ]
         | None => []
         end)
      (seq 0 (Nat.min (length log) (Z.to_nat space)))
  else [].

(** One [print_at] per line, on consecutive rows from [row] downwards: the
    shape the panel is shown to have. *)
Fixpoint rows_from (row : Z) (lines : list LogLine) : list PrintAt :=
  match lines with
  | [] => []
  | l :: rest =>
      {| pa_text := l; pa_x := 0; pa_y := row |} :: rows_from (row + 1) rest
  end.

(** A [print_at] lands on the surface when its row is one of
    [0 .. height - 1]. *)
Definition on_surface (screen_height : Z) (p : PrintAt) : Prop :=
  0 <= pa_y p < screen_height.

(** ** State and exceptions *)

Inductive Outcome (A : Type) :=
| Val (a : A)
| Exc (e : Exn).
Arguments Val {A} a.
Arguments Exc {A} e.

(** A method of [Bridge]: it updates the object and returns or raises. *)
Definition M (A : Type) : Type := Bridge -> Bridge * Outcome A.

Definition ret {A : Type} (a : A) : M A := fun b => (b, Val a).

Definition raise {A : Type} (e : Exn) : M A := fun b => (b, Exc e).

Definition bind {A B : Type} (m : M A) (k : A -> M B) : M B :=
  fun b =>
    match m b with
    | (b', Val a) => k a b'
    | (b', Exc e) => (b', Exc e)
    end.

Notation "x <- m ;; k" := (bind m (fun x => k))
  (at level 61, m at next level, right associativity).
Notation "m ;; k" := (bind m (fun _ => k))
  (at level 61, right associativity).

Definition get : M Bridge := fun b => (b, Val b).

Definition when (c : bool) (m : M unit) : M unit := if c then m else ret tt.

(** [try: body finally: handler]: the handler always runs; if it raises,
    its exception replaces the outcome of the body. *)
Definition try_finally {A : Type} (body : M A) (handler : M unit) : M A :=
  fun b =>
    match body b with
    | (b1, r) =>
        match handler b1 with
        | (b2, Val _) => (b2, r)
        | (b2, Exc e) => (b2, Exc e)
        end
    end.

(** Field updates of the object. *)
Definition with_call (c : Call) (b : Bridge) : Bridge :=
  {| running := running b; log := log b; statistics := statistics b;
     cameras := cameras b; screen := screen b; calls := calls b ++ [c] |}.

Definition with_running (v : bool) (b : Bridge) : Bridge :=
  {| running := v; log := log b; statistics := statistics b;
     cameras := cameras b; screen := screen b; calls := calls b |}.

Definition with_screen (s : option Screen) (b : Bridge) : Bridge :=
  {| running := running b; log := log b; statistics := statistics b;
     cameras := cameras b; screen := s; calls := calls b |}.

Definition with_line (l : LogLine) (b : Bridge) : Bridge :=
  {| running := running b; log := log b ++ [l]; statistics := statistics b;
     cameras := cameras b; screen := screen b; calls := calls b |}.

Definition with_calls (cs : list Call) (b : Bridge) : Bridge :=
  {| running := running b; log := log b; statistics := statistics b;
     cameras := cameras b; screen := screen b; calls := calls b ++ cs |}.

Definition record_call (c : Call) : M unit := fun b => (with_call c b, Val tt).

Definition set_running (v : bool) : M unit := fun b => (with_running v b, Val tt).

Definition set_screen (s : option Screen) : M unit :=
  fun b => (with_screen s b, Val tt).

Definition append_log (l : LogLine) : M unit := fun b => (with_line l b, Val tt).

(** [self.cameras[key]] and [key in self.cameras] *)
Fixpoint cameras_get (cams : list (string * HiveSide)) (key : string)
  : option HiveSide :=
  match cams with
  | [] => None
  | (k, side) :: rest => if String.eqb k key then Some side else cameras_get rest key
  end.

Definition cameras_mem (cams : list (string * HiveSide)) (key : string) : bool :=
  match cameras_get cams key with Some _ => true | None => false end.

(** Observations on the record of calls. *)
Definition sent (b : Bridge) : list CombTriggerActuatorMessage :=
  flat_map (fun c => match c with SendMessage m => [m] | _ => [] end) (calls b).

Definition closed (b : Bridge) : list Resource :=
  flat_map (fun c => match c with Close r => [r] | _ => [] end) (calls b).

(** Number of frames flushed to the screen. *)
Definition refreshes (b : Bridge) : nat :=
  length
    (flat_map (fun c => match c with Refresh p => [p] | _ => [] end) (calls b)).

(** ** The environment of one loop iteration

    What the collaborators answer during one pass of the [while] loop of
    [Bridge.run]. *)

Inductive Received :=
| RecvError
| RecvNothing
| RecvWaggle (waggle_info : WaggleInfo).

Record Tick := {
  (** the UTC time put in front of the lines printed in this pass *)
  now : string;
  (** the answer of [screen.get_key()] *)
  key : option Z;
  (** the drawing of this pass raises: a call on the screen, or line 178
      on a comb rectangle of zero width *)
  draw_fails : bool;
  (** [Bridge.stop] is requested from outside while [get_message] waits *)
  stop_request : bool;
  (** the answer of [wdd.get_message(block=True, timeout=1.0)] *)
  message : Received;
  (** [Some n]: the first [n] calls of [comb.send_message] succeed and the
      next one raises; [None]: none raises *)
  send_fails : option nat
}.

Inductive Control := Continue | Break.

(** How far [run] got on a finite script: the loop was left, or the script
    ended with the loop still running. *)
Inductive Status := Exited | Pending.

Definition is_some {A : Type} (o : option A) : bool :=
  match o with Some _ => true | None => false end.

(** ** [Bridge] *)

Section BridgeMethods.

(** The surface [asciimatics.screen.Screen.open()] answers. *)
Variable terminal : Screen.

(** Whether [close()] of a collaborator raises. *)
Variable close_fails : Resource -> bool.

(** [self.log_fn]: [self.statistics.log], or [lambda _, **_kwargs: None]. *)
Definition log_fn (event : string) (text : option Text) : M unit :=
  b <- get ;;
  match statistics b with
  | Some _ => record_call (StatLog event text)
  | None => ret tt
  end.

(** Lines 71-76. *)
Definition print_fn (time : string) (x : Text) : M unit :=
  append_log {| stamp := time; line := x |} ;;
  b <- get ;;
  when (is_some (statistics b)) (log_fn "log" (Some x)).

(** [close()] of an owned object; [HiveSide.close] is [pass]. *)
Definition close (r : Resource) : M unit :=
  record_call (Close r) ;;
  match r with
  | RCam _ => ret tt
  | _ => if close_fails r then raise (CloseError r) else ret tt
  end.

(** [for cam in self.cameras.values(): cam.close()] *)
Fixpoint close_cameras (cams : list (string * HiveSide)) : M unit :=
  match cams with
  | [] => ret tt
  | (k, _) :: rest => close (RCam k) ;; close_cameras rest
  end.

(** Lines 116-129. *)
Definition stop : M unit :=
  b <- get ;;
  if running b then
    log_fn "stopping execution" None ;;
    set_running false ;;
    close RWdd ;;
    close RComb ;;
    close_cameras (cameras b) ;;
    b1 <- get ;;
    when (is_some (statistics b1)) (close RStatistics) ;;
    b2 <- get ;;
    when (is_some (screen b2)) (close RScreen)
  else ret tt.

(** Lines 158-245, the inner [ui(screen)].  Of the frame only the log panel
    is recorded, with the [refresh]. *)
Definition ui (t : Tick) (scr : Screen) : M unit :=
  b <- get ;;
  match cameras b with
  | [] => raise StopIteration
  | (_, any_side) :: _ =>
      record_call GetKey ;;
      if is_quit (key t) then
        stop ;;
        record_call (Stdout "Aborting!")
      else if draw_fails t then raise ScreenError
      else
        let '(cleft, cright, ctop, cbottom) :=
          comb_outline (width scr) (get_comb_rectangle (comb_mapper any_side)) in
        b' <- get ;;
        record_call (Refresh (log_panel (height scr) cbottom (log b')))
  end.

(** Lines 247-249. *)
Definition run_ui (t : Tick) : M unit :=
  b <- get ;;
  match screen b with
  | None =>
      record_call ScreenOpen ;;
      set_screen (Some terminal) ;;
      ui t terminal
  | Some scr => ui t scr
  end.

(** Line 138, with a stop requested during the wait. *)
Definition get_message (t : Tick) : M (option WaggleInfo) :=
  record_call GetMessage ;;
  when (stop_request t) stop ;;
  match message t with
  | RecvError => raise ListenerError
  | RecvNothing => ret None
  | RecvWaggle w => ret (Some w)
  end.

(** Lines 151-152: the generator is advanced one step, its line is printed,
    and the message it yields is sent before the next step. *)
Fixpoint send_all (time : string) (ys : list Yield) (fails : option nat)
  : M unit :=
  match ys with
  | [] => ret tt
  | Throw e :: _ => raise e
  | Emit text m :: rest =>
      print_fn time text ;;
      match fails with
      | Some O => raise SendError
      | Some (S n) => record_call (SendMessage m) ;; send_all time rest (Some n)
      | None => record_call (SendMessage m) ;; send_all time rest None
      end
  end.

(** Lines 136-152: one pass of the loop body. *)
Definition iteration (t : Tick) : M Control :=
  run_ui t ;;
  waggle_info <- get_message t ;;
  b <- get ;;
  if negb (running b) then
    stop ;;
    ret Break
  else
    match waggle_info with
    | None => ret Continue
    | Some w =>
        let waggle_cam_id := cam_id w in
        when (negb (cameras_mem (cameras b) waggle_cam_id))
             (print_fn (now t) InvalidCamera) ;;
        match cameras_get (cameras b) waggle_cam_id with
        | None => raise (KeyError waggle_cam_id)
        | Some cam =>
            send_all (now t) (process cam w) (send_fails t) ;;
            ret Continue
        end
    end.

(** [while self.running: ...] over a script with one entry per pass. *)
Fixpoint while_running (ticks : list Tick) : M Status :=
  fun b =>
    if running b then
      match ticks with
      | [] => (b, Val Pending)
      | t :: rest =>
          match iteration t b with
          | (b', Val Continue) => while_running rest b'
          | (b', Val Break) => (b', Val Exited)
          | (b', Exc e) => (b', Exc e)
          end
      end
    else (b, Val Exited).

(** Lines 131-155.  When the script ends with the loop still running the
    [finally] clause has not been reached. *)
Definition run (ticks : list Tick) : M Status :=
  log_fn "starting execution" None ;;
  fun b =>
    match while_running ticks b with
    | (b1, Val Pending) => (b1, Val Pending)
    | _ => try_finally (while_running ticks) stop b
    end.

End BridgeMethods.

(** ** Notions used to state the properties *)

(** The objects whose [close] lines 120-129 call, in that order. *)
Definition owned (b : Bridge) : list Resource :=
  [RWdd; RComb]
  ++ map (fun c => RCam (fst c)) (cameras b)
  ++ (if is_some (statistics b) then [RStatistics] else [])
  ++ (if is_some (screen b) then [RScreen] else []).

(** Whether [close] of [r] raises: never for a [HiveSide]. *)
Definition close_raises (close_fails : Resource -> bool) (r : Resource) : bool :=
  match r with
  | RCam _ => false
  | _ => close_fails r
  end.

(** Closing [rs] one after the other with no exception handler: the calls
    made are those up to and including the first one that raises. *)
Fixpoint attempted (close_fails : Resource -> bool) (rs : list Resource)
  : list Resource :=
  match rs with
  | [] => []
  | r :: rest =>
      if close_raises close_fails r then [r]
      else r :: attempted close_fails rest
  end.

(** The [close] calls of one execution of the guarded body of [stop]. *)
Definition stop_sequence (close_fails : Resource -> bool) (b : Bridge)
  : list Resource :=
  attempted close_fails (owned b).

(** The exception the sequence ends with, if any. *)
Definition stop_outcome (close_fails : Resource -> bool) (b : Bridge)
  : Outcome unit :=
  match find (close_raises close_fails) (owned b) with
  | Some r => Exc (CloseError r)
  | None => Val tt
  end.

(** The calls of one execution of the guarded body of [stop]. *)
Definition stop_calls (close_fails : Resource -> bool) (b : Bridge)
  : list Call :=
  (if is_some (statistics b) then [StatLog "stopping execution" None] else [])
  ++ map Close (stop_sequence close_fails b).

(** The record of [close] calls of a bridge that has not been stopped is
    empty; that of a stopped one is one stop sequence. *)
Definition shutdown_consistent (close_fails : Resource -> bool) (b : Bridge)
  : Prop :=
  closed b = if running b then [] else stop_sequence close_fails b.

Definition Resource_eq_dec (r r' : Resource) : {r = r'} + {r <> r'}.
Proof. decide equality. apply string_dec. Defined.

(** Number of [close] calls recorded for [r]. *)
Definition times_closed (b : Bridge) (r : Resource) : nat :=
  count_occ Resource_eq_dec (closed b) r.

Definition is_prefix {A : Type} (l l' : list A) : Prop :=
  exists rest, l' = l ++ rest.

(** [b'] is a later state of [b]: the log and the call record have only
    grown at the end, the configuration is the same, and a cleared
    [running] flag has stayed cleared. *)
Record evolves (b b' : Bridge) : Prop := {
  ev_log : is_prefix (log b) (log b');
  ev_calls : is_prefix (calls b) (calls b');
  ev_cameras : cameras b' = cameras b;
  ev_statistics : statistics b' = statistics b;
  ev_running : running b = false -> running b' = false
}.

(** [b'] differs from [b] at most in the screen and in calls that neither
    send a message nor close anything. *)
Record untouched (b b' : Bridge) : Prop := {
  un_running : running b' = running b;
  un_log : log b' = log b;
  un_cameras : cameras b' = cameras b;
  un_statistics : statistics b' = statistics b;
  un_sent : sent b' = sent b;
  un_closed : closed b' = closed b
}.

(** What is left of a pass once an event has been received with the flag
    still set: lines 146-152. *)
Definition route (t : Tick) (w : WaggleInfo) : M Control :=
  b <- get ;;
  when (negb (cameras_mem (cameras b) (cam_id w)))
       (print_fn (now t) InvalidCamera) ;;
  match cameras_get (cameras b) (cam_id w) with
  | None => raise (KeyError (cam_id w))
  | Some cam =>
      send_all (now t) (process cam w) (send_fails t) ;;
      ret Continue
  end.

(** [m] keeps [P], whether it returns or raises. *)
Definition preserves {A : Type} (P : Bridge -> Prop) (m : M A) : Prop :=
  forall b, P b -> P (fst (m b)).

(** ** A sample installation

    One camera whose detector reports one dance per event, a mapper that
    sends it to actuator 2 with world angle 0, no statistics file, an 80x24
    terminal. *)

Module Sample.

(** With an angle the mapper answers world angle 0 and actuator 2;
    without one it answers [None] in the place of the angles. *)
Definition mapper : CombMapper :=
  {| map_to_comb := fun _ _ angle =>
       MappedTo (0%R, 0%R)
         (option_map (fun _ => (Py.Finite 0, Py.Finite 0)) angle)
         (Some (2, Py.Finite 0));
     get_comb_rectangle := (0%R, 0%R, 4%R, 2%R) |}.

Definition cam1 : HiveSide :=
  {| hs_cam_id := "cam1";
     dance_detector := fun _ =>
       [(Py.Finite 10, Py.Finite 10, Some (Py.Finite 0))];
     comb_mapper := mapper |}.

(** A camera whose detector reports a dance without a settled angle and
    then one with an angle. *)
Definition cam_unsettled : HiveSide :=
  {| hs_cam_id := "cam1";
     dance_detector := fun _ =>
       [(Py.Finite 10, Py.Finite 10, None);
        (Py.Finite 10, Py.Finite 10, Some (Py.Finite 0))];
     comb_mapper := mapper |}.

Definition bridge : Bridge :=
  {| running := true; log := []; statistics := None;
     cameras := [("cam1", cam1)]; screen := None; calls := [] |}.

Definition terminal : Screen := {| width := 80; height := 24 |}.

Definition no_failure (r : Resource) : bool := false.

Definition listener_fails (r : Resource) : bool :=
  match r with RWdd => true | _ => false end.

Definition dance (cam : string) : WaggleInfo :=
  {| cam_id := cam; payload := 0 |}.

(** A pass in which nothing is received. *)
Definition idle : Tick :=
  {| now := "12:00:00"; key := None; draw_fails := false;
     stop_request := false; message := RecvNothing; send_fails := None |}.

(** A pass in which a dance of camera [cam] is received. *)
Definition waggle (cam : string) : Tick :=
  {| now := "12:00:01"; key := None; draw_fails := false;
     stop_request := false; message := RecvWaggle (dance cam);
     send_fails := None |}.

(** A dance is received while a stop is requested during the wait. *)
Definition waggle_during_stop (cam : string) : Tick :=
  {| now := "12:00:02"; key := None; draw_fails := false;
     stop_request := true; message := RecvWaggle (dance cam);
     send_fails := None |}.

(** The operator presses [q]. *)
Definition quit : Tick :=
  {| now := "12:00:03"; key := Some (ord "q"%char); draw_fails := false;
     stop_request := false; message := RecvNothing; send_fails := None |}.

Definition entry (n : nat) : LogLine :=
  {| stamp := String (ascii_of_nat (48 + n)) ""; line := InvalidCamera |}.

End Sample.

(** * The rest of [bridge.py]

    The constructor of [Bridge], the markers of the status view, and
    notions about the record of calls. *)

From Stdlib Require Import DecimalString.

Module PyMore.

(** [round(x, 0)] on a float: the nearest integer, a tie going to the even
    one. *)
Definition round (x : R) : Z :=
  let f := Py.floor x in
  if Rlt_dec (x - IZR f) (1 / 2) then f
  else if Rlt_dec (1 / 2) (x - IZR f) then f + 1
  else if Z.even f then f else f + 1.

(** ["{}".format(n)] for a length. *)
Definition format_nat (n : nat) : string :=
  NilEmpty.string_of_uint (Nat.to_uint n).

(** [if s:] on an optional string: [None] and [""] are false. *)
Definition truthy (s : option string) : bool :=
  match s with
  | Some f => negb (String.eqb f "")
  | None => false
  end.

End PyMore.

(** ** [Bridge.__init__] *)

(** [self.cameras[key] = side]: an existing key keeps its place and gets
    the new value, a new key goes to the end. *)
Fixpoint cameras_set (cams : list (string * HiveSide)) (key : string)
  (side : HiveSide) : list (string * HiveSide) :=
  match cams with
  | [] => [(key, side)]
  | (k, s) :: rest =>
      if String.eqb k key then (k, side) :: rest
      else (k, s) :: cameras_set rest key side
  end.

(** One entry of [config["cameras"]]: its ["cam_id"], if present, and the
    calibration fields, which only [CombMapper] reads. *)
Record CameraConfig := {
  cfg_cam_id : option string;
  cfg_calibration : nat
}.

(** The document [json.load] answers; a missing key is [None]. *)
Record Config := {
  cfg_latitude : option R;
  cfg_longitude : option R;
  cfg_cameras : option (list CameraConfig)
}.

(** What the constructors and the file system answer at start-up; [None]
    and [false] stand for a raised exception. *)
Record Startup := {
  open_statistics : string -> option Statistics;
  load_config : string -> option Config;
  new_azimuth : R -> R -> bool;
  new_detector : string -> WaggleInfo -> list Observation;
  new_mapper : CameraConfig -> R * R -> option CombMapper;
  get_actuator_count : CombMapper -> Z;
  open_listener : bool;
  open_connector : Z -> bool
}.

(** What has been constructed or printed so far. *)
Inductive Built :=
| BStatistics
| BConfig
| BAzimuth
| BCamera (key : string)
| BPrint (s : string)
| BListener
| BConnector.

Inductive StartupError :=
| Raised (e : Exn)
| ComponentFailed (component : string).

Inductive Started :=
| Constructed (b : Bridge)
| Failed (e : StartupError).

(** Lines 90-98: the loop over [config["cameras"]]. *)
Fixpoint build_cameras (env : Startup) (azimuth : R * R)
  (configs : list CameraConfig) (cams : list (string * HiveSide))
  : list Built * (list (string * HiveSide) + StartupError) :=
  match configs with
  | [] => ([], inl cams)
  | camera_config :: rest =>
      match cfg_cam_id camera_config with
      | None => ([], inr (Raised (KeyError "cam_id")))
      | Some k =>
          match new_mapper env camera_config azimuth with
          | None => ([], inr (ComponentFailed "CombMapper"))
          | Some mapper =>
              let side := {| hs_cam_id := k;
                             dance_detector := new_detector env k;
                             comb_mapper := mapper |} in
              let (built, result) :=
                build_cameras env azimuth rest (cameras_set cams k side) in
              (BCamera k :: built, result)
          end
      end
  end.

(** Lines 99-114, once the cameras are there. *)
Definition connect (env : Startup) (statistics : option Statistics)
  (cams : list (string * HiveSide)) : list Built * Started :=
  let loaded :=
    ("Loaded configs for " ++ PyMore.format_nat (length cams)
       ++ " cameras.")%string in
  let prints1 := [BPrint loaded; BPrint "Initializing WDD connection.."] in
  if negb (open_listener env) then (prints1, Failed (ComponentFailed "WDDListener"))
  else
    let prints2 :=
      prints1 ++ [BListener; BPrint "Initializing serial connection.."] in
    match cams with
    | [] => (prints2, Failed (Raised StopIteration))
    | (_, first_side) :: _ =>
        if negb (open_connector env
                   (get_actuator_count env (comb_mapper first_side)))
        then (prints2, Failed (ComponentFailed "CombConnector"))
        else
          (prints2 ++ [BConnector],
           Constructed
             {| running := true; log := []; statistics := statistics;
                cameras := cams; screen := None;
                calls := [Stdout loaded;
                          Stdout "Initializing WDD connection..";
                          Stdout "Initializing serial connection.."] |})
    end.

(** Lines 52-114. *)
Definition init (env : Startup) (comb_config : string)
  (stats_file : option string) : list Built * Started :=
  let opened :=
    if PyMore.truthy stats_file then
      match stats_file with
      | Some f =>
          match open_statistics env f with
          | Some s => inl (Some s)
          | None => inr (ComponentFailed "Statistics")
          end
      | None => inl None
      end
    else inl None in
  match opened with
  | inr e => ([], Failed e)
  | inl statistics =>
      let built0 := if is_some statistics then [BStatistics] else [] in
      match load_config env comb_config with
      | None => (built0, Failed (ComponentFailed "json.load"))
      | Some config =>
          let built1 := built0 ++ [BConfig] in
          match cfg_latitude config with
          | None => (built1, Failed (Raised (KeyError "latitude")))
          | Some latitude =>
              match cfg_longitude config with
              | None => (built1, Failed (Raised (KeyError "longitude")))
              | Some longitude =>
                  if negb (new_azimuth env latitude longitude)
                  then (built1, Failed (ComponentFailed "AzimuthUpdater"))
                  else
                    let built2 := built1 ++ [BAzimuth] in
                    match cfg_cameras config with
                    | None => (built2, Failed (Raised (KeyError "cameras")))
                    | Some configs =>
                        match build_cameras env (latitude, longitude)
                                configs [] with
                        | (built3, inr e) => (built2 ++ built3, Failed e)
                        | (built3, inl cams) =>
                            let (built4, result) :=
                              connect env statistics cams in
                            (built2 ++ built3 ++ built4, result)
                        end
                    end
              end
          end
      end
  end.

(** The keys of the dictionary, in its order. *)
Definition camera_keys (cams : list (string * HiveSide)) : list string :=
  map fst cams.

(** The last entry of [configs] that carries the identifier [key]. *)
Fixpoint last_config (configs : list CameraConfig) (key : string)
  : option CameraConfig :=
  match configs with
  | [] => None
  | c :: rest =>
      match last_config rest key with
      | Some c' => Some c'
      | None =>
          match cfg_cam_id c with
          | Some k => if String.eqb k key then Some c else None
          | None => None
          end
      end
  end.

(** ** Markers of the status view (lines 190-225) *)

Inductive Colour := Yellow | Cyan | Blue.

(** [screen.print_at(char, x, y, colour=color)] *)
Record Glyph := {
  g_char : string;
  g_x : Z;
  g_y : Z;
  g_colour : Colour
}.

Definition arrows : list string :=
  [ "→"; "↗"; "↑"; "↖"; "←"; "↙"; "↓"; "↘"; "→" ].

Definition side_colors : list Colour := [Yellow; Cyan].

(** The numbers [draw_at_comb_position] closes over. *)
Record Geometry := {
  hx0 : R;
  hy0 : R;
  hwidth : R;
  hheight : R;
  cleft : Z;
  ctop : Z;
  cwidth : Z;
  cheight : Z
}.



(** Lines 173-179, as the closure sees them. *)
Definition geometry (screen_width : Z) (rect : R * R * R * R) : Geometry :=
  let '(x0, y0, x1, y1) := rect in
  let '(l, r, t, b) := comb_outline screen_width rect in
  {| hx0 := x0; hy0 := y0;
     hwidth := (x1 - x0)%R; hheight := (y1 - y0)%R;
     cleft := l; ctop := t;
     cwidth := r - l; cheight := b - t |}.

(** What the model needs of numpy's [float32] and [int32]. *)
Class Numpy := {
  (** the [float32] a real number is rounded to; the overflow of
      [float32] to an infinity is not modelled *)
  float32 : R -> R;
  (** what [astype(np.int32)] answers on an infinity or NaN ([None]) and
      on a number outside the range of [int32]: the conversion does not
      raise, and its result is left to the platform *)
  int32_of_invalid : option R -> Z
}.

(** [astype(np.int32)] on a [float32]; [None] is an infinity or NaN.  A
    number in the range of [int32] is truncated towards zero. *)
Definition astype_int32 {np : Numpy} (v : option R) : Z :=
  match v with
  | Some x =>
      let i := Py.int x in
      if (- 2 ^ 31 <=? i) && (i <? 2 ^ 31) then i else int32_of_invalid v
  | None => int32_of_invalid None
  end.

(** Lines 191-196 on one coordinate: every step is an operation on
    [float32], rounded; a division by zero gives an infinity or NaN, which
    the later steps keep. *)
Definition to_screen {np : Numpy} (v origin extent : R)
  (cextent cstart : Z) : Z :=
  let v := float32 v in
  let v := float32 (v - float32 origin) in
  let v :=
    if Req_EM_T (float32 extent) 0 then None
    else Some (float32 (v / float32 extent)) in
  let v := option_map (fun v => float32 (v * float32 (IZR cextent))) v in
  let v := option_map (fun v => float32 (v + float32 (IZR cstart))) v in
  astype_int32 v.

(** Lines 190-197. *)
Definition draw_at_comb_position {np : Numpy} (g : Geometry) (xy : R * R)
  (char : string) (color : Colour) : Glyph :=
  let '(x, y) := xy in
  {| g_char := char;
     g_x := to_screen x (hx0 g) (hwidth g) (cwidth g) (cleft g);
     g_y := to_screen y (hy0 g) (hheight g) (cheight g) (ctop g);
     g_colour := color |}.

(** A number that [float32] holds exactly. *)
Definition exact32 {np : Numpy} (x : R) : Prop := float32 x = x.

(** Rounding keeps the order, and leaves 0 and 1 as they are. *)
Definition rounds {np : Numpy} : Prop :=
  (forall x y, (x <= y)%R -> (float32 x <= float32 y)%R)
  /\ exact32 0 /\ exact32 1.

(** The comb rectangle and the outline are held exactly by [float32] (as
    pixel and cell numbers below [2 ^ 24] are), and the cells of the
    outline are in the range of [int32]. *)
Definition exact_geometry {np : Numpy} (g : Geometry) : Prop :=
  (exact32 (hx0 g) /\ exact32 (hwidth g) /\ exact32 (hx0 g + hwidth g))
  /\ (exact32 (hy0 g) /\ exact32 (hheight g) /\ exact32 (hy0 g + hheight g))
  /\ (exact32 (IZR (cleft g)) /\ exact32 (IZR (cwidth g))
      /\ exact32 (IZR (cleft g + cwidth g)))
  /\ (exact32 (IZR (ctop g)) /\ exact32 (IZR (cheight g))
      /\ exact32 (IZR (ctop g + cheight g)))
  /\ (- 2 ^ 31 <= cleft g < 2 ^ 31 /\ - 2 ^ 31 <= cleft g + cwidth g < 2 ^ 31)
  /\ (- 2 ^ 31 <= ctop g < 2 ^ 31 /\ - 2 ^ 31 <= ctop g + cheight g < 2 ^ 31).

(** Lines 213-215: [int(round(o / 45, 0))] of the angle brought to
    degrees in [[0, 360)]. *)
Definition arrow_index (o : R) : Z :=
  let o := (o / PI * 180)%R in
  let o := Py.fmod (o + 360) 360 in
  PyMore.round (o / 45).

(** Lines 211-215: the character of position [idx] among [count]; [None]
    stands for [IndexError]. *)
Definition marker_char (draw_arrows : bool) (count idx : nat) (o : option R)
  : option string :=
  let char := if Z.of_nat idx <? Z.of_nat count - 1 then "." else "o" in
  match draw_arrows, o with
  | true, Some o => Py.index arrows (arrow_index o)
  | _, _ => Some char
  end.

(** One open dance: its positions [((x, y), o)]. *)
Definition DancePositions : Type := list ((R * R) * option R).

(** What the view reads of one camera: [get_dance_positions()] and
    [map_to_comb(x, y, find_sensor=False)]. *)
Record SideView := {
  sv_dances : list DancePositions;
  sv_to_comb : R -> R -> R * R
}.

(** Lines 207-218, from position [idx] on: the glyphs drawn and the
    exception that ends the drawing, if any. *)
Fixpoint draw_positions {np : Numpy} (draw_arrows : bool) (g : Geometry)
  (to_comb : R -> R -> R * R) (side_index count idx : nat)
  (positions : DancePositions) : list Glyph * option Exn :=
  match positions with
  | [] => ([], None)
  | ((x, y), o) :: rest =>
      let xy := to_comb x y in
      match marker_char draw_arrows count idx o with
      | None => ([], Some IndexError)
      | Some char =>
          match Py.index side_colors (Z.of_nat side_index) with
          | None => ([], Some IndexError)
          | Some color =>
              let (glyphs, e) :=
                draw_positions draw_arrows g to_comb side_index count
                  (S idx) rest in
              (draw_at_comb_position g xy char color :: glyphs, e)
          end
      end
  end.

(** Line 206: the dances of one camera. *)
Fixpoint draw_dances {np : Numpy} (draw_arrows : bool) (g : Geometry)
  (to_comb : R -> R -> R * R) (side_index : nat)
  (dances : list DancePositions) : list Glyph * option Exn :=
  match dances with
  | [] => ([], None)
  | positions :: rest =>
      match draw_positions draw_arrows g to_comb side_index
              (length positions) 0 positions with
      | (glyphs, Some e) => (glyphs, Some e)
      | (glyphs, None) =>
          let (more, e) :=
            draw_dances draw_arrows g to_comb side_index rest in
          (glyphs ++ more, e)
      end
  end.

(** Line 205: the cameras, numbered from [side_index]. *)
Fixpoint draw_sides {np : Numpy} (draw_arrows : bool) (g : Geometry)
  (side_index : nat)
  (sides : list SideView) : list Glyph * option Exn :=
  match sides with
  | [] => ([], None)
  | side :: rest =>
      match draw_dances draw_arrows g (sv_to_comb side) side_index
              (sv_dances side) with
      | (glyphs, Some e) => (glyphs, Some e)
      | (glyphs, None) =>
          let (more, e) := draw_sides draw_arrows g (S side_index) rest in
          (glyphs ++ more, e)
      end
  end.

(** Lines 220-225: the sensors, in blue. *)
Definition draw_sensors {np : Numpy} (g : Geometry) (sensors : list (R * R))
  : list Glyph :=
  map (fun xy => draw_at_comb_position g xy "X" Blue) sensors.

(** Lines 205-225. *)
Definition draw_markers {np : Numpy} (draw_arrows : bool) (g : Geometry)
  (sides : list SideView) (sensors : list (R * R)) : list Glyph * option Exn :=
  match draw_sides draw_arrows g 0 sides with
  | (glyphs, Some e) => (glyphs, Some e)
  | (glyphs, None) => (glyphs ++ draw_sensors g sensors, None)
  end.

(** The camera has an open dance with at least one position. *)
Definition has_open_position (side : SideView) : bool :=
  existsb (fun d => negb (Nat.eqb (length d) 0)) (sv_dances side).

(** The number of positions of the open dances of the cameras. *)
Definition open_positions (sides : list SideView) : nat :=
  list_sum (map (fun s => list_sum (map (@length _) (sv_dances s))) sides).

(** A point of comb space inside the comb rectangle. *)
Definition in_comb (g : Geometry) (xy : R * R) : Prop :=
  (hx0 g <= fst xy <= hx0 g + hwidth g)%R
  /\ (hy0 g <= snd xy <= hy0 g + hheight g)%R.

(** A glyph inside the outline, borders included; the outline lies
    between the rows [ctop] and [cbottom] whichever of them is the upper
    one. *)
Definition in_outline (g : Geometry) (p : Glyph) : Prop :=
  Z.min (cleft g) (cleft g + cwidth g) <= g_x p
    <= Z.max (cleft g) (cleft g + cwidth g)
  /\ Z.min (ctop g) (ctop g + cheight g) <= g_y p
     <= Z.max (ctop g) (ctop g + cheight g).

(** [on_surface], decided. *)
Definition on_surfaceb (screen_height : Z) (p : PrintAt) : bool :=
  (0 <=? pa_y p) && (pa_y p <? screen_height).

(** The side [HiveSide(cam_id=k, ...)] built from [camera_config]. *)
Definition new_side (env : Startup) (azimuth : R * R) (k : string)
  (camera_config : CameraConfig) : option HiveSide :=
  option_map
    (fun mapper => {| hs_cam_id := k; dance_detector := new_detector env k;
                      comb_mapper := mapper |})
    (new_mapper env camera_config azimuth).

(** Every key of the dictionary is the [cam_id] of its side. *)
Definition keyed_by_cam_id (cams : list (string * HiveSide)) : Prop :=
  forall k side, In (k, side) cams -> hs_cam_id side = k.

(** ** Notions about the record of calls *)

Definition closes_of (cs : list Call) : list Resource :=
  flat_map (fun c => match c with Close r => [r] | _ => [] end) cs.

Definition sends_of (cs : list Call) : list CombTriggerActuatorMessage :=
  flat_map (fun c => match c with SendMessage m => [m] | _ => [] end) cs.

(** Every [send_message] comes before every [close]. *)
Definition sends_precede_closes (b : Bridge) : Prop :=
  exists before after,
    calls b = before ++ after
    /\ closes_of before = [] /\ sends_of after = [].

(** Number of calls of [Screen.open()]. *)
Definition screen_opens (b : Bridge) : nat :=
  length
    (flat_map (fun c => match c with ScreenOpen => [tt] | _ => [] end)
       (calls b)).

(** The text of a call [statistics.log("log", text=x)]. *)
Definition log_event_text (c : Call) : list Text :=
  match c with
  | StatLog event (Some x) => if String.eqb event "log" then [x] else []
  | _ => []
  end.

(** The texts the statistics sink has received as ["log"] events. *)
Definition logged_texts (b : Bridge) : list Text :=
  flat_map log_event_text (calls b).

(** The texts the statistics sink has received at all. *)
Definition sink_texts (b : Bridge) : list Text :=
  flat_map
    (fun c => match c with StatLog _ (Some x) => [x] | _ => [] end) (calls b).

(** Number of calls on the statistics sink, [close] apart. *)
Definition statistics_calls (b : Bridge) : nat :=
  length
    (flat_map (fun c => match c with StatLog _ _ => [tt] | _ => [] end)
       (calls b)).

(** The calls that neither send, close, log nor open: keyboard, frame,
    queue and standard output. *)
Definition passive (c : Call) : bool :=
  match c with
  | GetKey | Refresh _ | GetMessage | Stdout _ => true
  | _ => false
  end.

(** A pass in which nothing happens: no key, no failure, no stop request,
    and the wait times out. *)
Definition idle_tick (t : Tick) : Prop :=
  is_quit (key t) = false /\ draw_fails t = false
  /\ stop_request t = false /\ message t = RecvNothing.

(** ** More samples *)

Module SampleView.

(** Arithmetic that never rounds, and a platform that answers the least
    [int32] where the conversion is invalid. *)
Definition unrounded : Numpy :=
  {| float32 := fun x => x; int32_of_invalid := fun _ => - 2 ^ 31 |}.

(** The numbers of an 80 column screen and the comb from (0, 0) to (4, 2):
    columns 8 to 72, rows 5 to 32. *)
Definition geometry : Geometry :=
  {| hx0 := 0; hy0 := 0; hwidth := 4; hheight := 2;
     cleft := 8; ctop := 5; cwidth := 64; cheight := 27 |}.

(** The numbers of an 80 column screen and the comb from (0, 0) to
    (64, 1): the bottom row, 1, lies above the top row, 5. *)
Definition flat_geometry : Geometry :=
  {| hx0 := 0; hy0 := 0; hwidth := 64; hheight := 1;
     cleft := 8; ctop := 5; cwidth := 64; cheight := -4 |}.

(** A dance of three positions, the last one with an orientation. *)
Definition dance : DancePositions :=
  [ ((1%R, 1%R), None); ((2%R, 1%R), None); ((3%R, 1%R), Some PI) ].

Definition side : SideView :=
  {| sv_dances := [dance]; sv_to_comb := fun x y => (x, y) |}.

End SampleView.

Module SampleStartup.

(** A mapper whose comb is as wide as the calibration says. *)
Definition mapper_of (c : CameraConfig) : CombMapper :=
  {| map_to_comb := fun _ _ _ =>
       MappedTo (0%R, 0%R) (Some (Py.Finite 0, Py.Finite 0))
         (Some (2, Py.Finite 0));
     get_comb_rectangle := (0%R, 0%R, INR (cfg_calibration c), 2%R) |}.

Definition camera (k : string) (calibration : nat) : CameraConfig :=
  {| cfg_cam_id := Some k; cfg_calibration := calibration |}.

(** A document with the given cameras. *)
Definition document (configs : list CameraConfig) : Config :=
  {| cfg_latitude := Some 52%R; cfg_longitude := Some 13%R;
     cfg_cameras := Some configs |}.

(** Every constructor succeeds; the file holds [configs]. *)
Definition env (configs : list CameraConfig) : Startup :=
  {| open_statistics := fun f => Some {| filename := f |};
     load_config := fun _ => Some (document configs);
     new_azimuth := fun _ _ => true;
     new_detector := fun _ _ => [];
     new_mapper := fun c _ => Some (mapper_of c);
     get_actuator_count := fun _ => 16;
     open_listener := true;
     open_connector := fun _ => true |}.

(** Camera "cam1" is configured twice. *)
Definition twice : list CameraConfig :=
  [camera "cam1" 4; camera "cam2" 4; camera "cam1" 6].

(** The dance of "cam1" arrives and the first [send_message] raises. *)
Definition send_fails_at_once : Tick :=
  {| now := "12:00:04"; key := None; draw_fails := false;
     stop_request := false; message := RecvWaggle (Sample.dance "cam1");
     send_fails := Some 0%nat |}.

(** The sample bridge with a statistics file. *)
Definition bridge_with_statistics : Bridge :=
  {| running := true; log := []; statistics := Some {| filename := "s" |};
     cameras := [("cam1", Sample.cam1)]; screen := None; calls := [] |}.

End SampleStartup.

(** * Properties *)

(** ** Python primitives *)

Module PyFacts.

Lemma floor_bounds (x : R) : (IZR (Py.floor x) <= x < IZR (Py.floor x) + 1)%R.
Proof.
  unfold Py.floor. destruct (base_Int_part x) as [H1 H2]. split; lra.
Qed.

Lemma floor_unique (x : R) (z : Z) :
  (IZR z <= x < IZR z + 1)%R -> Py.floor x = z.
Proof.
  intros [H1 H2]. unfold Py.floor. symmetry. apply Int_part_spec. split; lra.
Qed.

Lemma int_nonneg (x : R) : (0 <= x)%R -> Py.int x = Py.floor x.
Proof.
  intros H. unfold Py.int.
  destruct (Rle_dec 0 x); [reflexivity | contradiction].
Qed.

Lemma fmod_range (x y : R) : (0 < y)%R -> (0 <= Py.fmod x y < y)%R.
Proof.
  intros Hy. unfold Py.fmod.
  destruct (floor_bounds (x / y)) as [H1 H2].
  assert (Hx : (x = x / y * y)%R) by (field; lra).
  split.
  - apply Rmult_le_compat_r with (r := y) in H1; lra.
  - apply Rmult_lt_compat_r with (r := y) in H2; lra.
Qed.

Lemma fmod_shift (x y : R) (k : Z) :
  (0 < y)%R -> (IZR k * y <= x < (IZR k + 1) * y)%R ->
  Py.fmod x y = (x - IZR k * y)%R.
Proof.
  intros Hy [H1 H2]. unfold Py.fmod.
  rewrite (floor_unique (x / y) k); [reflexivity |].
  split.
  - apply Rmult_le_reg_r with (r := y); [assumption |].
    replace (x / y * y)%R with x by (field; lra). assumption.
  - apply Rmult_lt_reg_r with (r := y); [assumption |].
    replace (x / y * y)%R with x by (field; lra). assumption.
Qed.

Lemma index_nonneg {A : Type} (l : list A) (i : Z) :
  0 <= i -> Py.index l i = nth_error l (Z.to_nat i).
Proof.
  intros H. unfold Py.index. destruct (Z.leb_spec 0 i); [reflexivity | lia].
Qed.

Lemma last_slice_length {A : Type} (k : nat) (l : list A) :
  length (Py.last_slice k l) = Nat.min (length l) k.
Proof. unfold Py.last_slice. rewrite length_skipn. lia. Qed.

Lemma last_slice_suffix {A : Type} (k : nat) (l : list A) :
  firstn (length l - k) l ++ Py.last_slice k l = l.
Proof. apply firstn_skipn. Qed.

End PyFacts.

(** ** Direction labels *)

Section DirectionFacts.

Lemma two_pi_pos : (0 < 2 * PI)%R.
Proof. pose proof PI_RGT_0. lra. Qed.

Lemma normalized_angle_range (w : R) :
  (0 <= normalized_angle w < 2 * PI)%R.
Proof. apply PyFacts.fmod_range, two_pi_pos. Qed.

Lemma normalized_angle_id (w : R) :
  (0 <= w < 2 * PI)%R -> normalized_angle w = w.
Proof.
  intros [H0 H1]. unfold normalized_angle.
  rewrite (PyFacts.fmod_shift _ _ 1); [lra | exact two_pi_pos | lra].
Qed.

Lemma normalized_angle_negative (w : R) :
  (- (2 * PI) <= w < 0)%R -> normalized_angle w = (2 * PI + w)%R.
Proof.
  intros [H0 H1]. unfold normalized_angle.
  rewrite (PyFacts.fmod_shift _ _ 0); [lra | exact two_pi_pos | lra].
Qed.

(** The index is the number of whole eighths of [PI] in the angle. *)
Lemma direction_index_floor (w : R) :
  direction_index w = Py.floor (normalized_angle w * 8 / PI).
Proof.
  unfold direction_index.
  change (IZR (Z.of_nat (length world_directions))) with 16%R.
  pose proof PI_RGT_0 as Hpi.
  destruct (normalized_angle_range w) as [H0 H1].
  set (a := normalized_angle w) in *.
  replace (a / PI * 180 / (360 / 16))%R with (a * 8 / PI)%R by (field; lra).
  apply PyFacts.int_nonneg.
  apply Rmult_le_reg_r with (r := (PI / 8)%R); [lra |].
  replace (a * 8 / PI * (PI / 8))%R with a by (field; lra). lra.
Qed.

Lemma direction_index_bounds (w : R) :
  (IZR (direction_index w) * (PI / 8) <= normalized_angle w
   < (IZR (direction_index w) + 1) * (PI / 8))%R.
Proof.
  rewrite direction_index_floor.
  pose proof PI_RGT_0 as Hpi.
  set (a := normalized_angle w).
  destruct (PyFacts.floor_bounds (a * 8 / PI)) as [F0 F1].
  set (k := IZR (Py.floor (a * 8 / PI))) in *.
  assert (Ha : (a = a * 8 / PI * (PI / 8))%R) by (field; lra).
  split.
  - rewrite Ha at 1. apply Rmult_le_compat_r; lra.
  - rewrite Ha at 1. apply Rmult_lt_compat_r; lra.
Qed.

Lemma direction_index_bucket (w : R) (k : Z) :
  (IZR k * (PI / 8) <= normalized_angle w < (IZR k + 1) * (PI / 8))%R ->
  direction_index w = k.
Proof.
  intros [H0 H1]. rewrite direction_index_floor.
  pose proof PI_RGT_0 as Hpi.
  set (a := normalized_angle w) in *.
  apply PyFacts.floor_unique. split.
  - apply Rmult_le_reg_r with (r := (PI / 8)%R); [lra |].
    replace (a * 8 / PI * (PI / 8))%R with a by (field; lra). exact H0.
  - apply Rmult_lt_reg_r with (r := (PI / 8)%R); [lra |].
    replace (a * 8 / PI * (PI / 8))%R with a by (field; lra). exact H1.
Qed.

Lemma direction_index_range (w : R) : 0 <= direction_index w < 16.
Proof.
  pose proof PI_RGT_0 as Hpi.
  destruct (normalized_angle_range w) as [H0 H1].
  destruct (direction_index_bounds w) as [B0 B1].
  set (k := direction_index w) in *.
  split.
  - apply Z.lt_succ_r. apply lt_IZR. rewrite succ_IZR. nra.
  - apply lt_IZR. nra.
Qed.

(** The list access never raises [IndexError]. *)
Lemma world_direction_total (w : R) :
  exists label, world_direction w = Some label
    /\ nth_error world_directions (Z.to_nat (direction_index w)) = Some label.
Proof.
  destruct (direction_index_range w) as [H0 H1].
  unfold world_direction. rewrite PyFacts.index_nonneg by exact H0.
  destruct (nth_error world_directions (Z.to_nat (direction_index w)))
    as [label |] eqn:E.
  - exists label. split; reflexivity.
  - apply nth_error_None in E. simpl in E. lia.
Qed.

Lemma bucket_label_counterclockwise (k : Z) (label : string) :
  0 <= k < 16 ->
  nth_error world_directions (Z.to_nat k) = Some label ->
  counterclockwise_from_east k label.
Proof.
  intros Hk Hn. unfold counterclockwise_from_east.
  assert (Hc : k = 0 \/ k = 1 \/ k = 2 \/ k = 3 \/ k = 4 \/ k = 5 \/ k = 6
            \/ k = 7 \/ k = 8 \/ k = 9 \/ k = 10 \/ k = 11 \/ k = 12
            \/ k = 13 \/ k = 14 \/ k = 15) by lia.
  repeat (destruct Hc as [-> | Hc]);
    try subst k; simpl in Hn; injection Hn as <-; reflexivity.
Qed.

Lemma world_directions_NoDup : NoDup world_directions.
Proof.
  unfold world_directions.
  repeat (constructor; [simpl; intuition discriminate |]). constructor.
Qed.

Lemma world_direction_of_bucket (w : R) (k : Z) (label : string) :
  (IZR k * (PI / 8) <= normalized_angle w < (IZR k + 1) * (PI / 8))%R ->
  Py.index world_directions k = Some label ->
  world_direction w = Some label.
Proof.
  intros Hb Hl. unfold world_direction.
  rewrite (direction_index_bucket w k Hb). exact Hl.
Qed.

End DirectionFacts.

Lemma in_sector_range (k : Z) (v : R) :
  0 <= k < 16 -> in_sector k v ->
  (0 < v < 2 * PI)%R
  /\ (IZR k * (PI / 8) <= v < (IZR k + 1) * (PI / 8))%R.
Proof.
  intros [Hk0 Hk1] [H0 H1]. pose proof PI_RGT_0 as Hpi.
  unfold sector_margin in *.
  assert (K0 : (0 <= IZR k)%R) by (apply IZR_le; exact Hk0).
  assert (K1 : (IZR k + 1 <= 16)%R).
  { rewrite <- plus_IZR. apply IZR_le. lia. }
  assert (A : (0 <= IZR k * (PI / 8))%R) by (apply Rmult_le_pos; lra).
  assert (B : ((IZR k + 1) * (PI / 8) <= 16 * (PI / 8))%R)
    by (apply Rmult_le_compat_r; lra).
  repeat split; lra.
Qed.

Lemma direction_of_sector (k : Z) (v : R) (label : string) :
  0 <= k < 16 -> in_sector k v ->
  nth_error world_directions (Z.to_nat k) = Some label ->
  direction_index v = k /\ world_direction v = Some label.
Proof.
  intros Hk Hv Hl. destruct (in_sector_range k v Hk Hv) as [Hr Hb].
  assert (Hn : (IZR k * (PI / 8) <= normalized_angle v
                < (IZR k + 1) * (PI / 8))%R).
  { rewrite normalized_angle_id by lra. exact Hb. }
  split; [apply direction_index_bucket, Hn |].
  apply (world_direction_of_bucket v k label Hn).
  rewrite PyFacts.index_nonneg by lia. exact Hl.
Qed.

Lemma normalized_angle_turn (v : R) :
  (0 <= v < 2 * PI)%R ->
  normalized_angle (v - 2 * PI) = v /\ normalized_angle (v + 2 * PI) = v.
Proof.
  intros Hv. pose proof two_pi_pos as Hp. unfold normalized_angle. split.
  - rewrite (PyFacts.fmod_shift _ _ 0); [lra | exact Hp | lra].
  - rewrite (PyFacts.fmod_shift _ _ 2); [lra | exact Hp | lra].
Qed.

Lemma world_direction_turn (v : R) :
  (0 <= v < 2 * PI)%R ->
  world_direction (v - 2 * PI) = world_direction v
  /\ world_direction (v + 2 * PI) = world_direction v.
Proof.
  intros Hv. destruct (normalized_angle_turn v Hv) as [Hm Hp].
  unfold world_direction. rewrite !direction_index_floor, Hm, Hp.
  rewrite (normalized_angle_id v Hv). split; reflexivity.
Qed.

(** C5, as it holds: every world angle in [[0, 2*PI)] selects exactly one of
    the 16 labels; angle 0 is labelled "E"; an angle inside sector [k] of
    22.5 degrees gets label [k] of the list, and the labels proceed
    counter-clockwise from east (E, NE, N, NW, W, ...); and the mapping is
    continuous at the wrap: a full turn more or less gives the same label,
    so that the angles below 0 continue sector 15 ("SEE") and those from
    [2*PI] on continue sector 0 ("E"), which are neighbours on the
    compass.  The label is stated for angles that keep [sector_margin]
    from the ends of their sector: there the rounding of the double
    arithmetic decides between the two neighbours. *)
Theorem direction_bucket_classification (w : R) :
  (0 <= w < 2 * PI)%R ->
  (exists k label,
      direction_index w = k /\ 0 <= k < 16
      /\ world_direction w = Some label
      /\ nth_error world_directions (Z.to_nat k) = Some label
      /\ (forall label', world_direction w = Some label' -> label' = label))
  /\ length world_directions = 16%nat
  /\ NoDup world_directions
  /\ world_direction 0 = Some "E"
  /\ (forall k v label,
        0 <= k < 16 -> in_sector k v ->
        nth_error world_directions (Z.to_nat k) = Some label ->
        direction_index v = k /\ world_direction v = Some label
        /\ counterclockwise_from_east k label)
  /\ (forall k v,
        0 <= k < 16 -> in_sector k v ->
        world_direction (v - 2 * PI) = world_direction v
        /\ world_direction (v + 2 * PI) = world_direction v)
  /\ (forall v, in_sector 15 v ->
        world_direction v = Some "SEE"
        /\ world_direction (v - 2 * PI) = Some "SEE")
  /\ (forall v, in_sector 0 v ->
        world_direction v = Some "E"
        /\ world_direction (v + 2 * PI) = Some "E")
  /\ counterclockwise_from_east 15 "SEE"
  /\ counterclockwise_from_east 16 "E".
Proof.
  intros Hw. pose proof PI_RGT_0 as Hpi.
  split; [| split; [reflexivity | split; [exact world_directions_NoDup |]]].
  - destruct (world_direction_total w) as (label & Hl & Hn).
    pose proof (direction_index_range w) as Hr.
    exists (direction_index w), label.
    repeat split; try assumption; try lia.
    intros label' Hl'. rewrite Hl in Hl'. injection Hl' as <-. reflexivity.
  - split; [| split; [| split; [| split; [| split; [| split; reflexivity]]]]].
    + unfold world_direction.
      rewrite (direction_index_bucket 0 0); [reflexivity |].
      rewrite normalized_angle_id by lra. lra.
    + intros k v label Hk Hv Hl.
      destruct (direction_of_sector k v label Hk Hv Hl) as [Hi Hd].
      split; [exact Hi | split; [exact Hd |]].
      apply bucket_label_counterclockwise; assumption.
    + intros k v Hk Hv. destruct (in_sector_range k v Hk Hv) as [Hr _].
      apply world_direction_turn. lra.
    + intros v Hv.
      destruct (direction_of_sector 15 v "SEE" ltac:(lia) Hv eq_refl)
        as [_ Hd].
      destruct (in_sector_range 15 v ltac:(lia) Hv) as [Hr _].
      destruct (world_direction_turn v) as [Hm _]; [lra |].
      rewrite Hm. split; exact Hd.
    + intros v Hv.
      destruct (direction_of_sector 0 v "E" ltac:(lia) Hv eq_refl)
        as [_ Hd].
      destruct (in_sector_range 0 v ltac:(lia) Hv) as [Hr _].
      destruct (world_direction_turn v) as [_ Hp]; [lra |].
      rewrite Hp. split; exact Hd.
Qed.

(** The classification at 101.25 degrees, the middle of sector 4. *)
Lemma direction_bucket_classification_witness :
  (0 <= PI / 2 + PI / 16 < 2 * PI)%R
  /\ exists k label,
      direction_index (PI / 2 + PI / 16) = k /\ 0 <= k < 16
      /\ world_direction (PI / 2 + PI / 16) = Some label
      /\ nth_error world_directions (Z.to_nat k) = Some label
      /\ (forall label',
            world_direction (PI / 2 + PI / 16) = Some label' ->
            label' = label).
Proof.
  assert (H : (0 <= PI / 2 + PI / 16 < 2 * PI)%R)
    by (pose proof PI_RGT_0; lra).
  split; [exact H |].
  exact (proj1 (direction_bucket_classification (PI / 2 + PI / 16) H)).
Defined.

(** C5 as stated fails in its "clockwise": at 101.25 degrees the code picks
    bucket 4, labelled "N"; four buckets clockwise from east lies south. *)
Lemma direction_buckets_not_clockwise :
  ~ (forall w, (0 <= w < 2 * PI)%R ->
       exists k label,
         direction_index w = k /\ world_direction w = Some label
         /\ clockwise_from_east k label).
Proof.
  intros H. pose proof PI_RGT_0 as Hpi.
  destruct (H (PI / 2 + PI / 16)%R) as (k & label & Hk & Hl & Hc); [lra |].
  assert (Hb : (IZR 4 * (PI / 8) <= normalized_angle (PI / 2 + PI / 16)
                < (IZR 4 + 1) * (PI / 8))%R).
  { rewrite normalized_angle_id by lra. lra. }
  rewrite (direction_index_bucket _ 4 Hb) in Hk. subst k.
  rewrite (world_direction_of_bucket _ 4 "N" Hb eq_refl) in Hl.
  injection Hl as <-. unfold clockwise_from_east in Hc. discriminate Hc.
Qed.

(** ** [HiveSide.process] *)

(** A step prints and yields exactly when the observation is mappable. *)
Lemma process_observation_emits (self : HiveSide) (obs : Observation) :
  mappable self obs = true ->
  exists text m,
    process_observation self obs = Emit text m
    /\ signal_index m = 1 /\ side m = 1.
Proof.
  destruct obs as [[x y] a]. unfold mappable, process_observation.
  destruct (map_to_comb (comb_mapper self) x y a)
    as [xy [[waggle [world | |]] |] [[idx distance] |] | e];
    try discriminate.
  intros _. cbn [classify].
  destruct (world_direction_total world) as (label & Hl & _).
  rewrite Hl. eexists. eexists. repeat split.
Qed.

(** Otherwise it raises, before the line and the message: [TypeError] when
    a pair is missing, [ValueError] when the world angle is no number, or
    what the mapper raised. *)
Lemma process_observation_raises (self : HiveSide) (obs : Observation) :
  mappable self obs = false ->
  exists e,
    process_observation self obs = Throw e
    /\ (let '(x, y, a) := obs in
        match map_to_comb (comb_mapper self) x y a with
        | MapRaises e' => e = e'
        | MappedTo _ (Some _) (Some _) => e = ValueError
        | MappedTo _ _ _ => e = TypeError
        end).
Proof.
  destruct obs as [[x y] a]. unfold mappable, process_observation.
  destruct (map_to_comb (comb_mapper self) x y a)
    as [xy [[waggle [world | negative |]] |] [[idx distance] |] | e];
    try discriminate; intros _; cbn [classify]; eexists; split; reflexivity.
Qed.

Lemma process_observation_fields (self : HiveSide) (obs : Observation)
  (text : Text) (m : CombTriggerActuatorMessage) :
  process_observation self obs = Emit text m ->
  mappable self obs = true /\ signal_index m = 1 /\ side m = 1.
Proof.
  intros E. destruct (mappable self obs) eqn:Hm.
  - destruct (process_observation_emits self obs Hm) as (text' & m' & E' & H).
    rewrite E in E'. injection E' as -> ->. split; [reflexivity | exact H].
  - destruct (process_observation_raises self obs Hm) as (e & E' & _).
    rewrite E in E'. discriminate.
Qed.

(** When every observation is mappable no step raises, and there are as
    many lines and messages as observations. *)
Lemma process_messages_length (self : HiveSide) (w : WaggleInfo) :
  forallb (mappable self) (dance_detector self w) = true ->
  length (messages_of (process self w)) = length (dance_detector self w)
  /\ length (texts_of (process self w)) = length (dance_detector self w)
  /\ raises (process self w) = false.
Proof.
  unfold process. induction (dance_detector self w) as [| obs rest IH].
  - repeat split.
  - cbn [forallb]. intros H. apply andb_prop in H. destruct H as [Ho Hr].
    destruct (IH Hr) as (IH1 & IH2 & IH3).
    destruct (process_observation_emits self obs Ho) as (text & m & E & _).
    simpl. rewrite E. simpl. rewrite IH1, IH2, IH3. repeat split.
Qed.

Lemma process_raises_mappable (self : HiveSide) (w : WaggleInfo) :
  raises (process self w) = false ->
  forallb (mappable self) (dance_detector self w) = true.
Proof.
  unfold process. induction (dance_detector self w) as [| obs rest IH].
  - reflexivity.
  - cbn [map raises existsb forallb]. fold (raises (map (process_observation self) rest)).
    intros H. apply orb_false_elim in H. destruct H as [Ho Hr].
    rewrite (IH Hr), andb_true_r.
    destruct (mappable self obs) eqn:Hm; [reflexivity |].
    destruct (process_observation_raises self obs Hm) as (e & E & _).
    rewrite E in Ho. discriminate.
Qed.

Lemma process_messages_fields (self : HiveSide) (w : WaggleInfo) :
  Forall (fun m => signal_index m = 1 /\ side m = 1)
         (messages_of (process self w)).
Proof.
  unfold process. induction (dance_detector self w) as [| obs rest IH].
  - constructor.
  - cbn [map messages_of flat_map]. fold (messages_of (map (process_observation self) rest)).
    destruct (process_observation self obs) as [text m | e] eqn:E.
    + destruct (process_observation_fields self obs text m E) as (_ & H).
      constructor; [exact H | exact IH].
    + exact IH.
Qed.

(** The steps a consumer sees. *)
Lemma completed_all (ys : list Yield) :
  raises ys = false -> completed ys = ys /\ first_raise ys = None.
Proof.
  induction ys as [| [text m | e] rest IH]; intros H.
  - split; reflexivity.
  - cbn in H. destruct (IH H) as [IH1 IH2]. cbn. rewrite IH1, IH2.
    split; reflexivity.
  - discriminate H.
Qed.

Lemma completed_until (before after : list Yield) (e : Exn) :
  raises before = false ->
  completed (before ++ Throw e :: after) = before
  /\ first_raise (before ++ Throw e :: after) = Some e.
Proof.
  induction before as [| [text m | e'] rest IH]; intros H.
  - split; reflexivity.
  - cbn in H. destruct (IH H) as [IH1 IH2]. cbn. rewrite IH1, IH2.
    split; reflexivity.
  - discriminate H.
Qed.

Lemma completed_lengths (ys : list Yield) :
  length (messages_of (completed ys)) = length (completed ys)
  /\ length (texts_of (completed ys)) = length (completed ys)
  /\ raises (completed ys) = false.
Proof.
  unfold messages_of, texts_of, raises.
  induction ys as [| [text m | e] rest (IH1 & IH2 & IH3)].
  - repeat split.
  - cbn [completed flat_map app length existsb orb].
    rewrite IH1, IH2. repeat split. exact IH3.
  - repeat split.
Qed.

(** C9: whatever the binding and the event, every message it yields has
    [side = 1]; two bindings never differ in it. *)
Theorem side_is_constant (self other : HiveSide) (w w' : WaggleInfo) :
  Forall (fun m => side m = 1) (messages_of (process self w))
  /\ Forall (fun m =>
       Forall (fun m' => side m = side m') (messages_of (process other w')))
       (messages_of (process self w)).
Proof.
  pose proof (process_messages_fields self w) as Hs.
  pose proof (process_messages_fields other w') as Ho.
  rewrite Forall_forall in Hs, Ho.
  split; apply Forall_forall; intros m Hm.
  - apply (Hs m Hm).
  - apply Forall_forall. intros m' Hm'.
    destruct (Hs m Hm) as [_ ->]. destruct (Ho m' Hm') as [_ ->]. reflexivity.
Qed.

(** ** The log panel *)

Lemma flat_map_shift {A : Type} (g : nat -> list A) (n : nat) :
  flat_map g (seq 1 n) = flat_map (fun i => g (S i)) (seq 0 n).
Proof.
  rewrite <- seq_shift. rewrite !flat_map_concat_map, map_map. reflexivity.
Qed.

Lemma panel_rows (lines : list LogLine) (row : Z) :
  flat_map
    (fun i =>
       match nth_error lines i with
       | Some l => [ {| pa_text := l; pa_x := 0; pa_y := row + Z.of_nat i |} ]
       | None => []
       end)
    (seq 0 (length lines))
  = rows_from row lines.
Proof.
  revert row. induction lines as [| l rest IH]; intros row.
  - reflexivity.
  - cbn [length seq flat_map nth_error rows_from app].
    rewrite Z.add_0_r. f_equal.
    rewrite flat_map_shift. rewrite <- (IH (row + 1)).
    apply flat_map_ext. intros i. cbn [nth_error].
    destruct (nth_error rest i); [| reflexivity].
    do 2 f_equal. lia.
Qed.

(** The panel is the tail of the log, one line per row from [cbottom + 2]. *)
Lemma log_panel_rows (screen_height cbottom : Z) (log : list LogLine) :
  log_panel screen_height cbottom log
  = if 0 <? screen_height - cbottom
    then rows_from (cbottom + 2)
           (Py.last_slice (Z.to_nat (screen_height - cbottom)) log)
    else [].
Proof.
  unfold log_panel. destruct (0 <? screen_height - cbottom); [| reflexivity].
  set (tail := Py.last_slice _ log).
  assert (Hlen : Nat.min (length tail) (Z.to_nat (screen_height - cbottom))
                 = length tail).
  { unfold tail. rewrite PyFacts.last_slice_length. lia. }
  rewrite Hlen. exact (panel_rows tail (cbottom + 2)).
Qed.

Lemma rows_from_texts (row : Z) (lines : list LogLine) :
  map pa_text (rows_from row lines) = lines.
Proof.
  revert row. induction lines as [| l rest IH]; intros row; simpl.
  - reflexivity.
  - rewrite IH. reflexivity.
Qed.

Lemma rows_from_app (row : Z) (l1 l2 : list LogLine) :
  rows_from row (l1 ++ l2)
  = rows_from row l1 ++ rows_from (row + Z.of_nat (length l1)) l2.
Proof.
  revert row. induction l1 as [| l rest IH]; intros row.
  - simpl. rewrite Z.add_0_r. reflexivity.
  - cbn [app rows_from length]. rewrite IH. do 3 f_equal. lia.
Qed.

(** What does hold of the panel: it carries exactly the most recent
    [min (len log) space] lines, none when no row remains. *)
Lemma log_panel_content (screen_height cbottom : Z) (log : list LogLine) :
  map pa_text (log_panel screen_height cbottom log)
  = if 0 <? screen_height - cbottom
    then Py.last_slice (Z.to_nat (screen_height - cbottom)) log
    else [].
Proof.
  rewrite log_panel_rows. destruct (0 <? screen_height - cbottom).
  - apply rows_from_texts.
  - reflexivity.
Qed.

(** C8 at its failing inputs: once the log holds as many lines as rows
    remain, the newest line is printed at row [height + 1], outside the
    surface. *)
Theorem log_panel_leaves_surface
  (screen_height cbottom : Z) (log : list LogLine) (newest : LogLine) :
  0 < screen_height - cbottom ->
  (Z.to_nat (screen_height - cbottom) <= length (log ++ [newest]))%nat ->
  exists p,
    In p (log_panel screen_height cbottom (log ++ [newest]))
    /\ pa_text p = newest
    /\ pa_y p = screen_height + 1
    /\ ~ on_surface screen_height p.
Proof.
  intros Hspace Hlen.
  exists {| pa_text := newest; pa_x := 0; pa_y := screen_height + 1 |}.
  split; [| split; [reflexivity | split; [reflexivity |]]].
  - rewrite log_panel_rows.
    destruct (Z.ltb_spec 0 (screen_height - cbottom)); [| lia].
    set (space := Z.to_nat (screen_height - cbottom)) in *.
    unfold Py.last_slice.
    rewrite length_app in *. cbn [length] in *.
    rewrite skipn_app.
    replace (length log + 1 - space - length log)%nat with 0%nat by lia.
    cbn [skipn]. rewrite rows_from_app. apply in_or_app. right.
    cbn [rows_from]. left. f_equal.
    rewrite length_skipn. lia.
  - unfold on_surface. cbn [pa_y]. lia.
Qed.

(** An 80x24 terminal whose outline ends at row 16, with eight stored
    lines: rows 18 to 25 are printed, the surface ends at row 23. *)
Lemma log_panel_leaves_surface_witness :
  exists p,
    In p (log_panel 24 16
            (map Sample.entry (seq 0 7) ++ [Sample.entry 7]))
    /\ pa_text p = Sample.entry 7
    /\ pa_y p = 24 + 1
    /\ ~ on_surface 24 p.
Proof.
  apply (log_panel_leaves_surface 24 16
           (map Sample.entry (seq 0 7)) (Sample.entry 7)).
  - reflexivity.
  - simpl. lia.
Defined.

(** ** [Bridge.stop] *)

Section StopFacts.

Variable close_fails : Resource -> bool.

Lemma with_calls_nil (b : Bridge) : with_calls [] b = b.
Proof. destruct b. unfold with_calls. cbn. rewrite app_nil_r. reflexivity. Qed.

Lemma with_calls_cons (c : Call) (cs : list Call) (b : Bridge) :
  with_calls (c :: cs) b = with_calls cs (with_call c b).
Proof.
  unfold with_calls, with_call. cbn. rewrite <- app_assoc. reflexivity.
Qed.

Lemma close_step (r : Resource) (b : Bridge) :
  close close_fails r b
  = (with_call (Close r) b,
     if close_raises close_fails r then Exc (CloseError r) else Val tt).
Proof.
  unfold close, bind, record_call.
  destruct r; cbn; try destruct (close_fails _); reflexivity.
Qed.

Lemma close_cameras_spec (cams : list (string * HiveSide)) (b : Bridge) :
  close_cameras close_fails cams b
  = (with_calls (map (fun c => Close (RCam (fst c))) cams) b, Val tt).
Proof.
  revert b. induction cams as [| [k side] rest IH]; intros b.
  - cbn. rewrite with_calls_nil. reflexivity.
  - cbn [close_cameras map fst]. unfold bind at 1. rewrite close_step.
    cbn [close_raises]. rewrite IH, with_calls_cons. reflexivity.
Qed.

Lemma attempted_cameras (cams : list (string * HiveSide)) (rest : list Resource) :
  attempted close_fails (map (fun c => RCam (fst c)) cams ++ rest)
  = map (fun c => RCam (fst c)) cams ++ attempted close_fails rest.
Proof.
  induction cams as [| c cams IH]; cbn; [reflexivity | rewrite IH; reflexivity].
Qed.

Lemma find_cameras (cams : list (string * HiveSide)) (rest : list Resource) :
  find (close_raises close_fails) (map (fun c => RCam (fst c)) cams ++ rest)
  = find (close_raises close_fails) rest.
Proof.
  induction cams as [| c cams IH]; cbn; [reflexivity | exact IH].
Qed.

Lemma bind_get {A : Type} (k : Bridge -> M A) (b : Bridge) :
  bind get k b = k b b.
Proof. reflexivity. Qed.

Lemma bind_close {A : Type} (r : Resource) (k : unit -> M A) (b : Bridge) :
  bind (close close_fails r) k b
  = if close_raises close_fails r
    then (with_call (Close r) b, Exc (CloseError r))
    else k tt (with_call (Close r) b).
Proof.
  unfold bind at 1. rewrite close_step.
  destruct (close_raises close_fails r); reflexivity.
Qed.

Lemma bind_close_cameras {A : Type} (cams : list (string * HiveSide))
  (k : unit -> M A) (b : Bridge) :
  bind (close_cameras close_fails cams) k b
  = k tt (with_calls (map (fun c => Close (RCam (fst c))) cams) b).
Proof. unfold bind at 1. rewrite close_cameras_spec. reflexivity. Qed.

Lemma bind_log_fn {A : Type} (event : string) (text : option Text)
  (k : unit -> M A) (b : Bridge) :
  bind (log_fn event text) k b
  = k tt (if is_some (statistics b)
          then with_call (StatLog event text) b else b).
Proof.
  unfold bind at 1, log_fn. rewrite bind_get.
  destruct (statistics b); reflexivity.
Qed.

Lemma bridge_eq (b b' : Bridge) :
  running b = running b' -> log b = log b' ->
  statistics b = statistics b' -> cameras b = cameras b' ->
  screen b = screen b' -> calls b = calls b' -> b = b'.
Proof. destruct b, b'. cbn. intros. congruence. Qed.

(** The last two closes, lines 125-129. *)
Lemma stop_tail (b : Bridge) :
  (b1 <- get ;;
   when (is_some (statistics b1)) (close close_fails RStatistics) ;;
   b2 <- get ;;
   when (is_some (screen b2)) (close close_fails RScreen)) b
  = let rest :=
      (if is_some (statistics b) then [RStatistics] else [])
      ++ (if is_some (screen b) then [RScreen] else []) in
    (with_calls (map Close (attempted close_fails rest)) b,
     match find (close_raises close_fails) rest with
     | Some r => Exc (CloseError r)
     | None => Val tt
     end).
Proof.
  rewrite bind_get. unfold when.
  destruct (statistics b) as [st |] eqn:Hst; cbn [is_some app].
  - rewrite bind_close. cbn [attempted find close_raises].
    destruct (close_fails RStatistics); [reflexivity |].
    rewrite bind_get. cbn [screen with_call].
    destruct (screen b) as [sc |] eqn:Hsc; cbn [is_some attempted find].
    + rewrite close_step. cbn [close_raises].
      destruct (close_fails RScreen); cbn [map];
        first [ reflexivity
              | f_equal; apply bridge_eq; cbn; rewrite <- ?app_assoc;
                reflexivity ].
    + unfold ret.
      first [ reflexivity
            | f_equal; apply bridge_eq; cbn; rewrite <- ?app_assoc;
              reflexivity ].
  - unfold bind at 1, ret. rewrite bind_get.
    destruct (screen b) as [sc |] eqn:Hsc; cbn [is_some attempted find].
    + rewrite close_step. cbn [close_raises].
      destruct (close_fails RScreen); cbn [map]; reflexivity.
    + cbn [map]. rewrite with_calls_nil. reflexivity.
Qed.

(** [stop] in closed form. *)
Lemma stop_spec (b : Bridge) :
  stop close_fails b
  = if running b
    then (with_calls (stop_calls close_fails b) (with_running false b),
          stop_outcome close_fails b)
    else (b, Val tt).
Proof.
  unfold stop. rewrite bind_get. destruct (running b) eqn:Hrun; [| reflexivity].
  unfold stop_calls, stop_outcome, stop_sequence, owned.
  cbn [app attempted find close_raises].
  rewrite bind_log_fn. unfold bind at 1, set_running.
  destruct (statistics b) as [st |] eqn:Hst; cbn [is_some app].
  all: rewrite bind_close; cbn [close_raises];
    (destruct (close_fails RWdd);
     [f_equal; apply bridge_eq; cbn; rewrite <- ?app_assoc; reflexivity |]).
  all: rewrite bind_close; cbn [close_raises];
    (destruct (close_fails RComb);
     [f_equal; apply bridge_eq; cbn; rewrite <- ?app_assoc; reflexivity |]).
  all: rewrite bind_close_cameras, attempted_cameras, find_cameras, stop_tail;
    cbv zeta; cbn [statistics screen with_calls with_call with_running];
    rewrite ?Hst; cbn [is_some app];
    f_equal; apply bridge_eq; cbn;
    rewrite ?map_app, ?map_map, <- ?app_assoc; try assumption; reflexivity.
Qed.

Lemma closed_with_calls (cs : list Call) (b : Bridge) :
  closed (with_calls cs b)
  = closed b
    ++ flat_map (fun c => match c with Close r => [r] | _ => [] end) cs.
Proof. unfold closed. cbn [calls with_calls]. apply flat_map_app. Qed.

Lemma sent_with_calls (cs : list Call) (b : Bridge) :
  sent (with_calls cs b)
  = sent b
    ++ flat_map (fun c => match c with SendMessage m => [m] | _ => [] end) cs.
Proof. unfold sent. cbn [calls with_calls]. apply flat_map_app. Qed.

Lemma closed_of_closes (rs : list Resource) :
  flat_map (fun c => match c with Close r => [r] | _ => [] end) (map Close rs)
  = rs.
Proof. induction rs as [| r rs IH]; cbn; [| rewrite IH]; reflexivity. Qed.

Lemma sent_of_closes (rs : list Resource) :
  flat_map (fun c => match c with SendMessage m => [m] | _ => [] end)
    (map Close rs)
  = [].
Proof. induction rs as [| r rs IH]; cbn; [| rewrite IH]; reflexivity. Qed.

Lemma closed_stop_calls (b : Bridge) :
  flat_map (fun c => match c with Close r => [r] | _ => [] end)
    (stop_calls close_fails b)
  = stop_sequence close_fails b.
Proof.
  unfold stop_calls. rewrite flat_map_app, closed_of_closes.
  destruct (is_some (statistics b)); reflexivity.
Qed.

Lemma sent_stop_calls (b : Bridge) :
  flat_map (fun c => match c with SendMessage m => [m] | _ => [] end)
    (stop_calls close_fails b)
  = [].
Proof.
  unfold stop_calls. rewrite flat_map_app, sent_of_closes.
  destruct (is_some (statistics b)); reflexivity.
Qed.

Lemma stop_clears_running (b : Bridge) :
  running (fst (stop close_fails b)) = false.
Proof.
  rewrite stop_spec. destruct (running b) eqn:E; [reflexivity | exact E].
Qed.

Lemma stop_when_stopped (b : Bridge) :
  running b = false -> stop close_fails b = (b, Val tt).
Proof. intros E. rewrite stop_spec, E. reflexivity. Qed.

Lemma attempted_all (rs : list Resource) :
  (forall r, In r rs -> close_raises close_fails r = false) ->
  attempted close_fails rs = rs /\ find (close_raises close_fails) rs = None.
Proof.
  induction rs as [| r rs IH]; intros H; [split; reflexivity |].
  cbn. rewrite (H r (or_introl eq_refl)).
  destruct IH as [IH1 IH2]; [intros x Hx; apply H; right; exact Hx |].
  rewrite IH1, IH2. split; reflexivity.
Qed.

Lemma attempted_until (before after : list Resource) (r : Resource) :
  (forall x, In x before -> close_raises close_fails x = false) ->
  close_raises close_fails r = true ->
  attempted close_fails (before ++ r :: after) = before ++ [r]
  /\ find (close_raises close_fails) (before ++ r :: after) = Some r.
Proof.
  intros Hb Hr. induction before as [| x before IH].
  - cbn. rewrite Hr. split; reflexivity.
  - cbn. rewrite (Hb x (or_introl eq_refl)).
    destruct IH as [IH1 IH2]; [intros y Hy; apply Hb; right; exact Hy |].
    rewrite IH1, IH2. split; reflexivity.
Qed.

End StopFacts.

(** C2, as it holds: [stop] clears the flag and then closes the listener,
    the connector, every camera, the statistics sink if present and the
    screen if opened, one after the other.  When no [close] raises each is
    closed once and [stop] returns; when one raises, that exception leaves
    [stop] and the objects after it are not closed. *)
Theorem stop_closes_in_sequence
  (close_fails : Resource -> bool) (b : Bridge) :
  running b = true ->
  running (fst (stop close_fails b)) = false
  /\ closed (fst (stop close_fails b))
     = closed b ++ stop_sequence close_fails b
  /\ ((forall r, In r (owned b) -> close_raises close_fails r = false) ->
      snd (stop close_fails b) = Val tt
      /\ stop_sequence close_fails b = owned b)
  /\ (forall before r after,
        owned b = before ++ r :: after ->
        (forall x, In x before -> close_raises close_fails x = false) ->
        close_raises close_fails r = true ->
        snd (stop close_fails b) = Exc (CloseError r)
        /\ stop_sequence close_fails b = before ++ [r]).
Proof.
  intros Hrun. rewrite stop_spec, Hrun. cbn [fst snd].
  split; [reflexivity |]. split; [| split].
  - rewrite closed_with_calls, closed_stop_calls. reflexivity.
  - intros Hall. unfold stop_outcome, stop_sequence.
    destruct (attempted_all close_fails (owned b) Hall) as [-> ->].
    split; reflexivity.
  - intros before r after Ho Hb Hr. unfold stop_outcome, stop_sequence.
    rewrite Ho.
    destruct (attempted_until close_fails before after r Hb Hr) as [-> ->].
    split; reflexivity.
Qed.

(** The sample bridge, stopped with no failing [close]. *)
Lemma stop_closes_in_sequence_witness :
  running Sample.bridge = true
  /\ closed (fst (stop Sample.no_failure Sample.bridge))
     = closed Sample.bridge ++ stop_sequence Sample.no_failure Sample.bridge.
Proof.
  split; [reflexivity |].
  exact (proj1 (proj2
           (stop_closes_in_sequence Sample.no_failure Sample.bridge eq_refl))).
Defined.

(** C2 as stated fails: when closing the listener raises, the connector of
    the sample bridge is never closed. *)
Lemma stop_closes_not_independent :
  ~ (forall close_fails b,
       running b = true ->
       forall r, In r (owned b) -> In r (closed (fst (stop close_fails b)))).
Proof.
  intros H.
  specialize (H Sample.listener_fails Sample.bridge eq_refl RComb).
  cbn in H. destruct H as [H | H]; [right; left; reflexivity | | ].
  - discriminate H.
  - exact H.
Qed.

(** ** Properties kept by every method *)

Lemma preserves_ret {A : Type} (P : Bridge -> Prop) (a : A) :
  preserves P (ret a).
Proof. intros b H. exact H. Qed.

Lemma preserves_raise {A : Type} (P : Bridge -> Prop) (e : Exn) :
  preserves P (@raise A e).
Proof. intros b H. exact H. Qed.

Lemma preserves_get (P : Bridge -> Prop) : preserves P get.
Proof. intros b H. exact H. Qed.

Lemma preserves_bind {A B : Type} (P : Bridge -> Prop)
  (m : M A) (k : A -> M B) :
  preserves P m -> (forall a, preserves P (k a)) -> preserves P (bind m k).
Proof.
  intros Hm Hk b H. unfold bind. specialize (Hm b H).
  destruct (m b) as [b' [a | e]]; cbn [fst] in *.
  - apply Hk, Hm.
  - exact Hm.
Qed.

Lemma preserves_when (P : Bridge -> Prop) (c : bool) (m : M unit) :
  preserves P m -> preserves P (when c m).
Proof. intros Hm. destruct c; [exact Hm | apply preserves_ret]. Qed.

Section Kept.

Variable terminal : Screen.
Variable close_fails : Resource -> bool.
Variable P : Bridge -> Prop.

Hypothesis P_call :
  forall c b, (forall r, c <> Close r) -> P b -> P (with_call c b).
Hypothesis P_line : forall l b, P b -> P (with_line l b).
Hypothesis P_stop : preserves P (stop close_fails).
Hypothesis P_open :
  forall b, P b -> running b = true ->
            P (with_screen (Some terminal) (with_call ScreenOpen b)).

Lemma record_call_kept (c : Call) :
  (forall r, c <> Close r) -> preserves P (record_call c).
Proof. intros Hc b H. apply P_call; assumption. Qed.

Lemma log_fn_kept (event : string) (text : option Text) :
  preserves P (log_fn event text).
Proof.
  apply preserves_bind; [apply preserves_get |]. intros b.
  destruct (statistics b).
  - apply record_call_kept. intros r; discriminate.
  - apply preserves_ret.
Qed.

Lemma print_fn_kept (time : string) (x : Text) :
  preserves P (print_fn time x).
Proof.
  apply preserves_bind; [intros b H; apply P_line, H |]. intros _.
  apply preserves_bind; [apply preserves_get |]. intros b.
  apply preserves_when, log_fn_kept.
Qed.

Lemma ui_kept (t : Tick) (scr : Screen) : preserves P (ui close_fails t scr).
Proof.
  apply preserves_bind; [apply preserves_get |]. intros b.
  destruct (cameras b) as [| [k any_side] rest]; [apply preserves_raise |].
  apply preserves_bind; [apply record_call_kept; intros r; discriminate |].
  intros _. destruct (is_quit (key t)).
  - apply preserves_bind; [exact P_stop |]. intros _.
    apply record_call_kept. intros r; discriminate.
  - destruct (draw_fails t); [apply preserves_raise |].
    destruct (comb_outline _ _) as [[[cleft cright] ctop] cbottom].
    apply preserves_bind; [apply preserves_get |]. intros b'.
    apply record_call_kept. intros r; discriminate.
Qed.

Lemma run_ui_kept (t : Tick) (b : Bridge) :
  running b = true -> P b -> P (fst (run_ui terminal close_fails t b)).
Proof.
  intros Hrun H. unfold run_ui, bind at 1, get.
  destruct (screen b) as [scr |].
  - apply ui_kept, H.
  - unfold bind at 1, record_call. unfold bind at 1, set_screen.
    apply ui_kept, P_open; assumption.
Qed.

Lemma get_message_kept (t : Tick) : preserves P (get_message close_fails t).
Proof.
  apply preserves_bind; [apply record_call_kept; intros r; discriminate |].
  intros _. apply preserves_bind; [apply preserves_when, P_stop |].
  intros _. destruct (message t);
    [apply preserves_raise | apply preserves_ret | apply preserves_ret].
Qed.

Lemma send_all_kept (time : string) (ys : list Yield) (fails : option nat) :
  preserves P (send_all time ys fails).
Proof.
  revert fails. induction ys as [| [text m | e] rest IH]; intros fails.
  - apply preserves_ret.
  - cbn [send_all]. apply preserves_bind; [apply print_fn_kept |]. intros _.
    destruct fails as [[| n] |].
    + apply preserves_raise.
    + apply preserves_bind;
        [apply record_call_kept; intros r; discriminate | intros _; apply IH].
    + apply preserves_bind;
        [apply record_call_kept; intros r; discriminate | intros _; apply IH].
  - apply preserves_raise.
Qed.

Lemma iteration_kept (t : Tick) (b : Bridge) :
  running b = true -> P b -> P (fst (iteration terminal close_fails t b)).
Proof.
  intros Hrun H. unfold iteration, bind at 1.
  pose proof (run_ui_kept t b Hrun H) as H1.
  destruct (run_ui terminal close_fails t b) as [b1 [[] | e]];
    cbn [fst] in *; [| exact H1].
  revert b1 H1. apply preserves_bind; [apply get_message_kept |].
  intros waggle_info.
  apply preserves_bind; [apply preserves_get |]. intros b2.
  destruct (negb (running b2)).
  - apply preserves_bind; [exact P_stop | intros _; apply preserves_ret].
  - destruct waggle_info as [w |]; [| apply preserves_ret].
    cbv zeta.
    apply preserves_bind; [apply preserves_when, print_fn_kept |]. intros _.
    destruct (cameras_get (cameras b2) (cam_id w)); [| apply preserves_raise].
    apply preserves_bind; [apply send_all_kept |]. intros _.
    apply preserves_ret.
Qed.

Lemma while_running_kept (ticks : list Tick) :
  preserves P (while_running terminal close_fails ticks).
Proof.
  induction ticks as [| t rest IH]; intros b H; cbn [while_running].
  - destruct (running b); exact H.
  - destruct (running b) eqn:Hrun; [| exact H].
    pose proof (iteration_kept t b Hrun H) as H1.
    destruct (iteration terminal close_fails t b) as [b1 [[|] | e]];
      cbn [fst] in *; try exact H1.
    apply IH, H1.
Qed.

Lemma run_kept (ticks : list Tick) :
  preserves P (run terminal close_fails ticks).
Proof.
  apply preserves_bind; [apply log_fn_kept |]. intros _ b H.
  pose proof (while_running_kept ticks b H) as H1.
  unfold try_finally.
  destruct (while_running terminal close_fails ticks b) as [b1 [[|] | e]];
    cbn [fst] in *.
  - pose proof (P_stop b1 H1) as H2.
    destruct (stop close_fails b1) as [b2 [[] | e]]; exact H2.
  - exact H1.
  - pose proof (P_stop b1 H1) as H2.
    destruct (stop close_fails b1) as [b2 [[] | e']]; exact H2.
Qed.

End Kept.

(** ** Later states *)

Lemma is_prefix_refl {A : Type} (l : list A) : is_prefix l l.
Proof. exists []. symmetry. apply app_nil_r. Qed.

Lemma is_prefix_trans {A : Type} (l1 l2 l3 : list A) :
  is_prefix l1 l2 -> is_prefix l2 l3 -> is_prefix l1 l3.
Proof.
  intros [r1 ->] [r2 ->]. exists (r1 ++ r2). symmetry. apply app_assoc.
Qed.

Lemma is_prefix_app {A : Type} (l r : list A) : is_prefix l (l ++ r).
Proof. exists r. reflexivity. Qed.

Lemma is_prefix_length {A : Type} (l l' : list A) :
  is_prefix l l' -> (length l <= length l')%nat.
Proof. intros [r ->]. rewrite length_app. lia. Qed.

Lemma evolves_refl (b : Bridge) : evolves b b.
Proof.
  constructor; try reflexivity; try apply is_prefix_refl. intros H; exact H.
Qed.

Lemma evolves_trans (b1 b2 b3 : Bridge) :
  evolves b1 b2 -> evolves b2 b3 -> evolves b1 b3.
Proof.
  intros [L1 C1 K1 S1 R1] [L2 C2 K2 S2 R2]. constructor.
  - eapply is_prefix_trans; eassumption.
  - eapply is_prefix_trans; eassumption.
  - congruence.
  - congruence.
  - intros H. apply R2, R1, H.
Qed.

Lemma evolves_with_calls (cs : list Call) (b : Bridge) :
  evolves b (with_calls cs b).
Proof.
  constructor; cbn; try reflexivity;
    [apply is_prefix_refl | apply is_prefix_app | intros H; exact H].
Qed.

Lemma evolves_with_call (c : Call) (b : Bridge) : evolves b (with_call c b).
Proof. exact (evolves_with_calls [c] b). Qed.

Lemma evolves_with_line (l : LogLine) (b : Bridge) : evolves b (with_line l b).
Proof.
  constructor; cbn; try reflexivity;
    [apply is_prefix_app | apply is_prefix_refl | intros H; exact H].
Qed.

Lemma evolves_with_screen (s : option Screen) (b : Bridge) :
  evolves b (with_screen s b).
Proof.
  constructor; cbn; try reflexivity;
    [apply is_prefix_refl | apply is_prefix_refl | intros H; exact H].
Qed.

Lemma evolves_stopped (b : Bridge) : evolves b (with_running false b).
Proof.
  constructor; cbn; try reflexivity;
    [apply is_prefix_refl | apply is_prefix_refl].
Qed.

Lemma stop_evolves (close_fails : Resource -> bool) (b : Bridge) :
  evolves b (fst (stop close_fails b)).
Proof.
  rewrite stop_spec. destruct (running b); cbn [fst].
  - eapply evolves_trans; [apply evolves_stopped | apply evolves_with_calls].
  - apply evolves_refl.
Qed.

Lemma run_evolves
  (terminal : Screen) (close_fails : Resource -> bool)
  (ticks : list Tick) (b : Bridge) :
  evolves b (fst (run terminal close_fails ticks b)).
Proof.
  apply (run_kept terminal close_fails (evolves b)).
  - intros c b' _ H. eapply evolves_trans; [exact H | apply evolves_with_call].
  - intros l b' H. eapply evolves_trans; [exact H | apply evolves_with_line].
  - intros b' H. eapply evolves_trans; [exact H | apply stop_evolves].
  - intros b' H _. eapply evolves_trans; [exact H |].
    eapply evolves_trans; [apply evolves_with_call | apply evolves_with_screen].
  - apply evolves_refl.
Qed.

(** C3: a second [stop] returns at once with the object as the first call
    left it: it makes no call at all, so nothing is closed again, and the
    flag, cleared by the first call, stays cleared, also through a later
    [run]. *)
Theorem stop_idempotent
  (terminal : Screen) (close_fails : Resource -> bool)
  (ticks : list Tick) (b : Bridge) :
  stop close_fails (fst (stop close_fails b))
  = (fst (stop close_fails b), Val tt)
  /\ running (fst (stop close_fails b)) = false
  /\ calls (fst (stop close_fails (fst (stop close_fails b))))
     = calls (fst (stop close_fails b))
  /\ closed (fst (stop close_fails (fst (stop close_fails b))))
     = closed (fst (stop close_fails b))
  /\ stop close_fails (with_running false b) = (with_running false b, Val tt)
  /\ running (fst (run terminal close_fails ticks
                     (fst (stop close_fails b)))) = false.
Proof.
  pose proof (stop_clears_running close_fails b) as Hoff.
  pose proof (stop_when_stopped close_fails _ Hoff) as Hagain.
  rewrite Hagain. cbn [fst].
  repeat split; try assumption; try reflexivity.
  exact (ev_running _ _ (run_evolves terminal close_fails ticks _) Hoff).
Qed.

Lemma stop_log (close_fails : Resource -> bool) (b : Bridge) :
  log (fst (stop close_fails b)) = log b.
Proof. rewrite stop_spec. destruct (running b); reflexivity. Qed.

Lemma ui_log (close_fails : Resource -> bool) (t : Tick) (scr : Screen)
  (b : Bridge) :
  log (fst (ui close_fails t scr b)) = log b.
Proof.
  apply (ui_kept close_fails (fun b' => log b' = log b)).
  - intros c b' _ H. exact H.
  - intros b' H. rewrite stop_log. exact H.
  - reflexivity.
Qed.

Lemma run_ui_log (terminal : Screen) (close_fails : Resource -> bool)
  (t : Tick) (b : Bridge) :
  log (fst (run_ui terminal close_fails t b)) = log b.
Proof.
  unfold run_ui, bind at 1, get. destruct (screen b) as [scr |].
  - apply ui_log.
  - unfold bind at 1, record_call. unfold bind at 1, set_screen.
    rewrite ui_log. reflexivity.
Qed.

Lemma print_fn_spec (time : string) (x : Text) (b : Bridge) :
  snd (print_fn time x b) = Val tt
  /\ log (fst (print_fn time x b)) = log b ++ [ {| stamp := time; line := x |} ]
  /\ running (fst (print_fn time x b)) = running b
  /\ cameras (fst (print_fn time x b)) = cameras b
  /\ statistics (fst (print_fn time x b)) = statistics b
  /\ screen (fst (print_fn time x b)) = screen b
  /\ sent (fst (print_fn time x b)) = sent b
  /\ closed (fst (print_fn time x b)) = closed b.
Proof.
  unfold print_fn, append_log, when, log_fn.
  repeat unfold bind, get, record_call, ret. cbn.
  destruct (statistics b) eqn:E; cbn; rewrite ?E.
  - unfold sent, closed. cbn. rewrite !flat_map_app. cbn.
    rewrite !app_nil_r. repeat split; exact E.
  - repeat split; exact E.
Qed.

(** C10: [print_fn] puts exactly one stamped line at the end of the log;
    [stop] and the render tick leave the log as it is; over a whole [run]
    the old log is a prefix of the new one, so no entry is removed or
    changed and the length never decreases. *)
Theorem log_is_append_only
  (terminal : Screen) (close_fails : Resource -> bool) :
  (forall time x b,
      snd (print_fn time x b) = Val tt
      /\ log (fst (print_fn time x b))
         = log b ++ [ {| stamp := time; line := x |} ])
  /\ (forall b, log (fst (stop close_fails b)) = log b)
  /\ (forall t b, log (fst (run_ui terminal close_fails t b)) = log b)
  /\ (forall time ys fails b,
        is_prefix (log b) (log (fst (send_all time ys fails b))))
  /\ (forall ticks b,
        is_prefix (log b) (log (fst (run terminal close_fails ticks b)))
        /\ (length (log b)
            <= length (log (fst (run terminal close_fails ticks b))))%nat).
Proof.
  split; [| split; [| split; [| split]]].
  - intros time x b. destruct (print_fn_spec time x b) as (H1 & H2 & _).
    split; assumption.
  - apply stop_log.
  - apply run_ui_log.
  - intros time ys fails b.
    apply (send_all_kept (fun b' => is_prefix (log b) (log b'))).
    + intros c b' _ H. exact H.
    + intros l b' H. eapply is_prefix_trans; [exact H | apply is_prefix_app].
    + apply is_prefix_refl.
  - intros ticks b.
    pose proof (ev_log _ _ (run_evolves terminal close_fails ticks b)) as H.
    split; [exact H | apply is_prefix_length, H].
Qed.

(** ** The stop sequence runs once *)

Section Shutdown.

Variable terminal : Screen.
Variable close_fails : Resource -> bool.

Lemma closed_with_call_other (c : Call) (b : Bridge) :
  (forall r, c <> Close r) -> closed (with_call c b) = closed b.
Proof.
  intros Hc. unfold closed. cbn [calls with_call]. rewrite flat_map_app.
  destruct c; cbn; try apply app_nil_r. destruct (Hc r eq_refl).
Qed.

Lemma shutdown_consistent_call (c : Call) (b : Bridge) :
  (forall r, c <> Close r) ->
  shutdown_consistent close_fails b ->
  shutdown_consistent close_fails (with_call c b).
Proof.
  intros Hc H. unfold shutdown_consistent in *.
  rewrite (closed_with_call_other c b Hc). exact H.
Qed.

Lemma shutdown_consistent_stop :
  preserves (shutdown_consistent close_fails) (stop close_fails).
Proof.
  intros b H. unfold shutdown_consistent in *. rewrite stop_spec.
  destruct (running b) eqn:E; cbn [fst]; [| rewrite E; exact H].
  rewrite closed_with_calls, closed_stop_calls.
  unfold closed at 1. cbn [calls with_running]. fold (closed b).
  rewrite H. reflexivity.
Qed.

Lemma shutdown_consistent_open (b : Bridge) :
  shutdown_consistent close_fails b -> running b = true ->
  shutdown_consistent close_fails
    (with_screen (Some terminal) (with_call ScreenOpen b)).
Proof.
  intros H Hrun. unfold shutdown_consistent in *. cbn [running with_screen with_call].
  rewrite Hrun in *. unfold closed in *. cbn [calls with_screen with_call].
  rewrite flat_map_app, H. reflexivity.
Qed.

Lemma run_shutdown_consistent (ticks : list Tick) :
  preserves (shutdown_consistent close_fails)
            (run terminal close_fails ticks).
Proof.
  apply run_kept.
  - intros c b Hc H. apply shutdown_consistent_call; assumption.
  - intros l b H. exact H.
  - exact shutdown_consistent_stop.
  - intros b H Hrun. apply shutdown_consistent_open; assumption.
Qed.

Lemma while_pending_running (ticks : list Tick) (b b' : Bridge) :
  while_running terminal close_fails ticks b = (b', Val Pending) ->
  running b' = true.
Proof.
  revert b. induction ticks as [| t rest IH]; intros b; cbn [while_running].
  - destruct (running b) eqn:E; intros H; inversion H; subst. exact E.
  - destruct (running b) eqn:E; [| discriminate].
    destruct (iteration terminal close_fails t b) as [b1 [[|] | e]];
      try discriminate.
    apply IH.
Qed.

(** How [run] ends: still looping on an exhausted script, or through the
    [finally] clause. *)
Lemma run_cases (ticks : list Tick) (b : Bridge) :
  (snd (run terminal close_fails ticks b) = Val Pending
   /\ running (fst (run terminal close_fails ticks b)) = true)
  \/ (snd (run terminal close_fails ticks b) <> Val Pending
      /\ running (fst (run terminal close_fails ticks b)) = false).
Proof.
  destruct (run terminal close_fails ticks b) as [b' r] eqn:R.
  cbn [fst snd]. unfold run, bind in R.
  assert (Hlog : exists b0, log_fn "starting execution" None b = (b0, Val tt)).
  { unfold log_fn, bind, get, record_call, ret.
    destruct (statistics b); eexists; reflexivity. }
  destruct Hlog as [b0 Hlog]. rewrite Hlog in R. unfold try_finally in R.
  destruct (while_running terminal close_fails ticks b0)
    as [b1 [[|] | e]] eqn:W.
  - right. pose proof (stop_clears_running close_fails b1) as Hoff.
    destruct (stop close_fails b1) as [b2 [[] | e]]; cbn [fst] in Hoff;
      inversion R; subst; (split; [discriminate | exact Hoff]).
  - left. inversion R; subst. split; [reflexivity |].
    apply (while_pending_running ticks b0 b' W).
  - right. pose proof (stop_clears_running close_fails b1) as Hoff.
    destruct (stop close_fails b1) as [b2 [[] | e']]; cbn [fst] in Hoff;
      inversion R; subst; (split; [discriminate | exact Hoff]).
Qed.

Lemma attempted_incl (rs : list Resource) (r : Resource) :
  In r (attempted close_fails rs) -> In r rs.
Proof.
  induction rs as [| x rs IH]; cbn; [intros [] |].
  destruct (close_raises close_fails x); cbn.
  - intros [H | []]. left; exact H.
  - intros [H | H]; [left; exact H | right; apply IH, H].
Qed.

Lemma stop_sequence_listener_once (b : Bridge) :
  count_occ Resource_eq_dec (stop_sequence close_fails b) RWdd = 1%nat.
Proof.
  unfold stop_sequence, owned. cbn [app attempted].
  assert (Hnot : forall rs,
             ~ In RWdd rs ->
             count_occ Resource_eq_dec (attempted close_fails rs) RWdd = 0%nat).
  { intros rs Hn. apply count_occ_not_In. intros H.
    apply Hn, attempted_incl, H. }
  destruct (close_raises close_fails RWdd).
  - cbn. destruct (Resource_eq_dec RWdd RWdd); [reflexivity | contradiction].
  - rewrite count_occ_cons_eq by reflexivity. f_equal.
    apply (Hnot (RComb :: _)). cbn. intros [H | H]; [discriminate |].
    repeat (apply in_app_or in H; destruct H as [H | H]).
    + apply in_map_iff in H. destruct H as (c & Hc & _). discriminate.
    + destruct (is_some (statistics b)); cbn in H;
        [destruct H as [H | []]; discriminate | contradiction].
    + destruct (is_some (screen b)); cbn in H;
        [destruct H as [H | []]; discriminate | contradiction].
Qed.

End Shutdown.

(** C4: whatever the script, a run that leaves its loop (by the flag, by
    [break] or by an exception) ends with the flag cleared and with exactly
    one stop sequence in the record of [close] calls: the listener has been
    closed once, and when no [close] raises every owned object has.  A run
    that has not left its loop has closed nothing. *)
Theorem run_stops_exactly_once
  (terminal : Screen) (close_fails : Resource -> bool)
  (ticks : list Tick) (b : Bridge) :
  shutdown_consistent close_fails b ->
  let b' := fst (run terminal close_fails ticks b) in
  (snd (run terminal close_fails ticks b) = Val Pending
   /\ running b' = true /\ closed b' = [])
  \/ (snd (run terminal close_fails ticks b) <> Val Pending
      /\ running b' = false
      /\ closed b' = stop_sequence close_fails b'
      /\ times_closed b' RWdd = 1%nat
      /\ ((forall r, In r (owned b') -> close_raises close_fails r = false) ->
          closed b' = owned b')).
Proof.
  intros H b'.
  pose proof (run_shutdown_consistent terminal close_fails ticks b H) as Hc.
  fold b' in Hc. unfold shutdown_consistent in Hc.
  destruct (run_cases terminal close_fails ticks b) as [[Hp Hr] | [Hp Hr]];
    fold b' in Hr; rewrite Hr in Hc.
  - left. repeat split; assumption.
  - right. repeat split; try assumption.
    + unfold times_closed. rewrite Hc. apply stop_sequence_listener_once.
    + intros Hall. rewrite Hc. unfold stop_sequence.
      apply (attempted_all close_fails (owned b') Hall).
Qed.

(** The sample bridge, idle for one pass and then stopped by [q]. *)
Lemma run_stops_exactly_once_witness :
  shutdown_consistent Sample.no_failure Sample.bridge
  /\ snd (run Sample.terminal Sample.no_failure [Sample.idle; Sample.quit]
            Sample.bridge) = Val Exited
  /\ closed (fst (run Sample.terminal Sample.no_failure
                    [Sample.idle; Sample.quit] Sample.bridge))
     = [RWdd; RComb; RCam "cam1"; RScreen].
Proof.
  split; [reflexivity |].
  destruct (run_stops_exactly_once Sample.terminal Sample.no_failure
              [Sample.idle; Sample.quit] Sample.bridge eq_refl)
    as [[Hp _] | (_ & _ & Hc & _)].
  - discriminate Hp.
  - split; [reflexivity | exact Hc].
Defined.

(** ** One pass of the loop *)

Section Pass.

Variable terminal : Screen.
Variable close_fails : Resource -> bool.

Lemma with_call_untouched (c : Call) (b : Bridge) :
  (forall m, c <> SendMessage m) -> (forall r, c <> Close r) ->
  untouched b (with_call c b).
Proof.
  intros Hm Hr. constructor; try reflexivity.
  - unfold sent. cbn [calls with_call]. rewrite flat_map_app.
    destruct c; cbn; try apply app_nil_r. destruct (Hm m eq_refl).
  - apply closed_with_call_other, Hr.
Qed.

Lemma with_screen_untouched (s : option Screen) (b : Bridge) :
  untouched b (with_screen s b).
Proof. constructor; reflexivity. Qed.

Lemma untouched_trans (b1 b2 b3 : Bridge) :
  untouched b1 b2 -> untouched b2 b3 -> untouched b1 b3.
Proof. intros [] []. constructor; congruence. Qed.

(** A render tick without the quit key and without a failing draw call
    returns and touches nothing but the screen. *)
Lemma run_ui_draws (t : Tick) (b : Bridge) :
  cameras b <> [] -> is_quit (key t) = false -> draw_fails t = false ->
  snd (run_ui terminal close_fails t b) = Val tt
  /\ untouched b (fst (run_ui terminal close_fails t b)).
Proof.
  intros Hcam Hq Hd. unfold run_ui, ui.
  repeat unfold bind, get, record_call, set_screen. cbv beta.
  destruct (screen b) as [scr |]; cbn [cameras with_screen with_call];
    destruct (cameras b) as [| [k any_side] rest]; try contradiction;
    rewrite Hq, Hd;
    destruct (comb_outline _ _) as [[[cleft cright] ctop] cbottom];
    cbn [fst snd]; (split; [reflexivity |]).
  - eapply untouched_trans;
      [| apply with_call_untouched; intros ?; discriminate].
    apply with_call_untouched; intros ?; discriminate.
  - eapply untouched_trans;
      [| apply with_call_untouched; intros ?; discriminate].
    eapply untouched_trans;
      [| apply with_call_untouched; intros ?; discriminate].
    eapply untouched_trans; [| apply with_screen_untouched].
    apply with_call_untouched; intros ?; discriminate.
Qed.

Lemma get_message_waits (t : Tick) (w : WaggleInfo) (b : Bridge) :
  stop_request t = false -> message t = RecvWaggle w ->
  snd (get_message close_fails t b) = Val (Some w)
  /\ untouched b (fst (get_message close_fails t b)).
Proof.
  intros Hs Hm. unfold get_message, when.
  repeat unfold bind, record_call, ret. rewrite Hs, Hm. cbn [fst snd].
  split; [reflexivity |]. apply with_call_untouched; intros ?; discriminate.
Qed.

Lemma send_all_emit (time : string) (text : Text)
  (m : CombTriggerActuatorMessage) (rest : list Yield) (b : Bridge) :
  send_all time (Emit text m :: rest) None b
  = send_all time rest None
      (with_call (SendMessage m) (fst (print_fn time text b))).
Proof.
  cbn [send_all]. unfold bind, record_call.
  destruct (print_fn_spec time text b) as (P1 & _).
  destruct (print_fn time text b) as [b1 r1]. cbn [fst snd] in *.
  subst r1. reflexivity.
Qed.

(** A generator that is consumed to its end with no failing send: its
    lines are printed and its messages sent, in order. *)
Lemma send_all_spec (time : string) (ys : list Yield) (b : Bridge) :
  raises ys = false ->
  snd (send_all time ys None b) = Val tt
  /\ sent (fst (send_all time ys None b)) = sent b ++ messages_of ys
  /\ log (fst (send_all time ys None b))
     = log b ++ map (fun x => {| stamp := time; line := x |}) (texts_of ys)
  /\ running (fst (send_all time ys None b)) = running b
  /\ closed (fst (send_all time ys None b)) = closed b.
Proof.
  revert b. induction ys as [| [text m | e] rest IH]; intros b Hr.
  - cbn. rewrite !app_nil_r. repeat split.
  - rewrite send_all_emit.
    cbn [messages_of texts_of flat_map map app].
    fold (messages_of rest) (texts_of rest).
    cbn [raises existsb orb] in Hr.
    destruct (print_fn_spec time text b)
      as (P1 & P2 & P3 & P4 & P5 & P6 & P7 & P8).
    set (b1 := fst (print_fn time text b)) in *.
    destruct (IH (with_call (SendMessage m) b1) Hr)
      as (I1 & I2 & I3 & I4 & I5).
    rewrite I1, I2, I3, I4, I5. cbn [log running with_call].
    rewrite P2, P3. rewrite closed_with_call_other by (intros ?; discriminate).
    rewrite P8. unfold sent at 1. cbn [calls with_call].
    rewrite flat_map_app. fold (sent b1). rewrite P7. cbn.
    rewrite <- !app_assoc. repeat split.
  - discriminate Hr.
Qed.

(** A generator consumed with no failing send, whatever its steps: the
    lines and messages of the steps before the first one that raises, and
    the exception of that one. *)
Lemma send_all_consumes (time : string) (ys : list Yield) (b : Bridge) :
  snd (send_all time ys None b)
  = match first_raise ys with
    | Some e => Exc e
    | None => Val tt
    end
  /\ sent (fst (send_all time ys None b))
     = sent b ++ messages_of (completed ys)
  /\ log (fst (send_all time ys None b))
     = log b ++ map (fun x => {| stamp := time; line := x |})
                    (texts_of (completed ys))
  /\ running (fst (send_all time ys None b)) = running b
  /\ closed (fst (send_all time ys None b)) = closed b.
Proof.
  revert b. induction ys as [| [text m | e] rest IH]; intros b.
  - cbn. rewrite !app_nil_r. repeat split.
  - rewrite send_all_emit.
    cbn [completed first_raise messages_of texts_of flat_map map app].
    fold (messages_of (completed rest)) (texts_of (completed rest)).
    destruct (print_fn_spec time text b)
      as (P1 & P2 & P3 & P4 & P5 & P6 & P7 & P8).
    set (b1 := fst (print_fn time text b)) in *.
    destruct (IH (with_call (SendMessage m) b1))
      as (I1 & I2 & I3 & I4 & I5).
    rewrite I1, I2, I3, I4, I5. cbn [log running with_call].
    rewrite P2, P3. rewrite closed_with_call_other by (intros ?; discriminate).
    rewrite P8. unfold sent at 1. cbn [calls with_call].
    rewrite flat_map_app. fold (sent b1). rewrite P7. cbn.
    rewrite <- !app_assoc. repeat split.
  - cbn. rewrite !app_nil_r. repeat split.
Qed.

Lemma cameras_get_mem (cams : list (string * HiveSide)) (k : string) :
  cameras_mem cams k = is_some (cameras_get cams k).
Proof. unfold cameras_mem. destruct (cameras_get cams k); reflexivity. Qed.

Lemma cameras_get_nonempty (cams : list (string * HiveSide)) (k : string)
  (cam : HiveSide) :
  cameras_get cams k = Some cam -> cams <> [].
Proof. destruct cams; [discriminate | intros _; discriminate]. Qed.

End Pass.

Section Dispatch.

Variable terminal : Screen.
Variable close_fails : Resource -> bool.

Lemma iteration_routes (t : Tick) (w : WaggleInfo) (b : Bridge) :
  running b = true -> cameras b <> [] ->
  is_quit (key t) = false -> draw_fails t = false ->
  stop_request t = false -> message t = RecvWaggle w ->
  exists b2,
    untouched b b2 /\ iteration terminal close_fails t b = route t w b2.
Proof.
  intros Hrun Hcam Hq Hd Hs Hm. unfold iteration.
  destruct (run_ui_draws terminal close_fails t b Hcam Hq Hd) as [U1 U2].
  unfold bind at 1.
  destruct (run_ui terminal close_fails t b) as [b1 r1].
  cbn [fst snd] in *. subst r1.
  destruct (get_message_waits close_fails t w b1 Hs Hm) as [G1 G2].
  unfold bind at 1.
  destruct (get_message close_fails t b1) as [b2 r2].
  cbn [fst snd] in *. subst r2.
  pose proof (untouched_trans _ _ _ U2 G2) as U.
  exists b2. split; [exact U |].
  unfold route. unfold bind at 1 3, get.
  rewrite (un_running _ _ U), Hrun. reflexivity.
Qed.

Lemma route_unknown (t : Tick) (w : WaggleInfo) (b : Bridge) :
  cameras_get (cameras b) (cam_id w) = None ->
  route t w b = (fst (print_fn (now t) InvalidCamera b),
                 Exc (KeyError (cam_id w))).
Proof.
  intros Hc. unfold route, bind at 1, get.
  rewrite cameras_get_mem, Hc. cbn [is_some negb when].
  unfold bind, raise.
  destruct (print_fn_spec (now t) InvalidCamera b) as (P1 & _).
  destruct (print_fn (now t) InvalidCamera b) as [b1 r1].
  cbn [fst snd] in *. subst r1. reflexivity.
Qed.

Lemma route_known (t : Tick) (w : WaggleInfo) (cam : HiveSide) (b : Bridge) :
  cameras_get (cameras b) (cam_id w) = Some cam ->
  send_fails t = None ->
  raises (process cam w) = false ->
  route t w b
  = (fst (send_all (now t) (process cam w) None b), Val Continue).
Proof.
  intros Hc Hf Hr. unfold route, bind at 1, get.
  rewrite cameras_get_mem, Hc, Hf. cbn [is_some negb when].
  unfold bind, ret.
  destruct (send_all_spec (now t) (process cam w) b Hr) as (S1 & _).
  destruct (send_all (now t) (process cam w) None b) as [b1 r1].
  cbn [fst snd] in *. subst r1. reflexivity.
Qed.

Lemma stop_sent (b : Bridge) : sent (fst (stop close_fails b)) = sent b.
Proof.
  rewrite stop_spec. destruct (running b); cbn [fst]; [| reflexivity].
  rewrite sent_with_calls, sent_stop_calls. apply app_nil_r.
Qed.

Lemma log_fn_untouched (event : string) (text : option Text) (b : Bridge) :
  snd (log_fn event text b) = Val tt
  /\ untouched b (fst (log_fn event text b))
  /\ screen (fst (log_fn event text b)) = screen b.
Proof.
  unfold log_fn, bind, get, record_call, ret.
  destruct (statistics b); cbn [fst snd].
  - split; [reflexivity | split; [| reflexivity]].
    apply with_call_untouched; intros ?; discriminate.
  - split; [reflexivity | split; [| reflexivity]]. constructor; reflexivity.
Qed.

(** [run] when the first pass raises. *)
Lemma run_first_pass_raises (t : Tick) (rest : list Tick) (b b0 b1 : Bridge)
  (e : Exn) :
  log_fn "starting execution" None b = (b0, Val tt) ->
  running b0 = true ->
  iteration terminal close_fails t b0 = (b1, Exc e) ->
  fst (run terminal close_fails (t :: rest) b) = fst (stop close_fails b1)
  /\ exists e', snd (run terminal close_fails (t :: rest) b) = Exc e'.
Proof.
  intros Hl Hrun Hi. unfold run, bind. rewrite Hl.
  unfold try_finally. cbn [while_running]. rewrite Hrun, Hi.
  destruct (stop close_fails b1) as [b2 [[] | e']]; cbn [fst snd];
    (split; [reflexivity | eexists; reflexivity]).
Qed.

End Dispatch.

(** C1 at its failing inputs: an event of a camera that is not configured
    makes the pass print the one diagnostic line and send nothing, and then
    raise [KeyError]; [run] ends there with an exception, after its
    [finally] clause has stopped the bridge, and the rest of the script is
    never reached. *)
Theorem unknown_camera_ends_the_loop
  (terminal : Screen) (close_fails : Resource -> bool)
  (t : Tick) (rest : list Tick) (w : WaggleInfo) (b : Bridge) :
  running b = true -> cameras b <> [] ->
  is_quit (key t) = false -> draw_fails t = false ->
  stop_request t = false -> message t = RecvWaggle w ->
  cameras_get (cameras b) (cam_id w) = None ->
  snd (iteration terminal close_fails t b) = Exc (KeyError (cam_id w))
  /\ sent (fst (iteration terminal close_fails t b)) = sent b
  /\ log (fst (iteration terminal close_fails t b))
     = log b ++ [ {| stamp := now t; line := InvalidCamera |} ]
  /\ (exists e, snd (run terminal close_fails (t :: rest) b) = Exc e)
  /\ running (fst (run terminal close_fails (t :: rest) b)) = false
  /\ sent (fst (run terminal close_fails (t :: rest) b)) = sent b.
Proof.
  intros Hrun Hcam Hq Hd Hs Hm Hc.
  assert (Pass : forall b0,
             running b0 = true -> cameras b0 = cameras b ->
             exists b1,
               iteration terminal close_fails t b0
               = (b1, Exc (KeyError (cam_id w)))
               /\ sent b1 = sent b0
               /\ log b1
                  = log b0 ++ [ {| stamp := now t; line := InvalidCamera |} ]).
  { intros b0 Hrun0 Hcam0.
    destruct (iteration_routes terminal close_fails t w b0)
      as (b2 & U & ->); try assumption; [rewrite Hcam0; exact Hcam |].
    rewrite route_unknown
      by (rewrite (un_cameras _ _ U), Hcam0; exact Hc).
    destruct (print_fn_spec (now t) InvalidCamera b2)
      as (_ & P2 & _ & _ & _ & _ & P7 & _).
    eexists. split; [reflexivity |].
    rewrite P7, P2, (un_sent _ _ U), (un_log _ _ U). split; reflexivity. }
  destruct (Pass b Hrun eq_refl) as (b1 & -> & Hs1 & Hl1). cbn [fst snd].
  split; [reflexivity | split; [exact Hs1 | split; [exact Hl1 |]]].
  destruct (log_fn_untouched "starting execution" None b) as (L1 & L2 & _).
  destruct (log_fn "starting execution" None b) as [b0 r0] eqn:Hl.
  cbn [fst snd] in *. subst r0.
  destruct (Pass b0) as (b1' & Hi & Hs1' & _);
    [rewrite (un_running _ _ L2); exact Hrun | exact (un_cameras _ _ L2) |].
  destruct (run_first_pass_raises terminal close_fails t rest b b0 b1' _
              Hl (eq_trans (un_running _ _ L2) Hrun) Hi) as [-> He].
  split; [exact He |]. split; [apply stop_clears_running |].
  rewrite stop_sent, Hs1'. exact (un_sent _ _ L2).
Qed.

(** The sample bridge receives a dance of camera "camX". *)
Lemma unknown_camera_ends_the_loop_witness :
  snd (iteration Sample.terminal Sample.no_failure (Sample.waggle "camX")
         Sample.bridge)
  = Exc (KeyError "camX")
  /\ exists e,
       snd (run Sample.terminal Sample.no_failure
              [Sample.waggle "camX"; Sample.idle] Sample.bridge) = Exc e.
Proof.
  destruct (unknown_camera_ends_the_loop Sample.terminal Sample.no_failure
              (Sample.waggle "camX") [Sample.idle] (Sample.dance "camX")
              Sample.bridge)
    as (H1 & _ & _ & H4 & _); try reflexivity.
  - discriminate.
  - split; [exact H1 | exact H4].
Defined.

(** C6, as it holds: the generator has one step per observation of the
    detector.  The step of an observation for which the mapper answers
    both pairs and a world angle that is a number prints one line and
    yields one message with [signal_index = 1]; the step of any other
    observation raises before its line and its message: [TypeError] when
    a pair is missing, [ValueError] when the world angle is no number, or
    what the mapper raised.  A consumer gets
    the lines and messages of the steps before the first one that raises,
    and then its exception; when every observation is mappable these are
    as many as there are observations. *)
Theorem one_line_and_one_command_per_observation
  (self : HiveSide) (waggle_info : WaggleInfo) (time : string) (b : Bridge) :
  let observations := dance_detector self waggle_info in
  let steps := process self waggle_info in
  let b' := fst (send_all time steps None b) in
  length steps = length observations
  /\ Forall2
       (fun obs y =>
          if mappable self obs
          then exists text m, y = Emit text m /\ signal_index m = 1
          else exists e, y = Throw e)
       observations steps
  /\ snd (send_all time steps None b)
     = match first_raise steps with
       | Some e => Exc e
       | None => Val tt
       end
  /\ sent b' = sent b ++ messages_of (completed steps)
  /\ log b' = log b ++ map (fun x => {| stamp := time; line := x |})
                           (texts_of (completed steps))
  /\ length (messages_of (completed steps)) = length (completed steps)
  /\ length (texts_of (completed steps)) = length (completed steps)
  /\ (forall obs,
        mappable self obs = false ->
        exists e,
          process_observation self obs = Throw e
          /\ (let '(x, y, a) := obs in
              match map_to_comb (comb_mapper self) x y a with
              | MapRaises e' => e = e'
              | MappedTo _ (Some _) (Some _) => e = ValueError
              | MappedTo _ _ _ => e = TypeError
              end))
  /\ (forallb (mappable self) observations = true ->
      completed steps = steps
      /\ snd (send_all time steps None b) = Val tt
      /\ length (sent b') = (length (sent b) + length observations)%nat
      /\ length (log b') = (length (log b) + length observations)%nat)
  /\ (forall before obs after,
        observations = before ++ obs :: after ->
        forallb (mappable self) before = true ->
        mappable self obs = false ->
        length (completed steps) = length before
        /\ (exists e, snd (send_all time steps None b) = Exc e)
        /\ length (sent b') = (length (sent b) + length before)%nat
        /\ length (log b') = (length (log b) + length before)%nat).
Proof.
  intros observations steps b'.
  destruct (send_all_consumes time steps b) as (S1 & S2 & S3 & _).
  destruct (completed_lengths steps) as (C1 & C2 & _).
  fold b' in S2, S3.
  assert (Each : forall l,
             Forall2
               (fun obs y =>
                  if mappable self obs
                  then exists text m, y = Emit text m /\ signal_index m = 1
                  else exists e, y = Throw e)
               l (map (process_observation self) l)).
  { induction l as [| obs l IH]; [constructor |].
    cbn [map]. constructor; [| exact IH].
    destruct (mappable self obs) eqn:Hm.
    - destruct (process_observation_emits self obs Hm)
        as (text & m & E & Hs & _).
      exists text, m. split; assumption.
    - destruct (process_observation_raises self obs Hm) as (e & E & _).
      exists e. exact E. }
  assert (Raised : forall l,
             forallb (mappable self) l = true ->
             raises (map (process_observation self) l) = false).
  { induction l as [| obs l IH]; [reflexivity |].
    cbn [forallb map raises existsb]. intros H.
    apply andb_prop in H. destruct H as [Ho Hl].
    destruct (process_observation_emits self obs Ho) as (text & m & E & _).
    rewrite E. cbn [orb]. exact (IH Hl). }
  split; [apply length_map |].
  split; [apply Each |].
  split; [exact S1 |]. split; [exact S2 |]. split; [exact S3 |].
  split; [exact C1 |]. split; [exact C2 |].
  split; [exact (process_observation_raises self) |]. split.
  - intros Hall.
    destruct (completed_all steps (Raised observations Hall)) as [E1 E2].
    rewrite S1, S2, S3, E1, E2.
    destruct (process_messages_length self waggle_info Hall) as (Hm & Ht & _).
    fold steps observations in Hm, Ht.
    rewrite !length_app, length_map, Hm, Ht. repeat split.
  - intros before obs after Hobs Hb Ho.
    destruct (process_observation_raises self obs Ho) as (e & E & _).
    assert (Hsteps : steps
                     = map (process_observation self) before
                       ++ Throw e :: map (process_observation self) after).
    { unfold steps, process. fold observations. rewrite Hobs.
      rewrite map_app. cbn [map]. rewrite E. reflexivity. }
    destruct (completed_until (map (process_observation self) before)
                (map (process_observation self) after) e (Raised before Hb))
      as [E1 E2].
    rewrite <- Hsteps in E1, E2.
    assert (Hlen : length (completed steps) = length before)
      by (rewrite E1; apply length_map).
    split; [exact Hlen |].
    split; [exists e; rewrite S1, E2; reflexivity |].
    rewrite S2, S3, !length_app, length_map, C1, C2, Hlen. split; reflexivity.
Qed.

(** C6 as stated fails: the sample camera whose detector reports a dance
    without a settled angle and then one with an angle sends no command at
    all, for two observations. *)
Lemma unsettled_observation_ends_the_batch :
  ~ (forall (self : HiveSide) (waggle_info : WaggleInfo) (time : string)
            (b : Bridge),
       length (sent (fst (send_all time (process self waggle_info) None b)))
       = (length (sent b) + length (dance_detector self waggle_info))%nat).
Proof.
  intros H.
  specialize (H Sample.cam_unsettled (Sample.dance "cam1") "12:00:01"
                Sample.bridge).
  destruct (send_all_consumes "12:00:01"
              (process Sample.cam_unsettled (Sample.dance "cam1"))
              Sample.bridge) as (_ & S2 & _).
  rewrite S2 in H. discriminate H.
Qed.

(** ** The quit key ends the run *)

Section Quit.

Variable terminal : Screen.
Variable close_fails : Resource -> bool.

Lemma run_ui_quit (t : Tick) (b : Bridge) :
  is_quit (key t) = true ->
  (exists e, snd (run_ui terminal close_fails t b) = Exc e)
  \/ (snd (run_ui terminal close_fails t b) = Val tt
      /\ running (fst (run_ui terminal close_fails t b)) = false).
Proof.
  intros Hq. unfold run_ui, ui.
  repeat unfold bind, get, record_call, set_screen. cbv beta.
  destruct (screen b) as [scr |]; cbn [cameras with_screen with_call];
    (destruct (cameras b) as [| [k any_side] rest];
     [left; eexists; reflexivity |]);
    rewrite Hq.
  - pose proof (stop_clears_running close_fails (with_call GetKey b)) as Hoff.
    destruct (stop close_fails (with_call GetKey b)) as [b1 [[] | e]];
      cbn [fst snd] in *;
      [right; split; [reflexivity | exact Hoff] | left; eexists; reflexivity].
  - set (b0 := with_call GetKey _).
    pose proof (stop_clears_running close_fails b0) as Hoff.
    destruct (stop close_fails b0) as [b1 [[] | e]];
      cbn [fst snd] in *;
      [right; split; [reflexivity | exact Hoff] | left; eexists; reflexivity].
Qed.

Lemma get_message_stays_stopped (t : Tick) (b : Bridge) :
  running b = false -> running (fst (get_message close_fails t b)) = false.
Proof.
  apply (get_message_kept close_fails (fun b' => running b' = false)).
  - intros c b' _ H. exact H.
  - intros b' _. apply stop_clears_running.
Qed.

Lemma iteration_quit_leaves (t : Tick) (b : Bridge) :
  is_quit (key t) = true ->
  snd (iteration terminal close_fails t b) <> Val Continue.
Proof.
  intros Hq. unfold iteration. unfold bind at 1.
  destruct (run_ui_quit t b Hq) as [[e He] | [Hv Hoff]];
    destruct (run_ui terminal close_fails t b) as [b1 r1];
    cbn [fst snd] in *; subst r1; [discriminate |].
  unfold bind at 1.
  pose proof (get_message_stays_stopped t b1 Hoff) as Hoff2.
  destruct (get_message close_fails t b1) as [b2 [wi | e]];
    cbn [fst snd] in *; [| discriminate].
  unfold bind at 1, get. rewrite Hoff2. cbn [negb].
  unfold bind, ret. destruct (stop close_fails b2) as [b3 [[] | e]];
    discriminate.
Qed.

Lemma while_running_quit_leaves (ticks : list Tick) (b : Bridge) :
  Exists (fun t => is_quit (key t) = true) ticks ->
  snd (while_running terminal close_fails ticks b) <> Val Pending.
Proof.
  intros Hex. revert b.
  induction Hex as [t rest Hq | t rest Hex IH]; intros b; cbn [while_running];
    (destruct (running b); [| discriminate]).
  - pose proof (iteration_quit_leaves t b Hq) as Hl.
    destruct (iteration terminal close_fails t b) as [b1 [[|] | e]];
      cbn [snd] in *; [contradiction | discriminate | discriminate].
  - destruct (iteration terminal close_fails t b) as [b1 [[|] | e]];
      [apply IH | discriminate | discriminate].
Qed.

(** A script in which the operator presses the quit key makes [run] leave
    its loop. *)
Lemma run_quit_leaves (ticks : list Tick) (b : Bridge) :
  Exists (fun t => is_quit (key t) = true) ticks ->
  snd (run terminal close_fails ticks b) <> Val Pending.
Proof.
  intros Hex. unfold run, bind.
  destruct (log_fn_untouched "starting execution" None b) as (L1 & _).
  destruct (log_fn "starting execution" None b) as [b0 r0].
  cbn [snd] in L1. subst r0.
  pose proof (while_running_quit_leaves ticks b0 Hex) as Hw.
  unfold try_finally.
  destruct (while_running terminal close_fails ticks b0) as [b1 [[|] | e]];
    cbn [snd] in *; [| contradiction |];
    destruct (stop close_fails b1) as [b2 [[] | e']]; discriminate.
Qed.

End Quit.

(** ** The scenarios of the specification on the sample installation *)

(** A dance seen at pixel (10, 10) with world angle 0 is announced as "E"
    and triggers actuator 2. *)
Lemma sample_dance_vibrates_east :
  process Sample.cam1 (Sample.dance "cam1")
  = [ Emit (Vibrating "E" (Py.Finite (0 / PI * 180)) "cam1"
              (Py.Finite (0 / PI * 180)))
           {| actuator_index := 2; signal_index := 1; side := 1 |} ].
Proof.
  unfold process, process_observation. cbn [Sample.cam1 dance_detector map
    comb_mapper Sample.mapper map_to_comb hs_cam_id option_map classify].
  rewrite (world_direction_of_bucket 0%R 0 "E"); [reflexivity | | reflexivity].
  pose proof PI_RGT_0. rewrite normalized_angle_id by lra. lra.
Qed.

(** Three passes in which the wait times out: three frames are drawn,
    nothing is sent or closed, and the loop is still running. *)
Lemma sample_three_idle_passes :
  let result :=
    run Sample.terminal Sample.no_failure
      [Sample.idle; Sample.idle; Sample.idle] Sample.bridge in
  snd result = Val Pending
  /\ running (fst result) = true
  /\ refreshes (fst result) = 3%nat
  /\ sent (fst result) = []
  /\ closed (fst result) = [].
Proof. cbv zeta. repeat split. Qed.

(** * The rest of [bridge.py]: properties *)

(** ** Rounding and integer division *)

Module PyMoreFacts.

Lemma floor_le (x y : R) : (x <= y)%R -> Py.floor x <= Py.floor y.
Proof.
  intros H. destruct (PyFacts.floor_bounds x) as [X0 X1].
  destruct (PyFacts.floor_bounds y) as [Y0 Y1].
  apply Z.lt_succ_r. apply lt_IZR. rewrite succ_IZR. lra.
Qed.

Lemma floor_IZR (z : Z) : Py.floor (IZR z) = z.
Proof. apply PyFacts.floor_unique. lra. Qed.

Lemma floor_between (x : R) (a b : Z) :
  (IZR a <= x <= IZR b)%R -> a <= Py.floor x <= b.
Proof.
  intros [H0 H1]. split.
  - rewrite <- (floor_IZR a). apply floor_le, H0.
  - rewrite <- (floor_IZR b). apply floor_le, H1.
Qed.


(** The floor of a quotient of integers is the integer quotient. *)
Lemma floor_div (a b : Z) :
  0 < b -> Py.floor (IZR a / IZR b) = a / b.
Proof.
  intros Hb. apply PyFacts.floor_unique.
  assert (Hb' : (0 < IZR b)%R) by (apply IZR_lt; exact Hb).
  pose proof (Z.div_mod a b ltac:(lia)) as Hd.
  pose proof (Z.mod_pos_bound a b Hb) as Hm.
  assert (Ha : IZR a = (IZR b * IZR (a / b) + IZR (a mod b))%R).
  { rewrite <- mult_IZR, <- plus_IZR. f_equal. exact Hd. }
  assert (Hm0 : (0 <= IZR (a mod b))%R) by (apply IZR_le; lia).
  assert (Hm1 : (IZR (a mod b) < IZR b)%R) by (apply IZR_lt; lia).
  split.
  - apply Rmult_le_reg_r with (r := IZR b); [exact Hb' |].
    replace (IZR a / IZR b * IZR b)%R with (IZR a) by (field; lra). nra.
  - apply Rmult_lt_reg_r with (r := IZR b); [exact Hb' |].
    replace (IZR a / IZR b * IZR b)%R with (IZR a) by (field; lra). nra.
Qed.




Lemma round_between (x : R) (a b : Z) :
  (IZR a <= x <= IZR b)%R -> a <= PyMore.round x <= b.
Proof.
  intros [H0 H1]. unfold PyMore.round.
  destruct (PyFacts.floor_bounds x) as [F0 F1].
  pose proof (floor_between x a b (conj H0 H1)) as [Fa Fb].
  assert (Hstep : x <> IZR b -> Py.floor x + 1 <= b).
  { intros Hne. apply Z.lt_succ_r. apply lt_IZR.
    rewrite succ_IZR, plus_IZR. lra. }
  assert (Htop : x = IZR b -> Py.floor x = b).
  { intros ->. apply floor_IZR. }
  destruct (Rlt_dec (x - IZR (Py.floor x)) (1 / 2)); [lia |].
  destruct (Req_dec x (IZR b)) as [E | E].
  - rewrite (Htop E) in *. lra.
  - specialize (Hstep E).
    destruct (Rlt_dec (1 / 2) (x - IZR (Py.floor x))); [lia |].
    destruct (Z.even (Py.floor x)); lia.
Qed.

End PyMoreFacts.

(** ** The outline *)

Lemma outline_left (screen_width : Z) :
  0 <= screen_width ->
  Py.int (IZR screen_width * (1 / 10)) = screen_width / 10.
Proof.
  intros Hw.
  assert (Hw' : (0 <= IZR screen_width)%R) by (apply IZR_le; exact Hw).
  rewrite PyFacts.int_nonneg by lra.
  replace (IZR screen_width * (1 / 10))%R
    with (IZR screen_width / IZR 10)%R by (field; lra).
  apply PyMoreFacts.floor_div. lia.
Qed.

Lemma outline_right (screen_width : Z) :
  0 <= screen_width ->
  Py.int (IZR screen_width * (9 / 10)) = 9 * screen_width / 10.
Proof.
  intros Hw.
  assert (Hw' : (0 <= IZR screen_width)%R) by (apply IZR_le; exact Hw).
  rewrite PyFacts.int_nonneg by lra.
  replace (IZR screen_width * (9 / 10))%R
    with (IZR (9 * screen_width) / IZR 10)%R
    by (rewrite mult_IZR; field; lra).
  apply PyMoreFacts.floor_div. lia.
Qed.



(** ** Arrows *)

Lemma orientation_degrees_range (o : R) :
  (0 <= Py.fmod (o / PI * 180 + 360) 360 < 360)%R.
Proof. apply PyFacts.fmod_range. lra. Qed.

Lemma arrow_index_range (o : R) : 0 <= arrow_index o <= 8.
Proof.
  unfold arrow_index. pose proof (orientation_degrees_range o) as [H0 H1].
  apply PyMoreFacts.round_between. lra.
Qed.

Lemma arrows_total (i : Z) :
  0 <= i <= 8 -> exists c, Py.index arrows i = Some c.
Proof.
  intros Hi. rewrite PyFacts.index_nonneg by lia.
  assert (Hc : i = 0 \/ i = 1 \/ i = 2 \/ i = 3 \/ i = 4 \/ i = 5 \/ i = 6
            \/ i = 7 \/ i = 8) by lia.
  repeat (destruct Hc as [-> | Hc]); try subst i; eexists; reflexivity.
Qed.



(** ** Markers *)

Lemma int_IZR (z : Z) : Py.int (IZR z) = z.
Proof.
  unfold Py.int. destruct (Rle_dec 0 (IZR z)).
  - apply PyMoreFacts.floor_IZR.
  - rewrite <- opp_IZR, PyMoreFacts.floor_IZR. lia.
Qed.

(** Truncation towards zero never leaves an interval between two
    integers. *)
Lemma int_between (x : R) (a b : Z) :
  (IZR a <= x <= IZR b)%R -> a <= Py.int x <= b.
Proof.
  intros [H0 H1]. unfold Py.int. destruct (Rle_dec 0 x).
  - apply PyMoreFacts.floor_between. lra.
  - assert (H : - b <= Py.floor (- x) <= - a).
    { apply PyMoreFacts.floor_between. rewrite !opp_IZR. lra. }
    lia.
Qed.

(** The sample geometries are what lines 173-179 compute on an 80 column
    screen. *)
Lemma sample_geometry_computed :
  geometry 80 (0, 0, 4, 2)%R = SampleView.geometry
  /\ geometry 80 (0, 0, 64, 1)%R = SampleView.flat_geometry.
Proof.
  unfold geometry, comb_outline, SampleView.geometry,
    SampleView.flat_geometry.
  rewrite outline_left, outline_right by lia.
  change (9 * 80 / 10 - 80 / 10) with 64. change (80 / 10) with 8.
  change (Z.min 5 8) with 5.
  replace (IZR 64 * ((2 - 0) / (4 - 0)))%R with (IZR 32) by lra.
  replace (IZR 64 * ((1 - 0) / (64 - 0)))%R with (IZR 1) by lra.
  rewrite !int_IZR.
  split; f_equal; lra.
Qed.

Section Float32.

Context {np : Numpy}.
Hypothesis Hrounds : rounds.

Let monotone := proj1 Hrounds.
Let exact_0 : float32 0 = 0%R := proj1 (proj2 Hrounds).
Let exact_1 : float32 1 = 1%R := proj2 (proj2 Hrounds).

Variables (origin extent : R) (cextent cstart : Z).
Hypothesis Hextent : (0 < extent)%R.
Hypothesis exact_origin : exact32 origin.
Hypothesis exact_extent : exact32 extent.
Hypothesis exact_end : exact32 (origin + extent).
Hypothesis exact_cstart : exact32 (IZR cstart).
Hypothesis exact_cextent : exact32 (IZR cextent).
Hypothesis exact_cend : exact32 (IZR (cstart + cextent)).
Hypothesis range_cstart : - 2 ^ 31 <= cstart < 2 ^ 31.
Hypothesis range_cend : - 2 ^ 31 <= cstart + cextent < 2 ^ 31.

Lemma astype_int32_in_range (x : R) (a b : Z) :
  - 2 ^ 31 <= a -> b < 2 ^ 31 -> (IZR a <= x <= IZR b)%R ->
  astype_int32 (Some x) = Py.int x /\ a <= Py.int x <= b.
Proof.
  intros Ha Hb Hx. pose proof (int_between x a b Hx) as Hi.
  split; [| exact Hi]. unfold astype_int32.
  destruct (Z.leb_spec (- 2 ^ 31) (Py.int x)); [| lia].
  destruct (Z.ltb_spec (Py.int x) (2 ^ 31)); [reflexivity | lia].
Qed.

(** The steps of lines 191-195 on a coordinate of the comb rectangle. *)
Lemma to_screen_steps (v : R) :
  (origin <= v <= origin + extent)%R ->
  exists v4,
    to_screen v origin extent cextent cstart = astype_int32 (Some v4)
    /\ (IZR (Z.min cstart (cstart + cextent)) <= v4
        <= IZR (Z.max cstart (cstart + cextent)))%R.
Proof.
  intros [V0 V1]. unfold to_screen.
  unfold exact32 in *.
  rewrite exact_origin, exact_extent, exact_cextent, exact_cstart.
  destruct (Req_EM_T extent 0) as [E | _]; [lra |]. cbn [option_map].
  eexists. split; [reflexivity |].
  set (v0 := float32 v).
  assert (H0 : (origin <= v0 <= origin + extent)%R).
  { unfold v0. split.
    - rewrite <- exact_origin. apply monotone. exact V0.
    - rewrite <- exact_end. apply monotone. exact V1. }
  set (v1 := float32 (v0 - origin)).
  assert (H1 : (0 <= v1 <= extent)%R).
  { unfold v1. split.
    - rewrite <- exact_0. apply monotone. lra.
    - rewrite <- exact_extent. apply monotone. lra. }
  set (v2 := float32 (v1 / extent)).
  assert (H2 : (0 <= v2 <= 1)%R).
  { unfold v2. split.
    - rewrite <- exact_0. apply monotone.
      apply Rmult_le_reg_r with (r := extent); [exact Hextent |].
      replace (v1 / extent * extent)%R with v1 by (field; lra). lra.
    - rewrite <- exact_1. apply monotone.
      apply Rmult_le_reg_r with (r := extent); [exact Hextent |].
      replace (v1 / extent * extent)%R with v1 by (field; lra). lra. }
  set (v3 := float32 (v2 * IZR cextent)).
  rewrite plus_IZR in exact_cend.
  destruct (Z.le_gt_cases 0 cextent) as [Hc | Hc].
  - assert (Hc' : (0 <= IZR cextent)%R) by (apply IZR_le; exact Hc).
    assert (H3 : (0 <= v3 <= IZR cextent)%R).
    { unfold v3. split.
      - rewrite <- exact_0. apply monotone. nra.
      - rewrite <- exact_cextent. apply monotone. nra. }
    rewrite Z.min_l, Z.max_r by lia. rewrite plus_IZR. split.
    + rewrite <- exact_cstart. apply monotone. lra.
    + rewrite <- exact_cend. apply monotone. lra.
  - assert (Hc' : (IZR cextent < 0)%R) by (apply IZR_lt; exact Hc).
    assert (H3 : (IZR cextent <= v3 <= 0)%R).
    { unfold v3. split.
      - rewrite <- exact_cextent. apply monotone. nra.
      - rewrite <- exact_0. apply monotone. nra. }
    rewrite Z.min_r, Z.max_l by lia. rewrite plus_IZR. split.
    + rewrite <- exact_cend. apply monotone. lra.
    + rewrite <- exact_cstart. apply monotone. lra.
Qed.

Lemma to_screen_within (v : R) :
  (origin <= v <= origin + extent)%R ->
  Z.min cstart (cstart + cextent)
  <= to_screen v origin extent cextent cstart
  <= Z.max cstart (cstart + cextent).
Proof.
  intros Hv. destruct (to_screen_steps v Hv) as (v4 & -> & H4).
  destruct (astype_int32_in_range v4
              (Z.min cstart (cstart + cextent))
              (Z.max cstart (cstart + cextent))) as [-> Hi];
    [lia | lia | exact H4 | exact Hi].
Qed.

Lemma to_screen_origin :
  to_screen origin origin extent cextent cstart = cstart.
Proof.
  unfold to_screen. unfold exact32 in *.
  rewrite exact_origin, exact_extent, exact_cextent, exact_cstart.
  destruct (Req_EM_T extent 0) as [E | _]; [lra |]. cbn [option_map].
  replace (origin - origin)%R with 0%R by lra. rewrite exact_0.
  replace (0 / extent)%R with 0%R by (field; lra). rewrite exact_0.
  rewrite Rmult_0_l, exact_0, Rplus_0_l, exact_cstart.
  destruct (astype_int32_in_range (IZR cstart) cstart cstart)
    as [-> _]; [lia | lia | lra |].
  apply int_IZR.
Qed.

Lemma to_screen_end :
  to_screen (origin + extent) origin extent cextent cstart
  = cstart + cextent.
Proof.
  unfold to_screen. unfold exact32 in *.
  rewrite exact_origin, exact_extent, exact_cextent, exact_cstart, exact_end.
  destruct (Req_EM_T extent 0) as [E | _]; [lra |]. cbn [option_map].
  replace (origin + extent - origin)%R with extent by lra.
  rewrite exact_extent.
  replace (extent / extent)%R with 1%R by (field; lra). rewrite exact_1.
  rewrite Rmult_1_l, exact_cextent.
  replace (IZR cextent + IZR cstart)%R with (IZR (cstart + cextent))
    by (rewrite plus_IZR; lra).
  rewrite exact_cend.
  destruct (astype_int32_in_range (IZR (cstart + cextent))
              (cstart + cextent) (cstart + cextent))
    as [-> _]; [lia | lia | lra |].
  apply int_IZR.
Qed.

End Float32.

(** With a comb rectangle and an outline that [float32] holds exactly, and
    a rectangle of positive width and height: a point of the rectangle is
    drawn inside the outline, and the corners of the rectangle go to the
    corners of the outline, whatever [float32] rounds the steps in between
    to.  The outline may be upside down, as it is for a flat comb. *)
Theorem markers_stay_in_outline {np : Numpy}
  (g : Geometry) (xy : R * R) (char : string) (color : Colour) :
  rounds -> exact_geometry g ->
  (0 < hwidth g)%R -> (0 < hheight g)%R ->
  in_comb g xy ->
  in_outline g (draw_at_comb_position g xy char color)
  /\ draw_at_comb_position g (hx0 g, hy0 g) char color
     = {| g_char := char; g_x := cleft g; g_y := ctop g; g_colour := color |}
  /\ draw_at_comb_position g
       ((hx0 g + hwidth g)%R, (hy0 g + hheight g)%R) char color
     = {| g_char := char; g_x := cleft g + cwidth g;
          g_y := ctop g + cheight g; g_colour := color |}.
Proof.
  intros Hr ((Ex0 & Exw & Exe) & (Ey0 & Eyh & Eye) & (Ecl & Ecw & Ece)
             & (Ect & Ech & Ecb) & (Rl & Rr) & (Rt & Rb)) Hw Hh [Hx Hy].
  destruct xy as [x y]. cbn [fst snd] in *.
  split; [| split].
  - unfold in_outline, draw_at_comb_position. cbn [g_x g_y]. split.
    + apply to_screen_within; assumption.
    + apply to_screen_within; assumption.
  - unfold draw_at_comb_position. f_equal; apply to_screen_origin; assumption.
  - unfold draw_at_comb_position. f_equal; apply to_screen_end; assumption.
Qed.

(** The middle of the flat comb from (0, 0) to (64, 1) on an 80 column
    screen, whose outline has its bottom row above its top row. *)
Lemma markers_stay_in_outline_witness :
  in_outline SampleView.flat_geometry
    (draw_at_comb_position (np := SampleView.unrounded)
       SampleView.flat_geometry (32%R, (1 / 2)%R) "o" Yellow).
Proof.
  refine (proj1 (markers_stay_in_outline (np := SampleView.unrounded)
                   SampleView.flat_geometry (32%R, (1 / 2)%R)
                   "o" Yellow _ _ _ _ _)).
  - split; [intros x y H; exact H | split; reflexivity].
  - unfold exact_geometry, exact32. cbn. repeat split; lia.
  - cbn. lra.
  - cbn. lra.
  - unfold in_comb. cbn. lra.
Defined.

Lemma marker_char_total (draw_arrows : bool) (count idx : nat) (o : option R) :
  exists c, marker_char draw_arrows count idx o = Some c.
Proof.
  unfold marker_char. destruct draw_arrows, o as [o |];
    try (eexists; reflexivity).
  apply arrows_total, arrow_index_range.
Qed.

Lemma side_color_known (side_index : nat) :
  (side_index < 2)%nat ->
  exists color, Py.index side_colors (Z.of_nat side_index) = Some color.
Proof.
  intros H. destruct side_index as [| [| n]]; [| | lia]; eexists; reflexivity.
Qed.

Lemma side_color_missing (side_index : nat) :
  (2 <= side_index)%nat ->
  Py.index side_colors (Z.of_nat side_index) = None.
Proof.
  intros H. rewrite PyFacts.index_nonneg by lia.
  apply nth_error_None. cbn. lia.
Qed.

Section Drawing.

Context {np : Numpy}.

Variable draw_arrows : bool.
Variable g : Geometry.
Variable to_comb : R -> R -> R * R.

(** With one of the two colours every position gets its glyph. *)
Lemma draw_positions_coloured (side_index count idx : nat)
  (positions : DancePositions) :
  (side_index < 2)%nat ->
  snd (draw_positions draw_arrows g to_comb side_index count idx positions)
  = None
  /\ length (fst (draw_positions draw_arrows g to_comb side_index count idx
                    positions))
     = length positions.
Proof.
  intros Hs. revert idx.
  induction positions as [| [[x y] o] rest IH]; intros idx.
  - split; reflexivity.
  - cbn [draw_positions].
    destruct (marker_char_total draw_arrows count idx o) as [c ->].
    destruct (side_color_known side_index Hs) as [color ->].
    destruct (IH (S idx)) as [E L].
    destruct (draw_positions draw_arrows g to_comb side_index count (S idx) rest)
      as [glyphs e].
    cbn [fst snd length] in *. split; [exact E | rewrite L; reflexivity].
Qed.

(** Without a colour the first position already raises. *)
Lemma draw_positions_uncoloured (side_index count idx : nat)
  (positions : DancePositions) :
  (2 <= side_index)%nat -> positions <> [] ->
  draw_positions draw_arrows g to_comb side_index count idx positions
  = ([], Some IndexError).
Proof.
  intros Hs Hne. destruct positions as [| [[x y] o] rest]; [contradiction |].
  cbn [draw_positions].
  destruct (marker_char_total draw_arrows count idx o) as [c ->].
  rewrite (side_color_missing side_index Hs). reflexivity.
Qed.

Lemma draw_dances_coloured (side_index : nat) (dances : list DancePositions) :
  (side_index < 2)%nat ->
  snd (draw_dances draw_arrows g to_comb side_index dances) = None
  /\ length (fst (draw_dances draw_arrows g to_comb side_index dances))
     = list_sum (map (@length _) dances).
Proof.
  intros Hs. induction dances as [| positions rest IH].
  - split; reflexivity.
  - cbn [draw_dances map list_sum].
    destruct (draw_positions_coloured side_index (length positions) 0
                positions Hs) as [E L].
    destruct (draw_positions draw_arrows g to_comb side_index
                (length positions) 0 positions) as [glyphs e].
    cbn [fst snd] in *. subst e. destruct IH as [E' L'].
    destruct (draw_dances draw_arrows g to_comb side_index rest)
      as [more e'].
    cbn [fst snd] in *. split; [exact E' |].
    rewrite length_app, L, L'. reflexivity.
Qed.

Lemma draw_dances_uncoloured (side_index : nat) (dances : list DancePositions) :
  (2 <= side_index)%nat ->
  draw_dances draw_arrows g to_comb side_index dances
  = ([], if existsb (fun d => negb (Nat.eqb (length d) 0)) dances
         then Some IndexError else None).
Proof.
  intros Hs. induction dances as [| positions rest IH]; [reflexivity |].
  cbn [draw_dances existsb]. destruct positions as [| p more].
  - cbn [draw_positions length Nat.eqb negb orb]. rewrite IH. reflexivity.
  - rewrite draw_positions_uncoloured by (try assumption; discriminate).
    reflexivity.
Qed.

End Drawing.

Lemma draw_sides_uncoloured {np : Numpy} (draw_arrows : bool) (g : Geometry)
  (side_index : nat) (sides : list SideView) :
  (2 <= side_index)%nat ->
  draw_sides draw_arrows g side_index sides
  = ([], if existsb has_open_position sides
         then Some IndexError else None).
Proof.
  revert side_index. induction sides as [| s rest IH]; intros side_index Hs.
  - reflexivity.
  - cbn [draw_sides existsb].
    rewrite draw_dances_uncoloured by exact Hs.
    fold (has_open_position s).
    destruct (has_open_position s); [reflexivity |].
    rewrite IH by lia. cbn [orb app]. reflexivity.
Qed.

Lemma draw_at_comb_position_char {np : Numpy} (g : Geometry) (xy : R * R)
  (char : string) (color : Colour) :
  g_char (draw_at_comb_position g xy char color) = char
  /\ g_colour (draw_at_comb_position g xy char color) = color.
Proof. destruct xy. split; reflexivity. Qed.

(** The positions of a dance that are drawn without an arrow: a dot each,
    and a circle for the last one. *)
Theorem plain_dance_markers {np : Numpy}
  (draw_arrows : bool) (g : Geometry) (to_comb : R -> R -> R * R)
  (side_index : nat) (positions : DancePositions) :
  (side_index < 2)%nat ->
  positions <> [] ->
  (forall p, In p positions -> draw_arrows = false \/ snd p = None) ->
  snd (draw_positions draw_arrows g to_comb side_index (length positions) 0
         positions) = None
  /\ map g_char
       (fst (draw_positions draw_arrows g to_comb side_index
               (length positions) 0 positions))
     = repeat "." (length positions - 1) ++ ["o"].
Proof.
  intros Hs Hne Hplain.
  split; [apply draw_positions_coloured, Hs |].
  assert (Gen : forall rest idx count,
             count = (idx + length rest)%nat -> rest <> [] ->
             (forall p, In p rest -> draw_arrows = false \/ snd p = None) ->
             map g_char
               (fst (draw_positions draw_arrows g to_comb side_index count
                       idx rest))
             = repeat "." (length rest - 1) ++ ["o"]).
  { induction rest as [| [[x y] o] rest IH]; intros idx count Hc Hn Hp;
      [contradiction |].
    cbn [draw_positions].
    assert (Hchar : marker_char draw_arrows count idx o
                    = Some (if Z.of_nat idx <? Z.of_nat count - 1
                            then "." else "o")).
    { unfold marker_char.
      destruct (Hp ((x, y), o) (or_introl eq_refl)) as [-> | Ho].
      - reflexivity.
      - cbn [snd] in Ho. subst o. destruct draw_arrows; reflexivity. }
    rewrite Hchar.
    destruct (side_color_known side_index Hs) as [color ->].
    destruct rest as [| p' rest'].
    - cbn [draw_positions fst map length]. cbn [length] in Hc.
      rewrite (proj1 (draw_at_comb_position_char _ _ _ _)).
      destruct (Z.ltb_spec (Z.of_nat idx) (Z.of_nat count - 1)); [lia |].
      reflexivity.
    - specialize (IH (S idx) count ltac:(cbn [length] in *; lia)
                     ltac:(discriminate)
                     ltac:(intros p Hin; apply Hp; right; exact Hin)).
      destruct (draw_positions draw_arrows g to_comb side_index count (S idx)
                  (p' :: rest')) as [glyphs e].
      cbn [fst map] in *. rewrite IH. cbn [length] in *.
      rewrite (proj1 (draw_at_comb_position_char _ _ _ _)).
      destruct (Z.ltb_spec (Z.of_nat idx) (Z.of_nat count - 1)); [| lia].
      replace (S (S (length rest')) - 1)%nat
        with (S (S (length rest') - 1)) by lia.
      reflexivity. }
  apply Gen; [reflexivity | exact Hne | exact Hplain].
Qed.

(** Three positions drawn without arrows: two dots and a circle. *)
Lemma plain_dance_markers_witness :
  map g_char
    (fst (draw_positions (np := SampleView.unrounded) false
            SampleView.geometry (fun x y => (x, y)) 0
            (length SampleView.dance) 0 SampleView.dance))
  = ["."; "."; "o"].
Proof.
  refine (proj2 (plain_dance_markers (np := SampleView.unrounded) false
                   SampleView.geometry (fun x y => (x, y)) 0
                   SampleView.dance _ _ _)).
  - lia.
  - discriminate.
  - intros p _. left. reflexivity.
Defined.

Lemma draw_sides_coloured {np : Numpy} (draw_arrows : bool) (g : Geometry)
  (side_index : nat) (sides : list SideView) :
  (side_index + length sides <= 2)%nat ->
  snd (draw_sides draw_arrows g side_index sides) = None
  /\ length (fst (draw_sides draw_arrows g side_index sides))
     = open_positions sides.
Proof.
  revert side_index. induction sides as [| s rest IH]; intros side_index Hs.
  - split; reflexivity.
  - cbn [draw_sides length] in *. unfold open_positions. cbn [map list_sum].
    destruct (draw_dances_coloured draw_arrows g (sv_to_comb s) side_index
                (sv_dances s) ltac:(lia)) as [E L].
    destruct (draw_dances draw_arrows g (sv_to_comb s) side_index (sv_dances s))
      as [glyphs e]. cbn [fst snd] in *. subst e.
    destruct (IH (S side_index) ltac:(lia)) as [E' L'].
    destruct (draw_sides draw_arrows g (S side_index) rest) as [more e'].
    cbn [fst snd] in *. split; [exact E' |].
    rewrite length_app, L, L'. reflexivity.
Qed.

(** The status view has two colours.  With at most two cameras every open
    position and every sensor is drawn; a third camera with an open dance
    makes the drawing raise [IndexError] after the markers of the first
    two, before any sensor is drawn. *)
Theorem markers_need_a_colour {np : Numpy}
  (draw_arrows : bool) (g : Geometry) (sensors : list (R * R)) :
  (forall sides,
      (length sides <= 2)%nat ->
      snd (draw_markers draw_arrows g sides sensors) = None
      /\ length (fst (draw_markers draw_arrows g sides sensors))
         = (open_positions sides + length sensors)%nat)
  /\ (forall first second third rest,
        has_open_position third = true ->
        snd (draw_markers draw_arrows g (first :: second :: third :: rest)
               sensors) = Some IndexError
        /\ fst (draw_markers draw_arrows g
                  (first :: second :: third :: rest) sensors)
           = fst (draw_sides draw_arrows g 0 [first; second])).
Proof.
  assert (Two : forall first second tail,
             draw_sides draw_arrows g 0 (first :: second :: tail)
             = (fst (draw_dances draw_arrows g (sv_to_comb first) 0
                       (sv_dances first))
                ++ fst (draw_dances draw_arrows g (sv_to_comb second) 1
                          (sv_dances second))
                ++ fst (draw_sides draw_arrows g 2 tail),
                snd (draw_sides draw_arrows g 2 tail))).
  { intros first second tail. cbn [draw_sides].
    destruct (draw_dances_coloured draw_arrows g (sv_to_comb first) 0
                (sv_dances first) ltac:(lia)) as [E1 _].
    destruct (draw_dances draw_arrows g (sv_to_comb first) 0 (sv_dances first))
      as [g1 e1]. cbn [fst snd] in *. subst e1.
    destruct (draw_dances_coloured draw_arrows g (sv_to_comb second) 1
                (sv_dances second) ltac:(lia)) as [E2 _].
    destruct (draw_dances draw_arrows g (sv_to_comb second) 1
                (sv_dances second)) as [g2 e2]. cbn [fst snd] in *. subst e2.
    destruct (draw_sides draw_arrows g 2 tail) as [g3 e3]. reflexivity. }
  split.
  - intros sides Hlen. unfold draw_markers.
    destruct (draw_sides_coloured draw_arrows g 0 sides ltac:(lia)) as [E L].
    destruct (draw_sides draw_arrows g 0 sides) as [glyphs e].
    cbn [fst snd] in *. subst e. cbn [fst snd]. split; [reflexivity |].
    unfold draw_sensors. rewrite length_app, length_map, L. reflexivity.
  - intros first second third rest Hopen. unfold draw_markers.
    rewrite !Two. rewrite draw_sides_uncoloured by lia.
    cbn [existsb]. rewrite Hopen. cbn [orb fst snd draw_sides].
    rewrite !app_nil_r. split; reflexivity.
Qed.

(** ** How much of the log is visible *)

Lemma rows_from_visible (screen_height row : Z) (lines : list LogLine) :
  (length (filter (on_surfaceb screen_height) (rows_from row lines))
   <= Z.to_nat (screen_height - row))%nat.
Proof.
  revert row. induction lines as [| l rest IH]; intros row.
  - cbn. lia.
  - cbn [rows_from filter]. specialize (IH (row + 1)).
    unfold on_surfaceb at 1. cbn [pa_y].
    destruct (Z.leb_spec 0 row); destruct (Z.ltb_spec row screen_height);
      cbn [andb length]; lia.
Qed.

Lemma rows_from_columns (row : Z) (lines : list LogLine) :
  Forall (fun p => pa_x p = 0) (rows_from row lines).
Proof.
  revert row. induction lines as [| l rest IH]; intros row; constructor;
    [reflexivity | apply IH].
Qed.

(** The log panel carries the newest [min (len log) space] lines of the
    log, oldest first, in column 0, where [space = height - cbottom]; as
    they start two rows below [cbottom], at most [space - 2] of them are on
    the surface. *)
Theorem log_panel_shows_tail (screen_height cbottom : Z) (log : list LogLine) :
  map pa_text (log_panel screen_height cbottom log)
  = (if 0 <? screen_height - cbottom
     then Py.last_slice (Z.to_nat (screen_height - cbottom)) log
     else [])
  /\ (length (log_panel screen_height cbottom log)
      <= Nat.min (length log) (Z.to_nat (screen_height - cbottom)))%nat
  /\ Forall (fun p => pa_x p = 0) (log_panel screen_height cbottom log)
  /\ (length (filter (on_surfaceb screen_height)
                (log_panel screen_height cbottom log))
      <= Z.to_nat (screen_height - cbottom - 2))%nat.
Proof.
  split; [apply log_panel_content |].
  rewrite log_panel_rows.
  destruct (Z.ltb_spec 0 (screen_height - cbottom)).
  - split; [| split].
    + rewrite <- (length_map pa_text), rows_from_texts,
        PyFacts.last_slice_length. lia.
    + apply rows_from_columns.
    + replace (screen_height - cbottom - 2)
        with (screen_height - (cbottom + 2)) by lia.
      apply rows_from_visible.
  - cbn. repeat split; [lia | constructor | lia].
Qed.

(** ** The dictionary of cameras *)

Lemma cameras_get_set_same (cams : list (string * HiveSide)) (k : string)
  (side : HiveSide) :
  cameras_get (cameras_set cams k side) k = Some side.
Proof.
  induction cams as [| [k' s] rest IH]; cbn.
  - rewrite String.eqb_refl. reflexivity.
  - destruct (String.eqb k' k) eqn:E; cbn; rewrite E; [reflexivity | exact IH].
Qed.

Lemma cameras_get_set_other (cams : list (string * HiveSide)) (k k' : string)
  (side : HiveSide) :
  k' <> k ->
  cameras_get (cameras_set cams k side) k' = cameras_get cams k'.
Proof.
  intros Hne. induction cams as [| [k0 s] rest IH]; cbn.
  - destruct (String.eqb_spec k k'); [congruence | reflexivity].
  - destruct (String.eqb_spec k0 k) as [-> | Hk]; cbn.
    + destruct (String.eqb_spec k k'); [congruence | reflexivity].
    + destruct (String.eqb k0 k'); [reflexivity | exact IH].
Qed.

Lemma camera_keys_set (cams : list (string * HiveSide)) (k : string)
  (side : HiveSide) :
  camera_keys (cameras_set cams k side)
  = if cameras_mem cams k then camera_keys cams else camera_keys cams ++ [k].
Proof.
  unfold cameras_mem, camera_keys.
  induction cams as [| [k0 s] rest IH]; cbn.
  - reflexivity.
  - destruct (String.eqb_spec k0 k) as [-> | Hk]; cbn; [reflexivity |].
    rewrite IH. destruct (cameras_get rest k); reflexivity.
Qed.

Lemma cameras_get_none (cams : list (string * HiveSide)) (k : string) :
  cameras_get cams k = None <-> ~ In k (camera_keys cams).
Proof.
  unfold camera_keys. induction cams as [| [k0 s] rest IH]; cbn.
  - split; [intros _ [] | reflexivity].
  - destruct (String.eqb_spec k0 k) as [-> | Hk].
    + split; [discriminate | intros H; destruct H; left; reflexivity].
    + rewrite IH. split; [intros H [E | I]; [congruence | exact (H I)] |].
      intros H I. apply H. right. exact I.
Qed.

Lemma cameras_set_NoDup (cams : list (string * HiveSide)) (k : string)
  (side : HiveSide) :
  NoDup (camera_keys cams) -> NoDup (camera_keys (cameras_set cams k side)).
Proof.
  intros H. rewrite camera_keys_set. unfold cameras_mem.
  destruct (cameras_get cams k) eqn:E; [exact H |].
  apply cameras_get_none in E.
  apply NoDup_app; [exact H | repeat constructor; intros [] | ].
  intros x Hx [<- | []]. exact (E Hx).
Qed.

Lemma cameras_set_keyed (cams : list (string * HiveSide)) (k : string)
  (side : HiveSide) :
  hs_cam_id side = k -> keyed_by_cam_id cams ->
  keyed_by_cam_id (cameras_set cams k side).
Proof.
  intros Hk H. induction cams as [| [k0 s] rest IH]; cbn.
  - intros k' s' [E | []]. inversion E; subst. reflexivity.
  - assert (Hrest : keyed_by_cam_id rest)
      by (intros k' s' Hin; apply H; right; exact Hin).
    destruct (String.eqb_spec k0 k) as [-> | Hne].
    + intros k' s' [E | Hin]; [inversion E; subst; reflexivity |].
      apply H. right. exact Hin.
    + intros k' s' [E | Hin]; [apply H; left; exact E |].
      apply (IH Hrest). exact Hin.
Qed.

(** [self.cameras[k] = side] as a dictionary: the key then answers [side],
    the other keys answer what they did, a key that was there keeps its
    place, a new one goes last, and no key is ever doubled. *)
Theorem cameras_assignment (cams : list (string * HiveSide)) (k : string)
  (side : HiveSide) :
  cameras_get (cameras_set cams k side) k = Some side
  /\ (forall k', k' <> k ->
        cameras_get (cameras_set cams k side) k' = cameras_get cams k')
  /\ camera_keys (cameras_set cams k side)
     = (if cameras_mem cams k then camera_keys cams
        else camera_keys cams ++ [k])
  /\ (NoDup (camera_keys cams) ->
      NoDup (camera_keys (cameras_set cams k side))).
Proof.
  split; [apply cameras_get_set_same |].
  split; [intros k'; apply cameras_get_set_other |].
  split; [apply camera_keys_set | apply cameras_set_NoDup].
Qed.

(** ** [Bridge.__init__] *)

Lemma cameras_set_length (cams : list (string * HiveSide)) (k : string)
  (side : HiveSide) :
  (length cams <= length (cameras_set cams k side) <= S (length cams))%nat
  /\ cameras_set cams k side <> [].
Proof.
  induction cams as [| [k0 s] rest IH]; cbn.
  - split; [lia | discriminate].
  - destruct (String.eqb k0 k); cbn; (split; [lia | discriminate]).
Qed.

Section Building.

Variable env : Startup.
Variable azimuth : R * R.

Lemma build_cameras_spec (configs : list CameraConfig) :
  forall cams built cams',
    build_cameras env azimuth configs cams = (built, inl cams') ->
    (forall k,
        cameras_get cams' k
        = match last_config configs k with
          | Some c => new_side env azimuth k c
          | None => cameras_get cams k
          end)
    /\ (NoDup (camera_keys cams) -> NoDup (camera_keys cams'))
    /\ (keyed_by_cam_id cams -> keyed_by_cam_id cams')
    /\ (length cams <= length cams' <= length cams + length configs)%nat
    /\ (configs <> [] -> cams' <> [])
    /\ Forall (fun x => exists k, x = BCamera k) built.
Proof.
  induction configs as [| c rest IH]; intros cams built cams' H.
  - cbn in H. inversion H; subst. cbn.
    repeat split; try tauto; try lia. constructor.
  - cbn [build_cameras] in H.
    destruct (cfg_cam_id c) as [k |] eqn:Hid; [| discriminate].
    destruct (new_mapper env c azimuth) as [mapper |] eqn:Hm; [| discriminate].
    set (side := {| hs_cam_id := k; dance_detector := new_detector env k;
                    comb_mapper := mapper |}) in *.
    destruct (build_cameras env azimuth rest (cameras_set cams k side))
      as [built' result] eqn:Hb.
    inversion H; subst. clear H.
    destruct (IH _ _ _ Hb) as (Hget & Hnd & Hkey & Hlen & Hne & Hbuilt).
    destruct (cameras_set_length cams k side) as [Hl Hs].
    split; [| split; [| split; [| split; [| split]]]].
    + intros k'. rewrite Hget. cbn [last_config].
      destruct (last_config rest k') as [c' |]; [reflexivity |].
      rewrite Hid. destruct (String.eqb_spec k k') as [<- | Hk].
      * rewrite cameras_get_set_same. unfold new_side. rewrite Hm. reflexivity.
      * apply cameras_get_set_other. congruence.
    + intros H. apply Hnd, cameras_set_NoDup, H.
    + intros H. apply Hkey, cameras_set_keyed; [reflexivity | exact H].
    + cbn [length]. lia.
    + intros _ E. subst cams'. cbn [length] in Hlen.
      destruct (cameras_set cams k side); [contradiction | cbn in Hlen; lia].
    + constructor; [exists k; reflexivity | exact Hbuilt].
Qed.

End Building.

(** The loop over [config["cameras"]]: each identifier ends up with the
    side built from the last entry that names it, no identifier is kept
    twice, and every key is the [cam_id] of its side. *)
Theorem cameras_from_config
  (env : Startup) (azimuth : R * R) (configs : list CameraConfig)
  (built : list Built) (cams : list (string * HiveSide)) :
  build_cameras env azimuth configs [] = (built, inl cams) ->
  (forall k,
      cameras_get cams k
      = match last_config configs k with
        | Some c => new_side env azimuth k c
        | None => None
        end)
  /\ NoDup (camera_keys cams)
  /\ keyed_by_cam_id cams
  /\ (length cams <= length configs)%nat
  /\ (configs <> [] -> cams <> []).
Proof.
  intros H.
  destruct (build_cameras_spec env azimuth configs [] built cams H)
    as (Hget & Hnd & Hkey & Hlen & Hne & _).
  split; [exact Hget |].
  split; [apply Hnd; constructor |].
  split; [apply Hkey; intros k s [] |].
  split; [cbn in Hlen; lia | exact Hne].
Qed.

(** Camera "cam1" configured twice: the second calibration is the one in
    use, and two cameras are kept. *)
Lemma cameras_from_config_witness :
  let result :=
    build_cameras (SampleStartup.env SampleStartup.twice) (52%R, 13%R)
      SampleStartup.twice [] in
  exists cams,
    snd result = inl cams
    /\ length cams = 2%nat
    /\ option_map (fun s => get_comb_rectangle (comb_mapper s))
         (cameras_get cams "cam1")
       = Some (0%R, 0%R, INR 6, 2%R).
Proof.
  cbv zeta.
  destruct (build_cameras (SampleStartup.env SampleStartup.twice)
              (52%R, 13%R) SampleStartup.twice []) as [built result] eqn:E.
  assert (Hr : exists cams, result = inl cams /\ length cams = 2%nat).
  { cbn in E. inversion E. eexists. split; reflexivity. }
  destruct Hr as (cams & -> & Hlen).
  exists cams. split; [reflexivity | split; [exact Hlen |]].
  rewrite (proj1 (cameras_from_config _ _ _ _ _ E) "cam1"). reflexivity.
Defined.

Lemma connect_spec (env : Startup) (sink : option Statistics)
  (cams : list (string * HiveSide)) (built : list Built) (b : Bridge) :
  connect env sink cams = (built, Constructed b) ->
  running b = true /\ log b = [] /\ screen b = None
  /\ statistics b = sink /\ cameras b = cams /\ cams <> []
  /\ closed b = [] /\ sent b = []
  /\ open_listener env = true
  /\ exists before, built = before ++ [BConnector]
                    /\ In BListener before.
Proof.
  unfold connect. intros H.
  destruct (open_listener env); cbn [negb] in H; [| discriminate].
  destruct cams as [| [k first_side] rest]; [discriminate |].
  destruct (open_connector env _); cbn [negb] in H; [| discriminate].
  injection H as <- <-.
  repeat (split; [first [reflexivity | discriminate] |]).
  match goal with
  | |- exists before, [?p1; ?p2; ?l; ?p3; ?c] = _ /\ _ =>
      exists [p1; p2; l; p3]
  end.
  split; [reflexivity |]. right. right. left. reflexivity.
Qed.

(** The stages a successful construction has gone through. *)
Lemma init_stages (env : Startup) (comb_config : string)
  (stats_file : option string) (built : list Built) (b : Bridge) :
  init env comb_config stats_file = (built, Constructed b) ->
  exists sink config latitude longitude configs built3 cams built4,
    is_some sink = PyMore.truthy stats_file
    /\ load_config env comb_config = Some config
    /\ cfg_latitude config = Some latitude
    /\ cfg_longitude config = Some longitude
    /\ cfg_cameras config = Some configs
    /\ build_cameras env (latitude, longitude) configs [] = (built3, inl cams)
    /\ connect env sink cams = (built4, Constructed b)
    /\ built = ((if is_some sink then [BStatistics] else [])
                ++ [BConfig] ++ [BAzimuth]) ++ built3 ++ built4.
Proof.
  unfold init. intros H.
  set (opened := if PyMore.truthy stats_file then _ else _) in H.
  assert (Hopened : forall sink, opened = inl sink ->
                                 is_some sink = PyMore.truthy stats_file).
  { unfold opened. intros sink.
    destruct stats_file as [f |]; cbn [PyMore.truthy].
    - destruct (negb (String.eqb f "")).
      + destruct (open_statistics env f); [| discriminate].
        intros E. inversion E. reflexivity.
      + intros E. inversion E. reflexivity.
    - intros E. inversion E. reflexivity. }
  destruct opened as [sink | e]; [| discriminate].
  specialize (Hopened sink eq_refl).
  destruct (load_config env comb_config) as [config |] eqn:Hload;
    [| discriminate].
  destruct (cfg_latitude config) as [latitude |] eqn:Hlat; [| discriminate].
  destruct (cfg_longitude config) as [longitude |] eqn:Hlon; [| discriminate].
  destruct (new_azimuth env latitude longitude); cbn [negb] in H;
    [| discriminate].
  destruct (cfg_cameras config) as [configs |] eqn:Hcfg; [| discriminate].
  destruct (build_cameras env (latitude, longitude) configs [])
    as [built3 [cams | e]] eqn:Hb; [| discriminate].
  destruct (connect env sink cams) as [built4 result] eqn:Hc.
  injection H as <- ->.
  exists sink, config, latitude, longitude, configs, built3, cams, built4.
  repeat (split; [first [assumption | reflexivity] |]).
  rewrite <- !app_assoc. reflexivity.
Qed.

(** What [run] and [stop] need of a constructed bridge. *)
Lemma init_ready
  (env : Startup) (comb_config : string) (stats_file : option string)
  (built : list Built) (b : Bridge) :
  init env comb_config stats_file = (built, Constructed b) ->
  running b = true /\ closed b = [] /\ NoDup (camera_keys (cameras b)).
Proof.
  intros H.
  destruct (init_stages env comb_config stats_file built b H)
    as (sink & config & latitude & longitude & configs & built3 & cams
        & built4 & _ & _ & _ & _ & _ & Hb & Hc & _).
  destruct (connect_spec env sink cams built4 b Hc)
    as (Hrun & _ & _ & _ & Hcams & _ & Hclosed & _).
  destruct (build_cameras_spec env _ configs [] built3 cams Hb)
    as (_ & Hnd0 & _).
  rewrite Hcams. repeat split; try assumption. apply Hnd0. constructor.
Qed.

(** Every bridge the constructor answers is running, has an empty log, no
    screen yet, at least one camera, no camera identifier twice and every
    camera under its own identifier; nothing has been sent or closed, so it
    is in the state [run] and [stop] expect; the statistics sink is there
    exactly when a non-empty file name was given; and the serial connector
    was the last thing opened, after the listener. *)
Theorem constructed_bridge
  (env : Startup) (comb_config : string) (stats_file : option string)
  (built : list Built) (b : Bridge) :
  init env comb_config stats_file = (built, Constructed b) ->
  running b = true /\ log b = [] /\ screen b = None
  /\ cameras b <> []
  /\ NoDup (camera_keys (cameras b))
  /\ keyed_by_cam_id (cameras b)
  /\ closed b = [] /\ sent b = []
  /\ is_some (statistics b) = PyMore.truthy stats_file
  /\ (forall close_fails, shutdown_consistent close_fails b)
  /\ (exists before, built = before ++ [BConnector] /\ In BListener before).
Proof.
  intros H.
  destruct (init_stages env comb_config stats_file built b H)
    as (sink & config & latitude & longitude & configs & built3 & cams
        & built4 & Hsink & _ & _ & _ & _ & Hb & Hc & Hbuilt).
  destruct (connect_spec env sink cams built4 b Hc)
    as (Hrun & Hlog & Hscr & Hst & Hcams & Hne & Hclosed & Hsent & _
        & before & Hb4 & Hl).
  destruct (build_cameras_spec env _ configs [] built3 cams Hb)
    as (_ & Hnd0 & Hkey0 & _).
  assert (Hnd : NoDup (camera_keys cams)) by (apply Hnd0; constructor).
  assert (Hkey : keyed_by_cam_id cams) by (apply Hkey0; intros k s []).
  rewrite Hcams, Hst.
  repeat (split; [assumption |]).
  split.
  - intros close_fails. unfold shutdown_consistent. rewrite Hrun. exact Hclosed.
  - exists ((((if is_some sink then [BStatistics] else [])
              ++ [BConfig] ++ [BAzimuth]) ++ built3) ++ before).
    split.
    + rewrite Hbuilt, Hb4, <- !app_assoc. reflexivity.
    + apply in_or_app. right. exact Hl.
Qed.

(** The sample start-up with camera "cam1" configured twice and a second
    camera. *)
Lemma constructed_bridge_witness :
  exists built b,
    init (SampleStartup.env SampleStartup.twice) "comb.json" None
    = (built, Constructed b)
    /\ running b = true /\ NoDup (camera_keys (cameras b)).
Proof.
  destruct (init (SampleStartup.env SampleStartup.twice) "comb.json" None)
    as [built result] eqn:E.
  assert (Hr : exists b, result = Constructed b).
  { cbn in E. inversion E. eexists. reflexivity. }
  destruct Hr as [b ->]. exists built, b.
  destruct (constructed_bridge _ _ _ _ _ E) as (H1 & _ & _ & _ & H5 & _).
  split; [reflexivity | split; assumption].
Defined.

(** A configuration without cameras: the constructor fails, with
    [StopIteration] from [next(iter(self.cameras.values()))], and it does
    so after the listener has been opened and before the connector is. *)
Theorem no_camera_no_bridge
  (env : Startup) (comb_config : string) (config : Config)
  (latitude longitude : R) :
  load_config env comb_config = Some config ->
  cfg_latitude config = Some latitude ->
  cfg_longitude config = Some longitude ->
  new_azimuth env latitude longitude = true ->
  cfg_cameras config = Some [] ->
  open_listener env = true ->
  snd (init env comb_config None) = Failed (Raised StopIteration)
  /\ In BListener (fst (init env comb_config None))
  /\ ~ In BConnector (fst (init env comb_config None)).
Proof.
  intros Hload Hlat Hlon Haz Hcams Hlisten.
  unfold init. cbn [PyMore.truthy is_some].
  rewrite Hload, Hlat, Hlon, Haz, Hcams. cbn [negb build_cameras].
  unfold connect. rewrite Hlisten. cbn [negb fst snd].
  split; [reflexivity |]. split.
  - cbn. tauto.
  - cbn. intros H. repeat (destruct H as [H | H]; [discriminate |]). exact H.
Qed.

(** The sample start-up with an empty list of cameras. *)
Lemma no_camera_no_bridge_witness :
  snd (init (SampleStartup.env []) "comb.json" None)
  = Failed (Raised StopIteration).
Proof.
  exact (proj1 (no_camera_no_bridge (SampleStartup.env []) "comb.json"
                  (SampleStartup.document []) 52%R 13%R
                  eq_refl eq_refl eq_refl eq_refl eq_refl eq_refl)).
Defined.

(** ** [stop], resource by resource *)

Lemma camera_resources_NoDup (keys : list string) :
  NoDup keys -> NoDup (map RCam keys).
Proof.
  induction 1 as [| k keys Hk Hnd IH]; cbn; constructor; [| exact IH].
  intros H. apply in_map_iff in H. destruct H as (k' & E & Hin).
  injection E as ->. exact (Hk Hin).
Qed.

Lemma owned_NoDup (b : Bridge) :
  NoDup (camera_keys (cameras b)) -> NoDup (owned b).
Proof.
  intros Hk. unfold owned.
  assert (Hc : NoDup (map (fun c : string * HiveSide => RCam (fst c))
                        (cameras b))).
  { unfold camera_keys in Hk. rewrite <- (map_map fst RCam).
    apply camera_resources_NoDup, Hk. }
  assert (Hcam : forall r,
             In r (map (fun c : string * HiveSide => RCam (fst c)) (cameras b))
             -> exists k, r = RCam k).
  { intros r Hr. apply in_map_iff in Hr. destruct Hr as (c & <- & _).
    eexists. reflexivity. }
  assert (Htail : NoDup ((if is_some (statistics b) then [RStatistics] else [])
                         ++ (if is_some (screen b) then [RScreen] else []))).
  { destruct (is_some (statistics b)), (is_some (screen b)); cbn;
      repeat constructor; cbn; intuition discriminate. }
  assert (Htail_in : forall r,
             In r ((if is_some (statistics b) then [RStatistics] else [])
                   ++ (if is_some (screen b) then [RScreen] else []))
             -> r = RStatistics \/ r = RScreen).
  { intros r Hr. apply in_app_or in Hr.
    destruct (is_some (statistics b)), (is_some (screen b)); cbn in Hr;
      intuition. }
  cbn [app]. constructor; [| constructor].
  - cbn. intros [E | H]; [discriminate |]. apply in_app_or in H.
    destruct H as [H | H].
    + destruct (Hcam _ H) as [k E]. discriminate.
    + destruct (Htail_in _ H); discriminate.
  - intros H. apply in_app_or in H. destruct H as [H | H].
    + destruct (Hcam _ H) as [k E]. discriminate.
    + destruct (Htail_in _ H); discriminate.
  - apply NoDup_app; [exact Hc | exact Htail |].
    intros r Hr Ht. destruct (Hcam _ Hr) as [k ->].
    destruct (Htail_in _ Ht); discriminate.
Qed.

(** A first [stop] of a bridge on which nothing was closed yet, with no
    [close] raising and no camera identifier twice: [stop] returns, every
    owned object has been closed exactly once, and nothing else has. *)
Theorem stop_closes_each_once
  (close_fails : Resource -> bool) (b : Bridge) :
  running b = true -> closed b = [] ->
  NoDup (camera_keys (cameras b)) ->
  (forall r, In r (owned b) -> close_raises close_fails r = false) ->
  snd (stop close_fails b) = Val tt
  /\ closed (fst (stop close_fails b)) = owned b
  /\ (forall r, In r (owned b) ->
        times_closed (fst (stop close_fails b)) r = 1%nat)
  /\ (forall r, ~ In r (owned b) ->
        times_closed (fst (stop close_fails b)) r = 0%nat).
Proof.
  intros Hrun Hclosed Hnd Hall.
  rewrite stop_spec, Hrun. cbn [fst snd].
  destruct (attempted_all close_fails (owned b) Hall) as [Ha Hf].
  assert (Hc : closed (with_calls (stop_calls close_fails b)
                         (with_running false b)) = owned b).
  { rewrite closed_with_calls, closed_stop_calls.
    unfold closed at 1. cbn [calls with_running]. fold (closed b).
    rewrite Hclosed. exact Ha. }
  split; [unfold stop_outcome; rewrite Hf; reflexivity |].
  split; [exact Hc |].
  unfold times_closed. rewrite Hc. split.
  - intros r Hr.
    apply (proj1 (NoDup_count_occ' Resource_eq_dec (owned b))
             (owned_NoDup b Hnd) r Hr).
  - intros r Hr. apply count_occ_not_In. exact Hr.
Qed.

(** The sample bridge: listener, connector and camera "cam1" are closed
    once each. *)
Lemma stop_closes_each_once_witness :
  closed (fst (stop Sample.no_failure Sample.bridge))
  = [RWdd; RComb; RCam "cam1"].
Proof.
  refine (proj1 (proj2 (stop_closes_each_once Sample.no_failure Sample.bridge
                          eq_refl eq_refl _ _))).
  - repeat constructor. intros [].
  - intros r _. destruct r; reflexivity.
Defined.

(** When [stop] raises, the bridge was running and is not any more, and the
    exception is that of the first [close] that fails, which is never the
    [close] of a camera. *)
Theorem stop_raises_a_close_error
  (close_fails : Resource -> bool) (b : Bridge) (e : Exn) :
  snd (stop close_fails b) = Exc e ->
  running b = true
  /\ running (fst (stop close_fails b)) = false
  /\ exists r,
       e = CloseError r /\ In r (owned b) /\ close_fails r = true
       /\ (forall k, r <> RCam k)
       /\ exists before after,
            owned b = before ++ r :: after
            /\ closed (fst (stop close_fails b)) = closed b ++ before ++ [r].
Proof.
  intros H. pose proof (stop_clears_running close_fails b) as Hoff.
  rewrite stop_spec in *. destruct (running b) eqn:Hrun; [| discriminate].
  cbn [fst snd] in *. split; [reflexivity | split; [exact Hoff |]].
  unfold stop_outcome in H.
  destruct (find (close_raises close_fails) (owned b)) as [r |] eqn:Hf;
    [| discriminate].
  injection H as <-. exists r.
  destruct (find_some _ _ Hf) as [Hin Hr].
  split; [reflexivity | split; [exact Hin |]].
  assert (Hcam : forall k, r <> RCam k).
  { intros k ->. discriminate Hr. }
  split; [destruct r; try exact Hr; destruct (Hcam cam eq_refl) |].
  split; [exact Hcam |].
  assert (Split : forall rs,
             find (close_raises close_fails) rs = Some r ->
             exists before after,
               rs = before ++ r :: after
               /\ attempted close_fails rs = before ++ [r]).
  { induction rs as [| x rs IH]; [discriminate |]. cbn.
    destruct (close_raises close_fails x) eqn:Hx.
    - intros E. injection E as ->. exists [], rs. split; reflexivity.
    - intros E. destruct (IH E) as (before & after & -> & Ha).
      exists (x :: before), after. cbn. rewrite Ha. split; reflexivity. }
  destruct (Split _ Hf) as (before & after & Ho & Ha).
  exists before, after. split; [exact Ho |].
  rewrite closed_with_calls, closed_stop_calls.
  unfold stop_sequence. rewrite Ha. reflexivity.
Qed.

(** The sample bridge with a listener whose [close] raises. *)
Lemma stop_raises_a_close_error_witness :
  snd (stop Sample.listener_fails Sample.bridge) = Exc (CloseError RWdd)
  /\ running (fst (stop Sample.listener_fails Sample.bridge)) = false.
Proof.
  split; [reflexivity |].
  exact (proj1 (proj2 (stop_raises_a_close_error Sample.listener_fails
                         Sample.bridge (CloseError RWdd) eq_refl))).
Defined.

(** ** Properties kept by a running bridge

    A finer rule than the one above: the calls that matter are told
    apart, and a message is only ever sent by a bridge that is running. *)

Lemma print_fn_closed_form (time : string) (x : Text) (b : Bridge) :
  print_fn time x b
  = (with_calls (if is_some (statistics b)
                 then [StatLog "log" (Some x)] else [])
       (with_line {| stamp := time; line := x |} b), Val tt).
Proof.
  unfold print_fn, append_log, when, log_fn.
  repeat unfold bind, get, record_call, ret. cbn.
  destruct (statistics b) eqn:E; cbn; rewrite ?E; cbn.
  - reflexivity.
  - f_equal. apply bridge_eq; cbn; rewrite ?app_nil_r; reflexivity.
Qed.

Lemma log_fn_closed_form (event : string) (text : option Text) (b : Bridge) :
  log_fn event text b
  = (with_calls (if is_some (statistics b)
                 then [StatLog event text] else []) b, Val tt).
Proof.
  unfold log_fn, bind, get, record_call, ret.
  destruct (statistics b); cbn [is_some]; [reflexivity |].
  rewrite with_calls_nil. reflexivity.
Qed.

Section Rules.

Variable terminal : Screen.
Variable close_fails : Resource -> bool.
Variable P : Bridge -> Prop.

Hypothesis P_passive :
  forall c b, passive c = true -> P b -> P (with_call c b).
Hypothesis P_print : forall time x, preserves P (print_fn time x).
Hypothesis P_log : forall event, preserves P (log_fn event None).
Hypothesis P_stop : preserves P (stop close_fails).
Hypothesis P_open :
  forall b, P b -> running b = true -> screen b = None ->
            P (with_screen (Some terminal) (with_call ScreenOpen b)).
Hypothesis P_send :
  forall m b, P b -> running b = true -> P (with_call (SendMessage m) b).

Lemma passive_rule (c : Call) :
  passive c = true -> preserves P (record_call c).
Proof. intros Hc b H. apply P_passive; assumption. Qed.

Lemma ui_rule (t : Tick) (scr : Screen) : preserves P (ui close_fails t scr).
Proof.
  apply preserves_bind; [apply preserves_get |]. intros b.
  destruct (cameras b) as [| [k any_side] rest]; [apply preserves_raise |].
  apply preserves_bind; [apply passive_rule; reflexivity |].
  intros _. destruct (is_quit (key t)).
  - apply preserves_bind; [exact P_stop |]. intros _.
    apply passive_rule. reflexivity.
  - destruct (draw_fails t); [apply preserves_raise |].
    destruct (comb_outline _ _) as [[[left_ right_] top_] bottom_].
    apply preserves_bind; [apply preserves_get |]. intros b'.
    apply passive_rule. reflexivity.
Qed.

Lemma run_ui_rule (t : Tick) (b : Bridge) :
  running b = true -> P b -> P (fst (run_ui terminal close_fails t b)).
Proof.
  intros Hrun H. unfold run_ui. rewrite bind_get.
  destruct (screen b) as [scr |] eqn:Hscr.
  - apply ui_rule, H.
  - unfold bind at 1, record_call. unfold bind at 1, set_screen.
    apply ui_rule, P_open; assumption.
Qed.

Lemma get_message_rule (t : Tick) : preserves P (get_message close_fails t).
Proof.
  apply preserves_bind; [apply passive_rule; reflexivity |].
  intros _. apply preserves_bind; [apply preserves_when, P_stop |].
  intros _. destruct (message t);
    [apply preserves_raise | apply preserves_ret | apply preserves_ret].
Qed.

Lemma send_all_rule (time : string) (ys : list Yield) (fails : option nat)
  (b : Bridge) :
  running b = true -> P b -> P (fst (send_all time ys fails b)).
Proof.
  revert fails b. induction ys as [| [text m | e] rest IH];
    intros fails b Hrun H.
  - exact H.
  - cbn [send_all]. unfold bind at 1.
    pose proof (P_print time text b H) as H1.
    destruct (print_fn_spec time text b) as (S1 & _ & S3 & _).
    destruct (print_fn time text b) as [b1 r1]. cbn [fst snd] in *. subst r1.
    assert (Hrun1 : running b1 = true) by congruence.
    destruct fails as [[| n] |].
    + exact H1.
    + unfold bind at 1, record_call. apply IH; [exact Hrun1 |].
      apply P_send; assumption.
    + unfold bind at 1, record_call. apply IH; [exact Hrun1 |].
      apply P_send; assumption.
  - exact H.
Qed.

Lemma iteration_rule (t : Tick) (b : Bridge) :
  running b = true -> P b -> P (fst (iteration terminal close_fails t b)).
Proof.
  intros Hrun H. unfold iteration, bind at 1.
  pose proof (run_ui_rule t b Hrun H) as H1.
  destruct (run_ui terminal close_fails t b) as [b1 [[] | e]];
    cbn [fst] in *; [| exact H1].
  unfold bind at 1.
  pose proof (get_message_rule t b1 H1) as H2.
  destruct (get_message close_fails t b1) as [b2 [waggle_info | e]];
    cbn [fst] in *; [| exact H2].
  rewrite bind_get. destruct (running b2) eqn:Hrun2; cbn [negb].
  - destruct waggle_info as [w |]; [| exact H2]. cbv zeta.
    unfold bind at 1.
    assert (Hwhen : forall c,
               P (fst (when c (print_fn (now t) InvalidCamera) b2))
               /\ running (fst (when c (print_fn (now t) InvalidCamera) b2))
                  = true
               /\ snd (when c (print_fn (now t) InvalidCamera) b2) = Val tt).
    { intros [|]; cbn [when].
      - destruct (print_fn_spec (now t) InvalidCamera b2)
          as (S1 & _ & S3 & _).
        split; [apply P_print, H2 | split; [congruence | exact S1]].
      - repeat split; assumption. }
    destruct (Hwhen (negb (cameras_mem (cameras b2) (cam_id w))))
      as (H3 & Hrun3 & Hv).
    destruct (when _ _ b2) as [b3 r3]. cbn [fst snd] in *. subst r3.
    destruct (cameras_get (cameras b2) (cam_id w)) as [cam |]; [| exact H3].
    unfold bind at 1.
    pose proof (send_all_rule (now t) (process cam w) (send_fails t) b3
                  Hrun3 H3) as H4.
    destruct (send_all (now t) (process cam w) (send_fails t) b3)
      as [b4 [[] | e]]; exact H4.
  - unfold bind at 1. pose proof (P_stop b2 H2) as H3.
    destruct (stop close_fails b2) as [b3 [[] | e]]; exact H3.
Qed.

Lemma while_running_rule (ticks : list Tick) :
  preserves P (while_running terminal close_fails ticks).
Proof.
  induction ticks as [| t rest IH]; intros b H; cbn [while_running].
  - destruct (running b); exact H.
  - destruct (running b) eqn:Hrun; [| exact H].
    pose proof (iteration_rule t b Hrun H) as H1.
    destruct (iteration terminal close_fails t b) as [b1 [[|] | e]];
      cbn [fst] in *; try exact H1.
    apply IH, H1.
Qed.

Lemma run_rule (ticks : list Tick) :
  preserves P (run terminal close_fails ticks).
Proof.
  apply preserves_bind; [apply P_log |]. intros _ b H.
  pose proof (while_running_rule ticks b H) as H1.
  unfold try_finally.
  destruct (while_running terminal close_fails ticks b) as [b1 [[|] | e]];
    cbn [fst] in *.
  - pose proof (P_stop b1 H1) as H2.
    destruct (stop close_fails b1) as [b2 [[] | e]]; exact H2.
  - exact H1.
  - pose proof (P_stop b1 H1) as H2.
    destruct (stop close_fails b1) as [b2 [[] | e']]; exact H2.
Qed.

End Rules.

(** ** Nothing is sent once something is closed *)

Lemma ordered_app (b : Bridge) (cs : list Call) :
  sends_precede_closes b -> sends_of cs = [] ->
  sends_precede_closes (with_calls cs b).
Proof.
  intros (before & after & Hc & Hb & Ha) Hs.
  exists before, (after ++ cs). cbn [calls with_calls].
  split; [rewrite Hc, app_assoc; reflexivity |].
  split; [exact Hb |].
  unfold sends_of in *. rewrite flat_map_app, Ha, Hs. reflexivity.
Qed.

Lemma ordered_send (b : Bridge) (m : CombTriggerActuatorMessage) :
  closed b = [] -> sends_precede_closes (with_call (SendMessage m) b).
Proof.
  intros Hc. exists (calls b ++ [SendMessage m]), [].
  cbn [calls with_call]. split; [rewrite app_nil_r; reflexivity |].
  split; [| reflexivity].
  unfold closes_of. rewrite flat_map_app. fold (closed b). rewrite Hc.
  reflexivity.
Qed.

Lemma passive_quiet (c : Call) :
  passive c = true ->
  sends_of [c] = [] /\ closes_of [c] = []
  /\ (forall r, c <> Close r) /\ (forall m, c <> SendMessage m)
  /\ c <> ScreenOpen /\ (forall e x, c <> StatLog e x).
Proof. destruct c; cbn; intros H; try discriminate; repeat split; discriminate. Qed.

Lemma closed_of_with_calls (cs : list Call) (b : Bridge) :
  closed (with_calls cs b) = closed b ++ closes_of cs.
Proof. apply closed_with_calls. Qed.

(** The order is an invariant of [run], together with the fact that a
    running bridge has closed nothing. *)
Lemma run_keeps_order
  (terminal : Screen) (close_fails : Resource -> bool)
  (ticks : list Tick) (b : Bridge) :
  sends_precede_closes b ->
  (running b = true -> closed b = []) ->
  sends_precede_closes (fst (run terminal close_fails ticks b))
  /\ (running (fst (run terminal close_fails ticks b)) = true ->
      closed (fst (run terminal close_fails ticks b)) = []).
Proof.
  intros Hordered Hfresh.
  set (P := fun b' : Bridge =>
              sends_precede_closes b'
              /\ (running b' = true -> closed b' = [])).
  assert (Stat : forall (o : bool) (c : Call),
             (forall m, c <> SendMessage m) -> (forall r, c <> Close r) ->
             sends_of (if o then [c] else []) = []
             /\ closes_of (if o then [c] else []) = []).
  { intros o c Hm Hr. destruct o; [| split; reflexivity].
    destruct c; cbn; try (split; reflexivity).
    - destruct (Hm m eq_refl).
    - destruct (Hr r eq_refl). }
  apply (run_rule terminal close_fails P).
  - intros c b' Hc [Ho Hr].
    destruct (passive_quiet c Hc) as (Hs & _ & Hnc & _).
    split; [exact (ordered_app b' [c] Ho Hs) |].
    intros Hrun. rewrite closed_with_call_other by exact Hnc. exact (Hr Hrun).
  - intros time x b' [Ho Hr]. rewrite print_fn_closed_form. cbn [fst].
    destruct (Stat (is_some (statistics b')) (StatLog "log" (Some x)))
      as [Hs Hc]; try (intros ?; discriminate).
    split.
    + apply ordered_app; [| exact Hs].
      destruct Ho as (before & after & E & Hb & Ha).
      exists before, after. split; [exact E | split; assumption].
    + intros Hrun. rewrite closed_of_with_calls, Hc, app_nil_r.
      exact (Hr Hrun).
  - intros event b' [Ho Hr]. rewrite log_fn_closed_form. cbn [fst].
    destruct (Stat (is_some (statistics b')) (StatLog event None))
      as [Hs Hc]; try (intros ?; discriminate).
    split; [apply ordered_app; assumption |].
    intros Hrun. rewrite closed_of_with_calls, Hc, app_nil_r. exact (Hr Hrun).
  - intros b' [Ho Hr]. rewrite stop_spec.
    destruct (running b') eqn:Hrun; cbn [fst];
      [| split; [exact Ho | intros Hrun'; congruence]].
    split; [| discriminate].
    apply ordered_app; [| apply sent_stop_calls].
    destruct Ho as (before & after & E & Hb & Ha).
    exists before, after. split; [exact E | split; assumption].
  - intros b' [Ho Hr] Hrun _. split.
    + destruct Ho as (before & after & E & Hb & Ha).
      exists before, (after ++ [ScreenOpen]). cbn [calls with_screen with_call].
      split; [rewrite E, app_assoc; reflexivity |].
      split; [exact Hb |].
      unfold sends_of in *. rewrite flat_map_app, Ha. reflexivity.
    + intros _. unfold closed. cbn [calls with_screen with_call].
      rewrite flat_map_app. fold (closed b'). rewrite (Hr Hrun). reflexivity.
  - intros m b' [Ho Hr] Hrun. split.
    + apply ordered_send, Hr, Hrun.
    + intros _. rewrite closed_with_call_other by (intros ?; discriminate).
      exact (Hr Hrun).
  - split; assumption.
Qed.

(** In the record of calls of a whole [run] every [send_message] comes
    before every [close]: no command is sent to the connector, and none is
    produced, once the shutdown has begun. *)
Theorem sends_come_before_closes
  (terminal : Screen) (close_fails : Resource -> bool)
  (ticks : list Tick) (b : Bridge) :
  closed b = [] ->
  sends_precede_closes (fst (run terminal close_fails ticks b)).
Proof.
  intros Hclosed.
  apply (run_keeps_order terminal close_fails ticks b).
  - exists (calls b), []. split; [rewrite app_nil_r; reflexivity |].
    split; [exact Hclosed | reflexivity].
  - intros _. exact Hclosed.
Qed.

(** The sample bridge over a dance, a stop request and the quit key. *)
Lemma sends_come_before_closes_witness :
  sends_precede_closes
    (fst (run Sample.terminal Sample.no_failure
            [Sample.waggle "cam1"; Sample.waggle_during_stop "cam1";
             Sample.quit] Sample.bridge)).
Proof.
  exact (sends_come_before_closes Sample.terminal Sample.no_failure
           [Sample.waggle "cam1"; Sample.waggle_during_stop "cam1";
            Sample.quit] Sample.bridge eq_refl).
Defined.

(** ** The screen is opened once *)

Lemma screen_opens_with_calls (cs : list Call) (b : Bridge) :
  (forall c, In c cs -> c <> ScreenOpen) ->
  screen_opens (with_calls cs b) = screen_opens b.
Proof.
  intros H. unfold screen_opens. cbn [calls with_calls].
  rewrite flat_map_app, length_app.
  assert (E : flat_map (fun c => match c with ScreenOpen => [tt] | _ => [] end)
                cs = []).
  { induction cs as [| c cs IH]; [reflexivity |]. cbn.
    rewrite IH by (intros c' Hc'; apply H; right; exact Hc').
    destruct c; try reflexivity. destruct (H ScreenOpen (or_introl eq_refl) eq_refl). }
  rewrite E. cbn. lia.
Qed.

Lemma stop_calls_no_open (close_fails : Resource -> bool) (b : Bridge) :
  forall c, In c (stop_calls close_fails b) -> c <> ScreenOpen.
Proof.
  intros c Hc. unfold stop_calls in Hc. apply in_app_or in Hc.
  destruct Hc as [Hc | Hc].
  - destruct (is_some (statistics b)); [| destruct Hc].
    destruct Hc as [<- | []]. discriminate.
  - apply in_map_iff in Hc. destruct Hc as (r & <- & _). discriminate.
Qed.

Lemma optional_stat_no_open (o : bool) (event : string) (text : option Text) :
  forall c, In c (if o then [StatLog event text] else []) -> c <> ScreenOpen.
Proof. destruct o; intros c [<- | []] || intros c []; discriminate. Qed.

(** Over a whole [run], [Screen.open()] is called at most once; a screen
    that is already there is kept and never opened again; and the only
    screen the bridge ever gets is the one [Screen.open()] answered. *)
Theorem screen_opened_once
  (terminal : Screen) (close_fails : Resource -> bool)
  (ticks : list Tick) (b : Bridge) :
  screen_opens b = 0%nat ->
  (screen_opens (fst (run terminal close_fails ticks b)) <= 1)%nat
  /\ (screen (fst (run terminal close_fails ticks b)) = screen b
      /\ screen_opens (fst (run terminal close_fails ticks b)) = 0%nat
      \/ screen b = None
         /\ screen (fst (run terminal close_fails ticks b)) = Some terminal
         /\ screen_opens (fst (run terminal close_fails ticks b)) = 1%nat).
Proof.
  intros Hzero.
  set (P := fun b' : Bridge =>
              screen b' = screen b /\ screen_opens b' = 0%nat
              \/ screen b = None /\ screen b' = Some terminal
                 /\ screen_opens b' = 1%nat).
  assert (Keep : forall cs b',
             (forall c, In c cs -> c <> ScreenOpen) ->
             P b' -> P (with_calls cs b')).
  { intros cs b' Hcs HP. unfold P in *.
    rewrite (screen_opens_with_calls cs b' Hcs). exact HP. }
  assert (HP : P (fst (run terminal close_fails ticks b))).
  { apply (run_rule terminal close_fails P).
    - intros c b' Hc HP. apply (Keep [c] b'); [| exact HP].
      intros c' [<- | []]. apply (passive_quiet c Hc).
    - intros time x b' HP. rewrite print_fn_closed_form. cbn [fst].
      apply Keep; [apply optional_stat_no_open |]. exact HP.
    - intros event b' HP. rewrite log_fn_closed_form. cbn [fst].
      apply Keep; [apply optional_stat_no_open |]. exact HP.
    - intros b' HP. rewrite stop_spec. destruct (running b'); [| exact HP].
      cbn [fst]. apply Keep; [apply stop_calls_no_open |]. exact HP.
    - intros b' HP Hrun Hnone. unfold P in *. right.
      destruct HP as [[Hs Ho] | (_ & Hs & _)]; [| congruence].
      split; [congruence |]. split; [reflexivity |].
      unfold screen_opens in *. cbn [calls with_screen with_call].
      rewrite flat_map_app, length_app, Ho. reflexivity.
    - intros m b' HP _. apply (Keep [SendMessage m] b'); [| exact HP].
      intros c' [<- | []]. discriminate.
    - left. split; [reflexivity | exact Hzero]. }
  split; [| exact HP].
  destruct HP as [[_ ->] | (_ & _ & ->)]; lia.
Qed.

(** The sample bridge, whose screen is not open yet, over three idle
    passes: one call of [Screen.open()]. *)
Lemma screen_opened_once_witness :
  screen_opens
    (fst (run Sample.terminal Sample.no_failure
            [Sample.idle; Sample.idle; Sample.idle] Sample.bridge)) = 1%nat.
Proof.
  destruct (screen_opened_once Sample.terminal Sample.no_failure
              [Sample.idle; Sample.idle; Sample.idle] Sample.bridge eq_refl)
    as [_ [[_ H] | (_ & _ & H)]].
  - discriminate H.
  - exact H.
Defined.

(** ** What the statistics sink receives *)

Lemma logged_texts_with_calls (cs : list Call) (b : Bridge) :
  logged_texts (with_calls cs b)
  = logged_texts b ++ flat_map log_event_text cs.
Proof. unfold logged_texts. cbn [calls with_calls]. apply flat_map_app. Qed.

Lemma sink_texts_with_calls (cs : list Call) (b : Bridge) :
  sink_texts (with_calls cs b)
  = sink_texts b
    ++ flat_map (fun c => match c with StatLog _ (Some x) => [x] | _ => [] end)
         cs.
Proof. unfold sink_texts. cbn [calls with_calls]. apply flat_map_app. Qed.

(** A call that hands the sink no text is no ["log"] event. *)
Lemma no_text_no_log_event (cs : list Call) :
  flat_map (fun c => match c with StatLog _ (Some x) => [x] | _ => [] end) cs
  = [] ->
  flat_map log_event_text cs = [].
Proof.
  induction cs as [| c cs IH]; [reflexivity |].
  cbn [flat_map]. intros H. apply app_eq_nil in H. destruct H as [Hc Hcs].
  rewrite (IH Hcs), app_nil_r.
  destruct c as [event [x |] | | | | | | |]; try reflexivity. discriminate Hc.
Qed.

Lemma statistics_calls_with_calls (cs : list Call) (b : Bridge) :
  statistics_calls (with_calls cs b)
  = (statistics_calls b
     + length (flat_map
                 (fun c => match c with StatLog _ _ => [tt] | _ => [] end) cs))%nat.
Proof.
  unfold statistics_calls. cbn [calls with_calls].
  rewrite flat_map_app, length_app. reflexivity.
Qed.

Lemma closes_carry_no_text (rs : list Resource) :
  flat_map (fun c => match c with StatLog _ (Some x) => [x] | _ => [] end)
    (map Close rs) = []
  /\ flat_map (fun c => match c with StatLog _ _ => [tt] | _ => [] end)
       (map Close rs) = [].
Proof. induction rs as [| r rs [IH1 IH2]]; cbn; split; auto. Qed.

(** With a statistics file, every line that [run] adds to the log is also
    handed to the sink in a call [log("log", text=x)], in the same order,
    and the sink gets no other text, under no other event name. *)
Theorem statistics_receive_the_log
  (terminal : Screen) (close_fails : Resource -> bool)
  (ticks : list Tick) (b : Bridge) :
  is_some (statistics b) = true ->
  exists new,
    log (fst (run terminal close_fails ticks b)) = log b ++ new
    /\ logged_texts (fst (run terminal close_fails ticks b))
       = logged_texts b ++ map line new
    /\ sink_texts (fst (run terminal close_fails ticks b))
       = sink_texts b ++ map line new.
Proof.
  intros Hstat.
  set (P := fun b' : Bridge =>
              is_some (statistics b') = true
              /\ exists new,
                   log b' = log b ++ new
                   /\ logged_texts b' = logged_texts b ++ map line new
                   /\ sink_texts b' = sink_texts b ++ map line new).
  assert (Keep : forall cs b',
             flat_map
               (fun c => match c with StatLog _ (Some x) => [x] | _ => [] end)
               cs = [] ->
             P b' -> P (with_calls cs b')).
  { intros cs b' Hcs (Hs & new & Hl & Ht & Hk). split; [exact Hs |].
    exists new. split; [exact Hl |]. split.
    - rewrite logged_texts_with_calls, (no_text_no_log_event cs Hcs),
        app_nil_r. exact Ht.
    - rewrite sink_texts_with_calls, Hcs, app_nil_r. exact Hk. }
  assert (HP : P (fst (run terminal close_fails ticks b))).
  { apply (run_rule terminal close_fails P).
    - intros c b' Hc HP. apply (Keep [c] b'); [| exact HP].
      destruct c; try reflexivity; discriminate Hc.
    - intros time x b' (Hs & new & Hl & Ht & Hk).
      rewrite print_fn_closed_form, Hs. cbn [fst]. split; [exact Hs |].
      exists (new ++ [ {| stamp := time; line := x |} ]).
      rewrite logged_texts_with_calls, sink_texts_with_calls.
      cbn [log with_calls with_line].
      split; [rewrite Hl, app_assoc; reflexivity |].
      replace (logged_texts (with_line {| stamp := time; line := x |} b'))
        with (logged_texts b') by reflexivity.
      replace (sink_texts (with_line {| stamp := time; line := x |} b'))
        with (sink_texts b') by reflexivity.
      rewrite Ht, Hk, map_app, <- !app_assoc. split; reflexivity.
    - intros event b' HP. rewrite log_fn_closed_form. cbn [fst].
      apply Keep; [| exact HP]. destruct (is_some (statistics b')); reflexivity.
    - intros b' HP. rewrite stop_spec. destruct (running b'); [| exact HP].
      cbn [fst]. apply Keep.
      + unfold stop_calls. rewrite flat_map_app.
        rewrite (proj1 (closes_carry_no_text _)).
        destruct (is_some (statistics b')); reflexivity.
      + destruct HP as (Hs & new & Hl & Ht & Hk). split; [exact Hs |].
        exists new. repeat split; assumption.
    - intros b' HP _ _.
      exact (Keep [ScreenOpen] b' eq_refl HP).
    - intros m b' HP _. apply (Keep [SendMessage m] b'); [reflexivity | exact HP].
    - split; [exact Hstat |]. exists []. rewrite !app_nil_r.
      repeat split; reflexivity. }
  exact (proj2 HP).
Qed.

(** The sample bridge with a statistics file receives a dance of an
    unknown camera: the diagnostic is in the log and at the sink. *)
Lemma statistics_receive_the_log_witness :
  exists new,
    log (fst (run Sample.terminal Sample.no_failure [Sample.waggle "camX"]
                SampleStartup.bridge_with_statistics))
    = log SampleStartup.bridge_with_statistics ++ new
    /\ logged_texts
         (fst (run Sample.terminal Sample.no_failure [Sample.waggle "camX"]
                 SampleStartup.bridge_with_statistics))
       = logged_texts SampleStartup.bridge_with_statistics ++ map line new
    /\ sink_texts
         (fst (run Sample.terminal Sample.no_failure [Sample.waggle "camX"]
                 SampleStartup.bridge_with_statistics))
       = sink_texts SampleStartup.bridge_with_statistics ++ map line new.
Proof.
  exact (statistics_receive_the_log Sample.terminal Sample.no_failure
           [Sample.waggle "camX"] SampleStartup.bridge_with_statistics
           eq_refl).
Defined.

(** Without a statistics file [run] never calls the sink: it logs nothing
    to it and never closes it. *)
Theorem no_statistics_no_calls
  (terminal : Screen) (close_fails : Resource -> bool)
  (ticks : list Tick) (b : Bridge) :
  statistics b = None ->
  ~ In RStatistics (closed b) ->
  statistics_calls (fst (run terminal close_fails ticks b))
  = statistics_calls b
  /\ ~ In RStatistics (closed (fst (run terminal close_fails ticks b))).
Proof.
  intros Hnone Hclosed.
  set (P := fun b' : Bridge =>
              statistics b' = None
              /\ statistics_calls b' = statistics_calls b
              /\ ~ In RStatistics (closed b')).
  assert (Keep : forall c b',
             (forall e x, c <> StatLog e x) -> c <> Close RStatistics ->
             P b' -> P (with_call c b')).
  { intros c b' Hs Hc (H1 & H2 & H3). split; [exact H1 |]. split.
    - change (with_call c b') with (with_calls [c] b').
      rewrite statistics_calls_with_calls, H2.
      destruct c; cbn; try lia. destruct (Hs event text eq_refl).
    - change (with_call c b') with (with_calls [c] b').
      rewrite closed_with_calls. intros Hin. apply in_app_or in Hin.
      destruct Hin as [Hin | Hin]; [exact (H3 Hin) |].
      destruct c; cbn in Hin; try contradiction.
      destruct Hin as [E | []]. apply Hc. rewrite E. reflexivity. }
  assert (HP : P (fst (run terminal close_fails ticks b))).
  { apply (run_rule terminal close_fails P).
    - intros c b' Hc HP. destruct (passive_quiet c Hc) as (_ & _ & Hr & _ & _ & Hs).
      apply Keep; [exact Hs | apply Hr | exact HP].
    - intros time x b' HP. rewrite print_fn_closed_form. cbn [fst].
      destruct HP as (H1 & H2 & H3). rewrite H1. cbn [is_some].
      rewrite with_calls_nil. repeat split; assumption.
    - intros event b' HP. rewrite log_fn_closed_form. cbn [fst].
      destruct HP as (H1 & H2 & H3). rewrite H1. cbn [is_some].
      rewrite with_calls_nil. repeat split; assumption.
    - intros b' (H1 & H2 & H3). rewrite stop_spec.
      destruct (running b'); cbn [fst]; [| repeat split; assumption].
      split; [exact H1 |]. split.
      + rewrite statistics_calls_with_calls. unfold stop_calls.
        rewrite H1. cbn [is_some app].
        rewrite (proj2 (closes_carry_no_text _)). cbn.
        unfold statistics_calls in *. cbn [calls with_running]. lia.
      + rewrite closed_with_calls, closed_stop_calls. intros Hin.
        apply in_app_or in Hin. destruct Hin as [Hin | Hin]; [exact (H3 Hin) |].
        apply attempted_incl in Hin. unfold owned in Hin. rewrite H1 in Hin.
        cbn in Hin. destruct Hin as [E | [E | Hin]]; try discriminate.
        apply in_app_or in Hin. destruct Hin as [Hin | Hin].
        * apply in_map_iff in Hin. destruct Hin as (c & E & _). discriminate.
        * destruct (is_some (screen b')); cbn in Hin;
            [destruct Hin as [E | []]; discriminate | contradiction].
    - intros b' HP _ _.
      exact (Keep ScreenOpen b' ltac:(discriminate) ltac:(discriminate) HP).
    - intros m b' HP _. apply Keep; [discriminate | discriminate | exact HP].
    - repeat split; assumption. }
  destruct HP as (_ & H2 & H3). split; assumption.
Qed.

(** The sample bridge, which has no statistics file. *)
Lemma no_statistics_no_calls_witness :
  statistics_calls
    (fst (run Sample.terminal Sample.no_failure
            [Sample.waggle "cam1"; Sample.quit] Sample.bridge)) = 0%nat.
Proof.
  refine (proj1 (no_statistics_no_calls Sample.terminal Sample.no_failure
                   [Sample.waggle "cam1"; Sample.quit] Sample.bridge
                   eq_refl _)).
  intros [].
Defined.

(** ** Passes in which nothing arrives *)

Lemma refreshes_with_call (c : Call) (b : Bridge) :
  refreshes (with_call c b)
  = (refreshes b + match c with Refresh _ => 1 | _ => 0 end)%nat.
Proof.
  unfold refreshes. cbn [calls with_call].
  rewrite flat_map_app, length_app. destruct c; reflexivity.
Qed.

Section Idle.

Variable terminal : Screen.
Variable close_fails : Resource -> bool.

Lemma run_ui_frame (t : Tick) (b : Bridge) :
  cameras b <> [] -> is_quit (key t) = false -> draw_fails t = false ->
  refreshes (fst (run_ui terminal close_fails t b)) = S (refreshes b).
Proof.
  intros Hcam Hq Hd. unfold run_ui, ui.
  repeat unfold bind, get, record_call, set_screen. cbv beta.
  destruct (screen b) as [scr |]; cbn [cameras with_screen with_call];
    destruct (cameras b) as [| [k any_side] rest]; try contradiction;
    rewrite Hq, Hd;
    destruct (comb_outline _ _) as [[[cleft cright] ctop] cbottom];
    cbn [fst snd]; rewrite !refreshes_with_call; lazy iota beta.
  - lia.
  - replace (refreshes (with_screen (Some terminal) (with_call ScreenOpen b)))
      with (refreshes (with_call ScreenOpen b)) by reflexivity.
    rewrite refreshes_with_call. lia.
Qed.

Lemma iteration_idle (t : Tick) (b : Bridge) :
  running b = true -> cameras b <> [] -> idle_tick t ->
  snd (iteration terminal close_fails t b) = Val Continue
  /\ untouched b (fst (iteration terminal close_fails t b))
  /\ refreshes (fst (iteration terminal close_fails t b)) = S (refreshes b).
Proof.
  intros Hrun Hcam (Hq & Hd & Hs & Hm).
  destruct (run_ui_draws terminal close_fails t b Hcam Hq Hd) as [U1 U2].
  pose proof (run_ui_frame t b Hcam Hq Hd) as F.
  assert (E : iteration terminal close_fails t b
              = (with_call GetMessage (fst (run_ui terminal close_fails t b)),
                 Val Continue)).
  { unfold iteration. unfold bind at 1.
    destruct (run_ui terminal close_fails t b) as [b1 r1].
    cbn [fst snd] in *. subst r1.
    unfold get_message, when. repeat unfold bind, get, record_call, ret.
    rewrite Hs, Hm. cbn [fst snd running with_call].
    rewrite (un_running _ _ U2), Hrun. reflexivity. }
  rewrite E. cbn [fst snd].
  split; [reflexivity |]. split.
  - eapply untouched_trans; [exact U2 |].
    apply with_call_untouched; intros ?; discriminate.
  - rewrite refreshes_with_call, F. lazy iota beta. lia.
Qed.

Lemma while_running_idle (ticks : list Tick) (b : Bridge) :
  Forall idle_tick ticks -> running b = true -> cameras b <> [] ->
  snd (while_running terminal close_fails ticks b) = Val Pending
  /\ untouched b (fst (while_running terminal close_fails ticks b))
  /\ refreshes (fst (while_running terminal close_fails ticks b))
     = (refreshes b + length ticks)%nat.
Proof.
  intros Hall. revert b.
  induction Hall as [| t rest Ht _ IH]; intros b Hrun Hcam;
    cbn [while_running]; rewrite Hrun.
  - cbn [fst snd length]. split; [reflexivity |].
    split; [constructor; reflexivity | lia].
  - destruct (iteration_idle t b Hrun Hcam Ht) as (I1 & I2 & I3).
    destruct (iteration terminal close_fails t b) as [b1 r1].
    cbn [fst snd] in *. subst r1.
    destruct (IH b1) as (W1 & W2 & W3).
    + rewrite (un_running _ _ I2). exact Hrun.
    + rewrite (un_cameras _ _ I2). exact Hcam.
    + split; [exact W1 |]. split.
      * eapply untouched_trans; eassumption.
      * rewrite W3, I3. cbn [length]. lia.
Qed.

End Idle.

(** While nothing arrives, [run] only redraws: over any number of passes
    with no key, no stop request and a receive that times out, the loop is
    still going afterwards, one frame has been flushed per pass, and
    nothing has been logged, sent or closed. *)
Theorem idle_passes_only_redraw
  (terminal : Screen) (close_fails : Resource -> bool)
  (ticks : list Tick) (b : Bridge) :
  running b = true -> cameras b <> [] -> Forall idle_tick ticks ->
  snd (run terminal close_fails ticks b) = Val Pending
  /\ untouched b (fst (run terminal close_fails ticks b))
  /\ refreshes (fst (run terminal close_fails ticks b))
     = (refreshes b + length ticks)%nat.
Proof.
  intros Hrun Hcam Hall.
  destruct (log_fn_untouched "starting execution" None b) as (L1 & L2 & _).
  assert (L3 : refreshes (fst (log_fn "starting execution" None b))
               = refreshes b).
  { rewrite log_fn_closed_form. cbn [fst].
    destruct (is_some (statistics b)).
    - change (with_calls [?c] b) with (with_call c b).
      rewrite refreshes_with_call. lazy iota beta. lia.
    - rewrite with_calls_nil. reflexivity. }
  assert (E : run terminal close_fails ticks b
              = (fst (while_running terminal close_fails ticks
                        (fst (log_fn "starting execution" None b))),
                 Val Pending)).
  { unfold run, bind at 1.
    destruct (log_fn "starting execution" None b) as [b0 r0].
    cbn [fst snd] in *. subst r0.
    destruct (while_running_idle terminal close_fails ticks b0 Hall)
      as (W1 & _).
    - rewrite (un_running _ _ L2). exact Hrun.
    - rewrite (un_cameras _ _ L2). exact Hcam.
    - destruct (while_running terminal close_fails ticks b0) as [b1 r1].
      cbn [fst snd] in *. subst r1. reflexivity. }
  rewrite E. cbn [fst snd].
  destruct (while_running_idle terminal close_fails ticks
              (fst (log_fn "starting execution" None b)) Hall)
    as (_ & W2 & W3).
  - rewrite (un_running _ _ L2). exact Hrun.
  - rewrite (un_cameras _ _ L2). exact Hcam.
  - split; [reflexivity |]. split.
    + eapply untouched_trans; eassumption.
    + rewrite W3, L3. reflexivity.
Qed.

(** The sample bridge over three idle passes. *)
Lemma idle_passes_only_redraw_witness :
  refreshes
    (fst (run Sample.terminal Sample.no_failure
            [Sample.idle; Sample.idle; Sample.idle] Sample.bridge)) = 3%nat.
Proof.
  refine (proj2 (proj2 (idle_passes_only_redraw Sample.terminal
                          Sample.no_failure
                          [Sample.idle; Sample.idle; Sample.idle]
                          Sample.bridge eq_refl _ _))).
  - discriminate.
  - repeat constructor.
Defined.

(** ** A [send_message] that raises *)

Section SendFailure.

Variable terminal : Screen.
Variable close_fails : Resource -> bool.

Lemma send_all_fails_now (time : string) (text : Text)
  (m : CombTriggerActuatorMessage) (rest : list Yield) (b : Bridge) :
  send_all time (Emit text m :: rest) (Some 0%nat) b
  = (fst (print_fn time text b), Exc SendError).
Proof.
  cbn [send_all]. unfold bind, raise.
  destruct (print_fn_spec time text b) as (P1 & _).
  destruct (print_fn time text b) as [b1 r1].
  cbn [fst snd] in *. subst r1. reflexivity.
Qed.

Lemma send_all_fails_later (time : string) (text : Text)
  (m : CombTriggerActuatorMessage) (rest : list Yield) (n : nat) (b : Bridge) :
  send_all time (Emit text m :: rest) (Some (S n)) b
  = send_all time rest (Some n)
      (with_call (SendMessage m) (fst (print_fn time text b))).
Proof.
  cbn [send_all]. unfold bind, record_call.
  destruct (print_fn_spec time text b) as (P1 & _).
  destruct (print_fn time text b) as [b1 r1].
  cbn [fst snd] in *. subst r1. reflexivity.
Qed.

Lemma send_all_breaks (time : string) (ys : list Yield) (n : nat) (b : Bridge) :
  (n < length (completed ys))%nat ->
  snd (send_all time ys (Some n) b) = Exc SendError
  /\ sent (fst (send_all time ys (Some n) b))
     = sent b ++ firstn n (messages_of ys)
  /\ log (fst (send_all time ys (Some n) b))
     = log b ++ map (fun x => {| stamp := time; line := x |})
                    (firstn (S n) (texts_of ys))
  /\ running (fst (send_all time ys (Some n) b)) = running b
  /\ cameras (fst (send_all time ys (Some n) b)) = cameras b.
Proof.
  revert n b. induction ys as [| [text m | e] rest IH]; intros n b Hn.
  - cbn [completed length] in Hn. lia.
  - cbn [completed] in Hn.
    destruct (print_fn_spec time text b)
      as (P1 & P2 & P3 & P4 & P5 & P6 & P7 & P8).
    cbn [messages_of texts_of flat_map app].
    fold (messages_of rest) (texts_of rest).
    destruct n as [| n].
    + rewrite send_all_fails_now. cbn [fst snd firstn map].
      rewrite P2, P3, P4, P7, app_nil_r. repeat split.
    + rewrite send_all_fails_later.
      set (b1 := fst (print_fn time text b)) in *.
      cbn [length] in Hn.
      destruct (IH n (with_call (SendMessage m) b1) ltac:(lia))
        as (I1 & I2 & I3 & I4 & I5).
      rewrite I1, I2, I3, I4, I5. cbn [log running cameras with_call].
      rewrite P2, P3, P4. unfold sent at 1. cbn [calls with_call].
      rewrite flat_map_app. fold (sent b1). rewrite P7.
      cbn [flat_map app firstn map]. rewrite <- !app_assoc.
      repeat split.
  - cbn [completed length] in Hn. lia.
Qed.

Lemma route_send_fails (t : Tick) (w : WaggleInfo) (cam : HiveSide)
  (n : nat) (b : Bridge) :
  cameras_get (cameras b) (cam_id w) = Some cam ->
  send_fails t = Some n -> (n < length (completed (process cam w)))%nat ->
  route t w b
  = (fst (send_all (now t) (process cam w) (Some n) b), Exc SendError).
Proof.
  intros Hc Hf Hn. unfold route, bind at 1, get.
  rewrite cameras_get_mem, Hc, Hf. cbn [is_some negb when].
  unfold bind, ret.
  destruct (send_all_breaks (now t) (process cam w) n b Hn) as (S1 & _).
  destruct (send_all (now t) (process cam w) (Some n) b) as [b1 r1].
  cbn [fst snd] in *. subst r1. reflexivity.
Qed.

End SendFailure.

(** When [send_message] raises on command number [n] of a dance (counting
    from 0, and the generator getting that far without raising), the [n]
    commands before it have been sent, the line of the failing one is
    already in the log, the later observations are neither logged nor
    sent, and [run] stops the bridge and ends with an exception. *)
Theorem send_failure_ends_the_run
  (terminal : Screen) (close_fails : Resource -> bool)
  (t : Tick) (rest : list Tick) (w : WaggleInfo) (cam : HiveSide)
  (n : nat) (b : Bridge) :
  running b = true ->
  is_quit (key t) = false -> draw_fails t = false ->
  stop_request t = false -> message t = RecvWaggle w ->
  cameras_get (cameras b) (cam_id w) = Some cam ->
  send_fails t = Some n -> (n < length (completed (process cam w)))%nat ->
  (exists e, snd (run terminal close_fails (t :: rest) b) = Exc e)
  /\ running (fst (run terminal close_fails (t :: rest) b)) = false
  /\ sent (fst (run terminal close_fails (t :: rest) b))
     = sent b ++ firstn n (messages_of (process cam w))
  /\ log (fst (run terminal close_fails (t :: rest) b))
     = log b ++ map (fun x => {| stamp := now t; line := x |})
                    (firstn (S n) (texts_of (process cam w))).
Proof.
  intros Hrun Hq Hd Hs Hm Hc Hf Hn.
  destruct (log_fn_untouched "starting execution" None b) as (L1 & L2 & _).
  destruct (log_fn "starting execution" None b) as [b0 r0] eqn:L.
  cbn [fst snd] in *. subst r0.
  assert (Hrun0 : running b0 = true) by (rewrite (un_running _ _ L2); exact Hrun).
  assert (Hcam0 : cameras b0 <> []).
  { apply (cameras_get_nonempty _ (cam_id w) cam).
    rewrite (un_cameras _ _ L2). exact Hc. }
  destruct (iteration_routes terminal close_fails t w b0 Hrun0 Hcam0 Hq Hd Hs Hm)
    as (b2 & U & E).
  pose proof (untouched_trans _ _ _ L2 U) as U2.
  assert (Hc2 : cameras_get (cameras b2) (cam_id w) = Some cam)
    by (rewrite (un_cameras _ _ U2); exact Hc).
  rewrite (route_send_fails t w cam n b2 Hc2 Hf Hn) in E.
  destruct (run_first_pass_raises terminal close_fails t rest b b0 _ _ L Hrun0 E)
    as (R1 & R2).
  destruct (send_all_breaks (now t) (process cam w) n b2 Hn)
    as (_ & S2 & S3 & _).
  split; [exact R2 |]. rewrite R1.
  split; [apply stop_clears_running |].
  rewrite stop_sent, stop_log, S2, S3, (un_sent _ _ U2), (un_log _ _ U2).
  split; reflexivity.
Qed.

(** The sample bridge when the first [send_message] of a dance raises: the
    line is in the log and nothing was sent. *)
Lemma send_failure_ends_the_run_witness :
  sent (fst (run Sample.terminal Sample.no_failure
               [SampleStartup.send_fails_at_once; Sample.idle] Sample.bridge))
  = sent Sample.bridge
    ++ firstn 0 (messages_of (process Sample.cam1 (Sample.dance "cam1"))).
Proof.
  refine (proj1 (proj2 (proj2
    (send_failure_ends_the_run Sample.terminal Sample.no_failure
       SampleStartup.send_fails_at_once [Sample.idle] (Sample.dance "cam1")
       Sample.cam1 0 Sample.bridge eq_refl eq_refl eq_refl eq_refl eq_refl
       eq_refl eq_refl _)))).
  rewrite sample_dance_vibrates_east. cbn. lia.
Defined.

(** ** The pass in which the quit key is read *)

Lemma refreshes_with_calls (cs : list Call) (b : Bridge) :
  refreshes (with_calls cs b)
  = (refreshes b
     + length (flat_map
                 (fun c => match c with Refresh p => [p] | _ => [] end) cs))%nat.
Proof.
  unfold refreshes. cbn [calls with_calls].
  rewrite flat_map_app, length_app. reflexivity.
Qed.

Lemma stop_calls_no_refresh (close_fails : Resource -> bool) (b : Bridge) :
  flat_map (fun c => match c with Refresh p => [p] | _ => [] end)
    (stop_calls close_fails b) = [].
Proof.
  unfold stop_calls. rewrite flat_map_app.
  assert (Hc : forall rs,
             flat_map (fun c => match c with Refresh p => [p] | _ => [] end)
               (map Close rs) = []).
  { induction rs as [| r rs IH]; [reflexivity | exact IH]. }
  rewrite Hc. destruct (is_some (statistics b)); reflexivity.
Qed.

Section QuitPass.

Variable terminal : Screen.
Variable close_fails : Resource -> bool.

Lemma stop_returns (b : Bridge) :
  (forall r, close_fails r = false) ->
  stop close_fails b
  = (if running b
     then with_calls (stop_calls close_fails b) (with_running false b)
     else b, Val tt).
Proof.
  intros Hall. rewrite stop_spec. destruct (running b); [| reflexivity].
  unfold stop_outcome.
  destruct (attempted_all close_fails (owned b)) as [_ Hf].
  - intros r _. destruct r; cbn; auto.
  - rewrite Hf. reflexivity.
Qed.

Lemma ui_quit_calls (t : Tick) (scr : Screen) (b : Bridge) :
  (forall r, close_fails r = false) ->
  running b = true -> cameras b <> [] -> is_quit (key t) = true ->
  ui close_fails t scr b
  = (with_calls ([GetKey] ++ stop_calls close_fails b ++ [Stdout "Aborting!"])
       (with_running false b), Val tt).
Proof.
  intros Hall Hrun Hcam Hq. unfold ui. rewrite bind_get.
  destruct (cameras b) as [| [k any_side] rest] eqn:Hc; [contradiction |].
  rewrite Hq. unfold bind at 1, record_call. unfold bind at 1.
  rewrite (stop_returns _ Hall). cbn [running with_call]. rewrite Hrun.
  unfold record_call. f_equal.
  apply bridge_eq; cbn; rewrite <- ?app_assoc; reflexivity.
Qed.

Lemma iteration_quit_closed_form (t : Tick) (b : Bridge) :
  (forall r, close_fails r = false) ->
  running b = true -> cameras b <> [] -> is_quit (key t) = true ->
  let b0 := match screen b with
            | Some _ => b
            | None => with_screen (Some terminal) (with_call ScreenOpen b)
            end in
  iteration terminal close_fails t b
  = (with_call GetMessage
       (with_calls ([GetKey] ++ stop_calls close_fails b0
                      ++ [Stdout "Aborting!"])
          (with_running false b0)),
     match message t with
     | RecvError => Exc ListenerError
     | _ => Val Break
     end).
Proof.
  intros Hall Hrun Hcam Hq b0.
  assert (Hrun0 : running b0 = true) by (unfold b0; destruct (screen b); exact Hrun).
  assert (Hcam0 : cameras b0 <> []) by (unfold b0; destruct (screen b); exact Hcam).
  assert (U : exists scr,
             run_ui terminal close_fails t b = ui close_fails t scr b0).
  { unfold run_ui. rewrite bind_get. unfold b0.
    destruct (screen b) as [scr |]; [exists scr; reflexivity |].
    exists terminal. reflexivity. }
  destruct U as [scr U].
  unfold iteration. unfold bind at 1. rewrite U.
  rewrite (ui_quit_calls t scr b0 Hall Hrun0 Hcam0 Hq).
  unfold get_message. unfold bind at 1. unfold bind at 1, record_call.
  unfold bind at 1.
  assert (W : forall b1 : Bridge, running b1 = false ->
                when (stop_request t) (stop close_fails) b1 = (b1, Val tt)).
  { intros b1 H1. unfold when. destruct (stop_request t); [| reflexivity].
    apply stop_when_stopped. exact H1. }
  rewrite W by reflexivity.
  destruct (message t); unfold raise, ret; cbn [fst snd].
  - reflexivity.
  - rewrite bind_get. cbn [running with_call with_calls with_running negb].
    unfold bind. rewrite stop_when_stopped by reflexivity. reflexivity.
  - rewrite bind_get. cbn [running with_call with_calls with_running negb].
    unfold bind. rewrite stop_when_stopped by reflexivity. reflexivity.
Qed.

End QuitPass.

(** The pass in which the quit key is read, with no [close] raising: the
    bridge is stopped from inside the status view, and the loop body still
    goes on to poll the listener it has just closed before it leaves the
    loop.  No frame is drawn in that pass, and whatever the poll delivers
    is dropped: nothing is logged or sent. *)
Theorem quit_pass_polls_closed_listener
  (terminal : Screen) (close_fails : Resource -> bool)
  (t : Tick) (b : Bridge) :
  (forall r, close_fails r = false) ->
  running b = true -> cameras b <> [] -> is_quit (key t) = true ->
  (exists before after,
      calls (fst (iteration terminal close_fails t b))
      = before ++ Close RWdd :: after
      /\ In GetMessage after)
  /\ running (fst (iteration terminal close_fails t b)) = false
  /\ refreshes (fst (iteration terminal close_fails t b)) = refreshes b
  /\ log (fst (iteration terminal close_fails t b)) = log b
  /\ sent (fst (iteration terminal close_fails t b)) = sent b
  /\ snd (iteration terminal close_fails t b)
     = match message t with
       | RecvError => Exc ListenerError
       | _ => Val Break
       end.
Proof.
  intros Hall Hrun Hcam Hq.
  rewrite (iteration_quit_closed_form terminal close_fails t b Hall Hrun Hcam Hq).
  cbn [fst snd].
  set (b0 := match screen b with
             | Some _ => b
             | None => with_screen (Some terminal) (with_call ScreenOpen b)
             end).
  assert (Hs : stop_sequence close_fails b0 = owned b0).
  { unfold stop_sequence. apply attempted_all.
    intros r _. destruct r; cbn; auto. }
  split; [| split; [reflexivity |]].
  - exists (calls b0 ++ [GetKey]
            ++ (if is_some (statistics b0)
                then [StatLog "stopping execution" None] else [])).
    exists (map Close (tl (owned b0)) ++ [Stdout "Aborting!"; GetMessage]).
    split.
    + cbn [calls with_call with_calls with_running]. unfold stop_calls.
      rewrite Hs. unfold owned. cbn [app map tl].
      destruct (is_some (statistics b0)); cbn [app];
        repeat first [rewrite <- app_assoc | progress (cbn [app])];
        reflexivity.
    + apply in_or_app. right. right. left. reflexivity.
  - assert (Hr0 : refreshes b0 = refreshes b).
    { unfold b0. destruct (screen b); [reflexivity |].
      replace (refreshes (with_screen (Some terminal) (with_call ScreenOpen b)))
        with (refreshes (with_call ScreenOpen b)) by reflexivity.
      rewrite refreshes_with_call. lazy iota beta. lia. }
    assert (Hl0 : log b0 = log b) by (unfold b0; destruct (screen b); reflexivity).
    assert (Hs0 : sent b0 = sent b).
    { unfold b0. destruct (screen b); [reflexivity |].
      unfold sent. cbn [calls with_screen with_call].
      rewrite flat_map_app. cbn. apply app_nil_r. }
    split; [| split; [exact Hl0 | split; [| reflexivity]]].
    + rewrite refreshes_with_call. lazy iota beta.
      rewrite refreshes_with_calls, !flat_map_app, stop_calls_no_refresh.
      replace (refreshes (with_running false b0)) with (refreshes b0)
        by reflexivity.
      cbn [flat_map app length]. lia.
    + replace (sent (with_call GetMessage
                       (with_calls ([GetKey] ++ stop_calls close_fails b0
                                      ++ [Stdout "Aborting!"])
                          (with_running false b0))))
        with (sent (with_calls (([GetKey] ++ stop_calls close_fails b0
                                   ++ [Stdout "Aborting!"]) ++ [GetMessage])
                      b0)).
      * rewrite sent_with_calls, !flat_map_app, sent_stop_calls.
        cbn [flat_map app]. rewrite app_nil_r. exact Hs0.
      * unfold sent. cbn [calls with_call with_calls with_running].
        rewrite <- !app_assoc. reflexivity.
Qed.

(** The sample bridge when the quit key is read. *)
Lemma quit_pass_polls_closed_listener_witness :
  snd (iteration Sample.terminal Sample.no_failure Sample.quit Sample.bridge)
  = Val Break.
Proof.
  refine (proj2 (proj2 (proj2 (proj2 (proj2
    (quit_pass_polls_closed_listener Sample.terminal Sample.no_failure
       Sample.quit Sample.bridge _ eq_refl _ eq_refl)))))).
  - intros r. reflexivity.
  - discriminate.
Defined.

(** ** From the constructor to the end of [run] *)

(** A bridge answered by the constructor, run until the loop is left with
    no [close] raising: it is stopped, every object it owns at that point
    (listener, connector, each camera, the statistics sink if there is
    one, the screen if it was opened) has been closed exactly once and in
    that order, nothing else has been closed, and every command was sent
    before the first [close]. *)
Theorem constructed_bridge_shuts_down
  (env : Startup) (comb_config : string) (stats_file : option string)
  (built : list Built) (b : Bridge)
  (terminal : Screen) (close_fails : Resource -> bool) (ticks : list Tick) :
  init env comb_config stats_file = (built, Constructed b) ->
  (forall r, close_fails r = false) ->
  snd (run terminal close_fails ticks b) <> Val Pending ->
  running (fst (run terminal close_fails ticks b)) = false
  /\ closed (fst (run terminal close_fails ticks b))
     = owned (fst (run terminal close_fails ticks b))
  /\ (forall r, In r (owned (fst (run terminal close_fails ticks b))) ->
        times_closed (fst (run terminal close_fails ticks b)) r = 1%nat)
  /\ (forall r, ~ In r (owned (fst (run terminal close_fails ticks b))) ->
        times_closed (fst (run terminal close_fails ticks b)) r = 0%nat)
  /\ sends_precede_closes (fst (run terminal close_fails ticks b)).
Proof.
  intros Hinit Hall Hleft.
  destruct (init_ready env comb_config stats_file built b Hinit)
    as (Hrun & Hclosed & Hnd).
  assert (Hcons : shutdown_consistent close_fails b)
    by (unfold shutdown_consistent; rewrite Hrun; exact Hclosed).
  pose proof (run_shutdown_consistent terminal close_fails ticks b Hcons)
    as Hc.
  pose proof (run_evolves terminal close_fails ticks b) as Hev.
  assert (Hord : sends_precede_closes (fst (run terminal close_fails ticks b))).
  { apply (run_keeps_order terminal close_fails ticks b).
    - exists (calls b), []. split; [rewrite app_nil_r; reflexivity |].
      split; [exact Hclosed | reflexivity].
    - intros _. exact Hclosed. }
  destruct (run_cases terminal close_fails ticks b) as [[Hp _] | [_ Hoff]];
    [contradiction |].
  set (b' := fst (run terminal close_fails ticks b)) in *.
  unfold shutdown_consistent in Hc. rewrite Hoff in Hc.
  assert (Hs : stop_sequence close_fails b' = owned b').
  { unfold stop_sequence. apply attempted_all.
    intros r _. destruct r; cbn; auto. }
  rewrite Hs in Hc.
  assert (Hnd' : NoDup (owned b')).
  { apply owned_NoDup. rewrite (ev_cameras _ _ Hev). exact Hnd. }
  split; [exact Hoff |]. split; [exact Hc |].
  unfold times_closed. rewrite Hc. split; [| split; [| exact Hord]].
  - intros r Hr.
    apply (proj1 (NoDup_count_occ' Resource_eq_dec (owned b')) Hnd' r Hr).
  - intros r Hr. apply count_occ_not_In. exact Hr.
Qed.

(** The sample start-up, then a pass in which the quit key is read. *)
Lemma constructed_bridge_shuts_down_witness :
  exists built b,
    init (SampleStartup.env SampleStartup.twice) "comb.json" None
    = (built, Constructed b)
    /\ running (fst (run Sample.terminal Sample.no_failure [Sample.quit] b))
       = false.
Proof.
  destruct (init (SampleStartup.env SampleStartup.twice) "comb.json" None)
    as [built result] eqn:E.
  assert (Hr : exists b, result = Constructed b).
  { cbn in E. inversion E. eexists. reflexivity. }
  destruct Hr as [b ->]. exists built, b. split; [reflexivity |].
  refine (proj1 (constructed_bridge_shuts_down _ _ _ _ _ Sample.terminal
                   Sample.no_failure [Sample.quit] E _ _)).
  - intros r. reflexivity.
  - apply run_quit_leaves. constructor. reflexivity.
Defined.

(** ** A batch and the running flag *)

Section Dropped.

Variable terminal : Screen.
Variable close_fails : Resource -> bool.

Lemma passive_untouched (c : Call) (b0 b : Bridge) :
  passive c = true ->
  sent b = sent b0 /\ log b = log b0 ->
  sent (with_call c b) = sent b0 /\ log (with_call c b) = log b0.
Proof.
  intros Hc [Hs Hl]. split; [| exact Hl].
  unfold sent. cbn [calls with_call]. rewrite flat_map_app.
  fold (sent b). rewrite Hs.
  destruct c; try discriminate Hc; cbn; apply app_nil_r.
Qed.

Lemma stop_untouched (b0 : Bridge) :
  preserves (fun b => sent b = sent b0 /\ log b = log b0) (stop close_fails).
Proof.
  intros b [Hs Hl]. rewrite stop_sent, stop_log. split; assumption.
Qed.

(** A stop requested during the wait leaves the flag cleared, whatever
    the listener answers and whether or not a [close] raises. *)
Lemma get_message_stops (t : Tick) (b : Bridge) :
  running b = false \/ stop_request t = true ->
  running (fst (get_message close_fails t b)) = false.
Proof.
  intros [Hoff | Hreq]; [apply get_message_stays_stopped, Hoff |].
  unfold get_message. unfold bind at 1, record_call. unfold bind at 1.
  rewrite Hreq. cbn [when].
  pose proof (stop_clears_running close_fails (with_call GetMessage b)) as Hoff.
  destruct (stop close_fails (with_call GetMessage b)) as [b1 [[] | e]];
    cbn [fst snd] in *; [| exact Hoff].
  destruct (message t); exact Hoff.
Qed.

(** A pass in which the quit key is read or a stop is requested during
    the wait sends nothing, prints nothing and does not go on. *)
Lemma iteration_drops (t : Tick) (b : Bridge) :
  running b = true ->
  is_quit (key t) = true \/ stop_request t = true ->
  sent (fst (iteration terminal close_fails t b)) = sent b
  /\ log (fst (iteration terminal close_fails t b)) = log b
  /\ snd (iteration terminal close_fails t b) <> Val Continue.
Proof.
  intros Hrun Hstop.
  set (Q := fun b' : Bridge => sent b' = sent b /\ log b' = log b).
  assert (Q1 : Q (fst (run_ui terminal close_fails t b))).
  { apply (run_ui_rule terminal close_fails Q).
    - intros c b' Hc HQ. apply passive_untouched; assumption.
    - apply stop_untouched.
    - intros b' [Hs Hl] _ _. split; [| exact Hl].
      unfold sent. cbn [calls with_screen with_call]. rewrite flat_map_app.
      fold (sent b'). rewrite Hs. apply app_nil_r.
    - exact Hrun.
    - split; reflexivity. }
  assert (R1 : snd (run_ui terminal close_fails t b) = Val tt ->
               running (fst (run_ui terminal close_fails t b)) = false
               \/ stop_request t = true).
  { intros Hv. destruct Hstop as [Hq | Hs]; [left | right; exact Hs].
    destruct (run_ui_quit terminal close_fails t b Hq) as [[e He] | [_ Hoff]];
      [rewrite Hv in He; discriminate | exact Hoff]. }
  assert (E : exists b' r,
             iteration terminal close_fails t b = (b', r)
             /\ Q b' /\ r <> Val Continue).
  { unfold iteration. unfold bind at 1.
    destruct (run_ui terminal close_fails t b) as [b1 [[] | e]];
      cbn [fst snd] in *;
      [| exists b1, (Exc e); split; [reflexivity | split; [exact Q1 | discriminate]]].
    specialize (R1 eq_refl).
    pose proof (get_message_stops t b1 R1) as Hoff.
    assert (Q2 : Q (fst (get_message close_fails t b1))).
    { apply (get_message_rule close_fails Q).
      - intros c b' Hc HQ. apply passive_untouched; assumption.
      - apply stop_untouched.
      - exact Q1. }
    unfold bind at 1.
    destruct (get_message close_fails t b1) as [b2 [wi | e]];
      cbn [fst snd] in *;
      [| exists b2, (Exc e); split; [reflexivity | split; [exact Q2 | discriminate]]].
    rewrite bind_get, Hoff. cbn [negb]. unfold bind, ret.
    pose proof (stop_untouched b b2 Q2) as Q3.
    destruct (stop close_fails b2) as [b3 [[] | e]]; cbn [fst snd] in *;
      eexists; eexists; (split; [reflexivity | split; [exact Q3 | discriminate]]). }
  destruct E as (b' & r & -> & [Hs Hl] & Hr). cbn [fst snd].
  split; [exact Hs | split; [exact Hl | exact Hr]].
Qed.

(** With no [close] raising, a pass in which a stop is requested during
    the wait ends in [break] with the flag cleared. *)
Lemma iteration_stop_request_breaks (t : Tick) (w : WaggleInfo) (b : Bridge) :
  (forall r, close_fails r = false) ->
  running b = true -> cameras b <> [] ->
  is_quit (key t) = false -> draw_fails t = false ->
  stop_request t = true -> message t = RecvWaggle w ->
  snd (iteration terminal close_fails t b) = Val Break
  /\ running (fst (iteration terminal close_fails t b)) = false.
Proof.
  intros Hall Hrun Hcam Hq Hd Hs Hm.
  destruct (run_ui_draws terminal close_fails t b Hcam Hq Hd) as [U1 U2].
  assert (E : exists b2,
             iteration terminal close_fails t b = (b2, Val Break)
             /\ running b2 = false).
  { unfold iteration. unfold bind at 1.
    destruct (run_ui terminal close_fails t b) as [b1 r1].
    cbn [fst snd] in *. subst r1.
    unfold get_message. unfold bind at 1. unfold bind at 1, record_call.
    unfold bind at 1. rewrite Hs. cbn [when].
    rewrite (stop_returns close_fails _ Hall). cbn [running with_call].
    rewrite (un_running _ _ U2), Hrun, Hm. unfold ret.
    rewrite bind_get. cbn [running with_calls with_running negb].
    unfold bind. rewrite stop_when_stopped by reflexivity.
    eexists. split; reflexivity. }
  destruct E as (b2 & -> & Hoff). split; [reflexivity | exact Hoff].
Qed.

End Dropped.

(** C7, as it holds.  A batch of a configured camera that is received with
    the flag still set (no quit key in the render tick, no stop requested
    during the wait) is processed to its end when no call raises: every
    message of the generator is sent, in order, once per observation, and
    the pass goes back to the head of the loop.  A batch received in a
    pass in which the quit key was read or a stop was requested during the
    wait is discarded: nothing of it is printed or sent, and the pass
    leaves the loop, by [break] when nothing raises. *)
Theorem batch_dispatched_when_still_running
  (terminal : Screen) (close_fails : Resource -> bool)
  (t : Tick) (w : WaggleInfo) (cam : HiveSide) (b : Bridge) :
  running b = true ->
  message t = RecvWaggle w ->
  cameras_get (cameras b) (cam_id w) = Some cam ->
  (is_quit (key t) = false -> draw_fails t = false ->
   stop_request t = false -> send_fails t = None ->
   raises (process cam w) = false ->
   snd (iteration terminal close_fails t b) = Val Continue
   /\ sent (fst (iteration terminal close_fails t b))
      = sent b ++ messages_of (process cam w)
   /\ length (messages_of (process cam w)) = length (dance_detector cam w)
   /\ log (fst (iteration terminal close_fails t b))
      = log b
        ++ map (fun x => {| stamp := now t; line := x |})
               (texts_of (process cam w))
   /\ running (fst (iteration terminal close_fails t b)) = true
   /\ closed (fst (iteration terminal close_fails t b)) = closed b)
  /\ (is_quit (key t) = true \/ stop_request t = true ->
      sent (fst (iteration terminal close_fails t b)) = sent b
      /\ log (fst (iteration terminal close_fails t b)) = log b
      /\ snd (iteration terminal close_fails t b) <> Val Continue
      /\ ((forall r, close_fails r = false) ->
          is_quit (key t) = true \/ draw_fails t = false ->
          snd (iteration terminal close_fails t b) = Val Break
          /\ running (fst (iteration terminal close_fails t b)) = false)).
Proof.
  intros Hrun Hm Hc.
  pose proof (cameras_get_nonempty _ _ _ Hc) as Hcam.
  split.
  - intros Hq Hd Hs Hf Hr.
    destruct (iteration_routes terminal close_fails t w b)
      as (b2 & U & ->); try assumption.
    rewrite (route_known t w cam b2)
      by (try rewrite (un_cameras _ _ U); assumption).
    cbn [fst snd].
    destruct (process_messages_length cam w (process_raises_mappable cam w Hr))
      as (Hlen & _).
    destruct (send_all_spec (now t) (process cam w) b2 Hr)
      as (_ & S2 & S3 & S4 & S5).
    rewrite S2, S3, S4, S5.
    rewrite (un_sent _ _ U), (un_log _ _ U), (un_running _ _ U),
      (un_closed _ _ U).
    repeat split; assumption.
  - intros Hstop.
    destruct (iteration_drops terminal close_fails t b Hrun Hstop)
      as (D1 & D2 & D3).
    split; [exact D1 | split; [exact D2 | split; [exact D3 |]]].
    intros Hall Hdraw.
    destruct (is_quit (key t)) eqn:Hq.
    + rewrite (iteration_quit_closed_form terminal close_fails t b Hall Hrun
                 Hcam Hq), Hm.
      split; reflexivity.
    + destruct Hstop as [Hq' | Hs]; [discriminate |].
      destruct Hdraw as [Hq' | Hd]; [discriminate |].
      apply (iteration_stop_request_breaks terminal close_fails t w b);
        assumption.
Qed.

(** The sample bridge receives a dance of camera "cam1". *)
Lemma batch_dispatched_when_still_running_witness :
  snd (iteration Sample.terminal Sample.no_failure (Sample.waggle "cam1")
         Sample.bridge) = Val Continue
  /\ length (sent (fst (iteration Sample.terminal Sample.no_failure
                          (Sample.waggle "cam1") Sample.bridge))) = 1%nat.
Proof.
  destruct (batch_dispatched_when_still_running
              Sample.terminal Sample.no_failure (Sample.waggle "cam1")
              (Sample.dance "cam1") Sample.cam1 Sample.bridge
              eq_refl eq_refl eq_refl) as [Hsent _].
  destruct Hsent as (H1 & H2 & H3 & _); try reflexivity.
  - rewrite sample_dance_vibrates_east. reflexivity.
  - split; [exact H1 |]. rewrite H2.
    cbn [sent Sample.bridge calls flat_map app]. exact H3.
Defined.

(** C7 as stated fails: a dance of camera "cam1" that arrives in the pass
    in which a stop is requested during the wait is dropped, although
    nothing raises. *)
Lemma batch_dropped_on_stop_request :
  ~ (forall terminal close_fails t w cam b,
       running b = true ->
       draw_fails t = false -> send_fails t = None ->
       (forall r, close_fails r = false) ->
       message t = RecvWaggle w ->
       cameras_get (cameras b) (cam_id w) = Some cam ->
       sent (fst (iteration terminal close_fails t b))
       = sent b ++ messages_of (process cam w)).
Proof.
  intros H.
  specialize (H Sample.terminal Sample.no_failure
                (Sample.waggle_during_stop "cam1") (Sample.dance "cam1")
                Sample.cam1 Sample.bridge eq_refl eq_refl eq_refl
                (fun _ => eq_refl) eq_refl eq_refl).
  apply (f_equal (@length _)) in H. rewrite length_app in H.
  destruct (process_messages_length Sample.cam1 (Sample.dance "cam1") eq_refl)
    as (Hlen & _).
  rewrite Hlen in H. discriminate H.
Qed.
